(** * anyq: a shallow embedding of the core runtime and the in-memory backend

    The development follows the layout of the repository:

    - [Backoff]         packages/core/src/utils/backoff.ts
    - [Js]              the few ECMAScript built-ins the sources rely on
    - [Runtime]         the effect model shared by the middleware (clock,
                        random source, call trace, user state)
    - [Retry]           packages/core/src/middleware/retry.ts
    - [Breaker]         packages/core/src/middleware/circuit-breaker.ts
    - [Memory]          packages/memory/src/{queue,registry}.ts
    - [Adapter]         packages/core/src/base/base-adapter.ts
    - [MemoryAdapters]  packages/memory/src/{producer,consumer}.ts
    - [Json]            packages/core/src/serialization/json.ts
    - [Errors]          packages/core/src/types/errors.ts (AnyQError.from)
    - [Ids]             packages/core/src/utils/id-generator.ts

    The modules [BackoffFacts], [RetryFacts], [BreakerFacts], [MemoryFacts],
    [AdapterFacts] and [JsonFacts] state and prove the properties; the
    modules [BackoffLaws], [RetryLaws], [BreakerLaws], [QueueLaws],
    [MemoryLaws], [JsonLaws] and [IdLaws] add invariants, round trips and
    edge behaviour of the same code.

    Numbers.  JavaScript numbers are IEEE doubles.  Delays are modelled over
    the rationals [Q] (no rounding, no Infinity, no NaN); counters, clock
    readings and attempt numbers over [Z]. *)

From stdpp Require Import gmap strings list fin_maps pretty.
From Stdlib Require Import ZArith QArith Qpower Qround Qminmax Lia Lqa Ascii String.

Open Scope Z_scope.

(* ===================================================================== *)
(** * Backoff engine (utils/backoff.ts) *)
(* ===================================================================== *)

Module Backoff.

Local Open Scope Q_scope.

(** The string literals 'exponential' | 'linear' | 'constant' | 'fibonacci'. *)
Inductive BackoffStrategy := Exponential | Linear | Constant | Fibonacci.

(** [BackoffOptions]: every field is optional in the source. *)
Record BackoffOptions := mkBackoffOptions {
  strategy : option BackoffStrategy;
  initialDelayMs : option Q;
  maxDelayMs : option Q;
  multiplier : option Q;
  jitter : option bool;
  jitterFactor : option Q
}.

(** DEFAULT_RETRY_CONFIG of types/config.ts. *)
Definition DEFAULT_initialDelayMs : Q := 100.
Definition DEFAULT_maxDelayMs : Q := 10000.
Definition DEFAULT_multiplier : Q := 2.
Definition DEFAULT_jitter : bool := true.

(** Destructuring with a default: [{ x = d } = options]. *)
Definition orDefault {A} (o : option A) (d : A) : A :=
  match o with Some v => v | None => d end.

(** [applyJitter(delay, factor)]; [rnd] is the value [Math.random()]
    returns for this call. *)
Definition applyJitter (delay factor rnd : Q) : Q :=
  let jitterRange := delay * factor in
  let jitter := rnd * jitterRange * 2 - jitterRange in
  Qmax 0 (delay + jitter).

Definition exponentialBackoff (attempt : Z) (options : BackoffOptions) (rnd : Q) : Z :=
  let initialDelayMs := orDefault (initialDelayMs options) DEFAULT_initialDelayMs in
  let maxDelayMs := orDefault (maxDelayMs options) DEFAULT_maxDelayMs in
  let multiplier := orDefault (multiplier options) DEFAULT_multiplier in
  let jitter := orDefault (jitter options) DEFAULT_jitter in
  let jitterFactor := orDefault (jitterFactor options) (1 # 4) in
  let delay := initialDelayMs * Qpower multiplier (attempt - 1) in
  let delay := Qmin delay maxDelayMs in
  let delay := if jitter then applyJitter delay jitterFactor rnd else delay in
  Qfloor delay.

Definition linearBackoff (attempt : Z) (options : BackoffOptions) (rnd : Q) : Z :=
  let initialDelayMs := orDefault (initialDelayMs options) DEFAULT_initialDelayMs in
  let maxDelayMs := orDefault (maxDelayMs options) DEFAULT_maxDelayMs in
  let multiplier := orDefault (multiplier options) 1000 in
  let jitter := orDefault (jitter options) DEFAULT_jitter in
  let jitterFactor := orDefault (jitterFactor options) (1 # 4) in
  let delay := initialDelayMs + inject_Z (attempt - 1) * multiplier in
  let delay := Qmin delay maxDelayMs in
  let delay := if jitter then applyJitter delay jitterFactor rnd else delay in
  Qfloor delay.

Definition constantBackoff (_attempt : Z) (options : BackoffOptions) (rnd : Q) : Z :=
  let initialDelayMs := orDefault (initialDelayMs options) DEFAULT_initialDelayMs in
  let jitter := orDefault (jitter options) DEFAULT_jitter in
  let jitterFactor := orDefault (jitterFactor options) (1 # 4) in
  let delay := initialDelayMs in
  let delay := if jitter then applyJitter delay jitterFactor rnd else delay in
  Qfloor delay.

(** The loop [for (i = 2; i < n; i++)] of [fibonacci]. *)
Fixpoint fibLoop (iters : nat) (prev curr : Z) : Z :=
  match iters with
  | O => curr
  | S k => fibLoop k curr (prev + curr)%Z
  end.

Definition fibonacci (n : Z) : Z :=
  if (n <=? 1)%Z then 1%Z else fibLoop (Z.to_nat (n - 2)) 1 1.

Definition fibonacciBackoff (attempt : Z) (options : BackoffOptions) (rnd : Q) : Z :=
  let initialDelayMs := orDefault (initialDelayMs options) DEFAULT_initialDelayMs in
  let maxDelayMs := orDefault (maxDelayMs options) DEFAULT_maxDelayMs in
  let jitter := orDefault (jitter options) DEFAULT_jitter in
  let jitterFactor := orDefault (jitterFactor options) (1 # 4) in
  let fib := fibonacci attempt in
  let delay := initialDelayMs * inject_Z fib in
  let delay := Qmin delay maxDelayMs in
  let delay := if jitter then applyJitter delay jitterFactor rnd else delay in
  Qfloor delay.

Definition calculateDelay (attempt : Z) (options : BackoffOptions) (rnd : Q) : Z :=
  match orDefault (strategy options) Exponential with
  | Exponential => exponentialBackoff attempt options rnd
  | Linear => linearBackoff attempt options rnd
  | Constant => constantBackoff attempt options rnd
  | Fibonacci => fibonacciBackoff attempt options rnd
  end.

(** [backoffIterator(options, maxAttempts = 10)], run to completion: the
    delays it yields, in order.  [rnd attempt] is the value [Math.random()]
    returns while the delay of [attempt] is computed.  [iterate] is the loop
    [for (attempt = 1; attempt <= maxAttempts; attempt++)], [iters] counting
    the iterations left. *)
Fixpoint iterate (iters : nat) (attempt : Z) (options : BackoffOptions) (rnd : Z -> Q)
  : list Z :=
  match iters with
  | O => []
  | S k => calculateDelay attempt options (rnd attempt)
           :: iterate k (attempt + 1)%Z options rnd
  end.

Definition backoffIterator (options : BackoffOptions) (maxAttempts : option Z)
    (rnd : Z -> Q) : list Z :=
  iterate (Z.to_nat (orDefault maxAttempts 10%Z)) 1%Z options rnd.

(** Options used by the unit tests of the backoff strategies. *)
Definition baseOptions : BackoffOptions :=
  mkBackoffOptions None (Some 100) (Some 10000) (Some 2) (Some false) None.


End Backoff.

(* ===================================================================== *)
(** * ECMAScript values and built-ins used by the sources *)
(* ===================================================================== *)

Module Js.

(** [String.prototype.toLowerCase], on the ASCII letters. *)
Definition toLowerAscii (c : ascii) : ascii :=
  let n := nat_of_ascii c in
  if ((65 <=? n) && (n <=? 90))%nat then ascii_of_nat (n + 32) else c.

Fixpoint toLowerCase (s : string) : string :=
  match s with
  | EmptyString => EmptyString
  | String c r => String (toLowerAscii c) (toLowerCase r)
  end.

(** [s.includes(sub)]. *)
Fixpoint includes (s sub : string) : bool :=
  if String.prefix sub s then true
  else match s with
       | EmptyString => false
       | String _ r => includes r sub
       end.

(** The fields of [AnyQError] that plain [Error] objects lack
    (types/errors.ts). *)
Record AnyQInfo := mkAnyQInfo { code : string; retryable : bool }.

(** A thrown value.  [anyq = Some _] iff it is [instanceof AnyQError]. *)
Record Error := mkError {
  name : string;
  message : string;
  anyq : option AnyQInfo
}.

Definition newError (msg : string) : Error := mkError "Error" msg None.

Definition ConnectionError (msg : string) : Error :=
  mkError "ConnectionError" msg (Some (mkAnyQInfo "CONNECTION_ERROR" true)).

Definition CircuitOpenError : Error :=
  mkError "CircuitOpenError" "Circuit breaker is open"
          (Some (mkAnyQInfo "CIRCUIT_OPEN" false)).

(** The settlement of a promise. *)
Inductive Outcome (T : Type) :=
| Ok (v : T)
| Throw (e : Error).
Arguments Ok {T} v.
Arguments Throw {T} e.

(** ** Dates

    A [Date] is its time value: milliseconds since the epoch, UTC. *)

(** Decimal digits of [n], left-padded with zeros to [width]. *)
Fixpoint padDigits (width : nat) (n : Z) (acc : string) : string :=
  match width with
  | O => acc
  | Datatypes.S k =>
      padDigits k (n / 10) (String (ascii_of_nat (48 + Z.to_nat (n mod 10))) acc)
  end.

Definition pad (width : nat) (n : Z) : string := padDigits width n EmptyString.

(** Year, month, day of a day number (days since 1970-01-01), proleptic
    Gregorian calendar. *)
Definition civilFromDays (days : Z) : Z * Z * Z :=
  let z := days + 719468 in
  let era := z / 146097 in
  let doe := z - era * 146097 in
  let yoe := (doe - doe / 1460 + doe / 36524 - doe / 146096) / 365 in
  let y := yoe + era * 400 in
  let doy := doe - (365 * yoe + yoe / 4 - yoe / 100) in
  let mp := (5 * doy + 2) / 153 in
  let d := doy - (153 * mp + 2) / 5 + 1 in
  let m := if mp <? 10 then mp + 3 else mp - 9 in
  (if m <=? 2 then y + 1 else y, m, d).

Definition daysFromCivil (y m d : Z) : Z :=
  let y := if m <=? 2 then y - 1 else y in
  let era := y / 400 in
  let yoe := y - era * 400 in
  let doy := (153 * (if m >? 2 then m - 3 else m + 9) + 2) / 5 + d - 1 in
  let doe := yoe * 365 + yoe / 4 - yoe / 100 + doy in
  era * 146097 + doe - 719468.

Definition msPerDay : Z := 86400000.

(** [Date.prototype.toISOString]: YYYY-MM-DDTHH:mm:ss.sssZ, with the
    expanded year (sign and six digits) outside 0000..9999. *)
Definition toISOString (t : Z) : string :=
  let '(y, m, d) := civilFromDays (t / msPerDay) in
  let r := t mod msPerDay in
  let year :=
    if (0 <=? y) && (y <=? 9999) then pad 4 y
    else if y <? 0 then ("-" ++ pad 6 (- y))%string
    else ("+" ++ pad 6 y)%string in
  (year ++ "-" ++ pad 2 m ++ "-" ++ pad 2 d ++ "T"
   ++ pad 2 (r / 3600000) ++ ":" ++ pad 2 (r / 60000 mod 60) ++ ":"
   ++ pad 2 (r / 1000 mod 60) ++ "." ++ pad 3 (r mod 1000) ++ "Z")%string.

(** [Date.prototype.getUTCFullYear] *)
Definition getUTCFullYear (t : Z) : Z := fst (fst (civilFromDays (t / msPerDay))).

(** [Number.isSafeInteger], on integers. *)
Definition isSafeInteger (n : Z) : bool := Z.abs n <=? 2 ^ 53 - 1.

End Js.

(* ===================================================================== *)
(** * Effect model *)
(* ===================================================================== *)

(** The middleware runs user code, reads the clock ([Date.now]), draws random
    numbers ([Math.random]), sleeps and logs.  A [World] carries what these
    effects read and write; [M S T] is a computation that settles with an
    [Outcome T].  The [trace] records, in order, every call the runtime makes
    to user code, every sleep and every log line. *)

Module Runtime.
Import Js.

(** [RetryAttempt] of middleware/retry.ts (the argument of [onRetry]). *)
Record RetryAttempt := mkRetryAttempt {
  attempt : Z;
  maxAttempts : Z;
  delayMs : Z;
  error : option Error
}.

Inductive LogLevel := LDebug | LInfo | LWarn | LError.

Inductive Event :=
| EvCall (failure : option Error)         (* the operation was invoked, and threw [failure] *)
| EvOnRetry (info : RetryAttempt)         (* the user's onRetry was invoked *)
| EvSleep (ms : Z)                        (* a timer of [ms] elapsed *)
| EvLog (level : LogLevel) (msg : string) (info : option RetryAttempt).

Record World (S : Type) := mkWorld {
  clock : Z;                 (* Date.now() *)
  rng : nat -> Q;            (* the successive values of Math.random() *)
  rngIdx : nat;
  trace : list Event;
  user : S                   (* whatever the user's closures capture *)
}.
Arguments mkWorld {S}.
Arguments clock {S}.
Arguments rng {S}.
Arguments rngIdx {S}.
Arguments trace {S}.
Arguments user {S}.

Definition M (S T : Type) : Type := World S -> Outcome T * World S.

Section Ops.
Context {S : Type}.

Definition ret {T} (v : T) : M S T := fun w => (Ok v, w).
Definition throw {T} (e : Error) : M S T := fun w => (Throw e, w).

Definition bind {T U} (m : M S T) (k : T -> M S U) : M S U :=
  fun w => match m w with
           | (Ok v, w1) => k v w1
           | (Throw e, w1) => (Throw e, w1)
           end.

Definition emit (ev : Event) (w : World S) : World S :=
  mkWorld (clock w) (rng w) (rngIdx w) (trace w ++ [ev]) (user w).

Definition advance (ms : Z) (w : World S) : World S :=
  mkWorld (clock w + Z.max 0 ms) (rng w) (rngIdx w) (trace w) (user w).

Definition setUser (u : S) (w : World S) : World S :=
  mkWorld (clock w) (rng w) (rngIdx w) (trace w) u.

(** [Math.random()]. *)
Definition random : M S Q :=
  fun w => (Ok (rng w (rngIdx w)),
            mkWorld (clock w) (rng w) (Datatypes.S (rngIdx w)) (trace w) (user w)).

Definition log (level : LogLevel) (msg : string) (info : option RetryAttempt) : M S unit :=
  fun w => (Ok tt, emit (EvLog level msg info) w).

(** User code: an async function closing over the user state.  It sees the
    clock, settles with an outcome, leaves a new user state and takes
    [elapsed] milliseconds. *)
Definition Operation (T : Type) : Type := Z -> S -> Outcome T * S * Z.

(** Calling an operation, as [await operation()] does. *)
Definition invoke {T} (op : Operation T) : M S T :=
  fun w =>
    let '(r, u, elapsed) := op (clock w) (user w) in
    let failure := match r with Ok _ => None | Throw e => Some e end in
    (r, advance elapsed (setUser u (emit (EvCall failure) w))).

(** A user [onRetry] callback. *)
Definition Callback : Type := RetryAttempt -> S -> Outcome unit * S.

Definition invokeOnRetry (cb : Callback) (info : RetryAttempt) : M S unit :=
  fun w =>
    let w1 := emit (EvOnRetry info) w in
    let '(r, u) := cb info (user w1) in
    (r, setUser u w1).

(** An [AbortSignal] whose controller fires at clock reading [abortAt]. *)
Record AbortSignal := mkAbortSignal { abortAt : Z }.

Definition aborted (signal : option AbortSignal) (w : World S) : bool :=
  match signal with
  | None => false
  | Some sg => abortAt sg <=? clock w
  end.

End Ops.

Arguments Operation : clear implicits.
Arguments Callback : clear implicits.

(** How often the operation was invoked, and with which [attempt] values the
    user's onRetry was called. *)
Definition calls (t : list Event) : nat :=
  List.length (List.filter (fun ev => match ev with EvCall _ => true | _ => false end) t).

(** The error thrown by the most recent invocation of the operation. *)
Definition lastCallError (t : list Event) : option Error :=
  List.last (flat_map (fun ev => match ev with EvCall f => [f] | _ => [] end) t) None.

Definition onRetryAttempts (t : list Event) : list Z :=
  flat_map (fun ev => match ev with EvOnRetry i => [attempt i] | _ => [] end) t.

End Runtime.

(* ===================================================================== *)
(** * Retry engine (middleware/retry.ts) *)
(* ===================================================================== *)

Module Retry.
Import Js Runtime.

Record RetryConfig := mkRetryConfig {
  maxRetries : Z;
  initialDelayMs : Q;
  maxDelayMs : Q;
  multiplier : Q;
  jitter : bool;
  retryableErrors : option (list string)
}.

Definition DEFAULT_RETRY_CONFIG : RetryConfig :=
  mkRetryConfig 3 100 10000 2 true None.

(** [Partial<RetryConfig>]. *)
Module Partial.
Record RetryConfig := mk {
  maxRetries : option Z;
  initialDelayMs : option Q;
  maxDelayMs : option Q;
  multiplier : option Q;
  jitter : option bool;
  retryableErrors : option (list string)
}.
Definition empty : RetryConfig := mk None None None None None None.
End Partial.

(** [{ ...base, ...over }]. *)
Definition spread (base : RetryConfig) (over : Partial.RetryConfig) : RetryConfig :=
  mkRetryConfig
    (Backoff.orDefault (Partial.maxRetries over) (maxRetries base))
    (Backoff.orDefault (Partial.initialDelayMs over) (initialDelayMs base))
    (Backoff.orDefault (Partial.maxDelayMs over) (maxDelayMs base))
    (Backoff.orDefault (Partial.multiplier over) (multiplier base))
    (Backoff.orDefault (Partial.jitter over) (jitter base))
    (match Partial.retryableErrors over with
     | Some l => Some l
     | None => retryableErrors base
     end).

(** [isRetryableError(error, retryablePatterns)]. *)
Definition defaultRetryablePatterns : list string :=
  [ "ECONNREFUSED"; "ECONNRESET"; "ETIMEDOUT"; "ENOTFOUND"; "EAI_AGAIN";
    "socket hang up"; "connection refused"; "network error"; "timeout";
    "temporarily unavailable"; "service unavailable"; "too many requests";
    "rate limit"; "throttl" ]%string.

Definition isRetryableError (error : Error) (retryablePatterns : option (list string)) : bool :=
  match anyq error with
  | Some i => retryable i
  | None =>
    match retryablePatterns with
    | Some (p :: ps) =>
        let message := toLowerCase (message error) in
        existsb (fun pattern => includes message (toLowerCase pattern)) (p :: ps)
    | _ =>
        let message := toLowerCase (message error) in
        let name := toLowerCase (name error) in
        existsb (fun pattern =>
                   includes message (toLowerCase pattern)
                   || includes name (toLowerCase pattern))
                defaultRetryablePatterns
    end
  end.

Section WithState.
Context {S : Type}.

Record RetryOptions := mkRetryOptions {
  partial : Partial.RetryConfig;
  onRetry : option (RetryAttempt -> M S unit);
  isRetryable : option (Error -> bool);
  signal : option AbortSignal
}.

(** [calculateBackoff(attempt, config)]; draws from [Math.random] when
    jitter is on. *)
Definition calculateBackoff (attempt : Z) (config : RetryConfig) : M S Z :=
  let exponentialDelay :=
    (initialDelayMs config * Qpower (multiplier config) (attempt - 1))%Q in
  let delay := Qmin exponentialDelay (maxDelayMs config) in
  if jitter config then
    bind random (fun r =>
      let jitterRange := (delay * (1 # 4))%Q in
      let jitter := (r * jitterRange * 2 - jitterRange)%Q in
      ret (Qfloor (Qmax 0 (delay + jitter))))
  else ret (Qfloor delay).

(** [sleep(ms, signal)]. *)
Definition sleep (ms : Z) (signal : option AbortSignal) : M S unit :=
  fun w =>
    if aborted signal w then (Throw (newError "Aborted"), w)
    else
      let w1 := emit (EvSleep ms) w in
      match signal with
      | Some sg =>
          if abortAt sg <? clock w + Z.max 0 ms
          then (Throw (newError "Aborted"), advance (abortAt sg - clock w) w1)
          else (Ok tt, advance ms w1)
      | None => (Ok tt, advance ms w1)
      end.

Section Loop.
Context {T : Type}.
Variable operation : M S T.
Variable options : RetryOptions.

Definition config : RetryConfig := spread DEFAULT_RETRY_CONFIG (partial options).

Definition retryableP (e : Error) : bool :=
  match isRetryable options with
  | Some f => f e
  | None => isRetryableError e (retryableErrors config)
  end.

Definition totalAttempts : Z := maxRetries config + 1.

(** The body of [for (attempt = 1; attempt <= totalAttempts; attempt++)];
    [iters] counts the iterations left before the loop condition fails, and
    the code after the loop is the case [iters = 0]. *)
Fixpoint retryLoop (iters : nat) (attempt : Z) (lastError : option Error) : M S T :=
  match iters with
  | O => throw (Backoff.orDefault lastError (newError "Unknown error during retry"))
  | Datatypes.S iters' =>
    fun w =>
      if aborted (signal options) w then (Throw (newError "Operation aborted"), w)
      else
        match operation w with
        | (Ok v, w1) => (Ok v, w1)
        | (Throw lastError, w1) =>
            let isLastAttempt := attempt >=? totalAttempts in
            let shouldRetry := negb isLastAttempt && retryableP lastError in
            if negb shouldRetry then (Throw lastError, w1)
            else
              bind (calculateBackoff attempt config) (fun delayMs =>
              bind (match onRetry options with
                    | Some cb =>
                        cb (mkRetryAttempt (attempt + 1) totalAttempts delayMs (Some lastError))
                    | None => ret tt
                    end) (fun _ =>
              bind (sleep delayMs (signal options)) (fun _ =>
              retryLoop iters' (attempt + 1) (Some lastError)))) w1
        end
  end.

Definition withRetry : M S T := retryLoop (Z.to_nat totalAttempts) 1 None.

End Loop.

(** Options as a caller writes them: config fields, a user callback, a
    custom predicate and a signal. *)
Definition userOptions (p : Partial.RetryConfig) (cb : option (Callback S))
    (isR : option (Error -> bool)) (sg : option AbortSignal) : RetryOptions :=
  mkRetryOptions p (option_map invokeOnRetry cb) isR sg.

End WithState.

Arguments RetryOptions : clear implicits.

End Retry.

(* ===================================================================== *)
(** * Circuit breaker (middleware/circuit-breaker.ts) *)
(* ===================================================================== *)

Module Breaker.
Import Js Runtime.

(** 'closed' | 'open' | 'half-open' *)
Inductive CircuitState := Closed | Open | HalfOpen.

Record CircuitBreakerConfig := mkConfig {
  enabled : bool;
  failureThreshold : Z;
  failureWindow : Z;
  resetTimeout : Z;
  successThreshold : Z
}.

Definition DEFAULT_CIRCUIT_BREAKER_CONFIG : CircuitBreakerConfig :=
  mkConfig false 5 60000 30000 2.

(** The private fields of a [CircuitBreaker] object.  The object is passed
    explicitly: an operation run through the breaker cannot reach them. *)
Record CircuitBreaker := mkCircuitBreaker {
  state : CircuitState;
  failures : list Z;
  successes : Z;
  lastFailureTime : option Z;
  totalRequests : Z;
  totalFailures : Z;
  config : CircuitBreakerConfig
}.

(** [new CircuitBreaker(config)] *)
Definition create (c : CircuitBreakerConfig) : CircuitBreaker :=
  mkCircuitBreaker Closed [] 0 None 0 0 c.

Definition setState (s : CircuitState) (b : CircuitBreaker) : CircuitBreaker :=
  mkCircuitBreaker s (failures b) (successes b) (lastFailureTime b)
                   (totalRequests b) (totalFailures b) (config b).
Definition setFailures (l : list Z) (b : CircuitBreaker) : CircuitBreaker :=
  mkCircuitBreaker (state b) l (successes b) (lastFailureTime b)
                   (totalRequests b) (totalFailures b) (config b).
Definition setSuccesses (n : Z) (b : CircuitBreaker) : CircuitBreaker :=
  mkCircuitBreaker (state b) (failures b) n (lastFailureTime b)
                   (totalRequests b) (totalFailures b) (config b).
Definition setLastFailureTime (t : option Z) (b : CircuitBreaker) : CircuitBreaker :=
  mkCircuitBreaker (state b) (failures b) (successes b) t
                   (totalRequests b) (totalFailures b) (config b).
Definition setTotalRequests (n : Z) (b : CircuitBreaker) : CircuitBreaker :=
  mkCircuitBreaker (state b) (failures b) (successes b) (lastFailureTime b)
                   n (totalFailures b) (config b).
Definition setTotalFailures (n : Z) (b : CircuitBreaker) : CircuitBreaker :=
  mkCircuitBreaker (state b) (failures b) (successes b) (lastFailureTime b)
                   (totalRequests b) n (config b).

(** [cleanOldFailures()]; [now] is the reading of [Date.now()]. *)
Definition cleanOldFailures (now : Z) (b : CircuitBreaker) : CircuitBreaker :=
  let cutoff := now - failureWindow (config b) in
  setFailures (List.filter (fun time => time >? cutoff) (failures b)) b.

(** [shouldAttemptReset()].  [!this.lastFailureTime] holds for [undefined]
    and for the number 0. *)
Definition shouldAttemptReset (now : Z) (b : CircuitBreaker) : bool :=
  match lastFailureTime b with
  | None => true
  | Some t => if t =? 0 then true else now - t >=? resetTimeout (config b)
  end.

Definition onSuccess (b : CircuitBreaker) : CircuitBreaker :=
  match state b with
  | HalfOpen =>
      let b := setSuccesses (successes b + 1) b in
      if successes b >=? successThreshold (config b)
      then setSuccesses 0 (setFailures [] (setState Closed b))
      else b
  | Closed => setSuccesses 0 b
  | Open => b
  end.

Definition onFailure (now : Z) (b : CircuitBreaker) : CircuitBreaker :=
  let b := setFailures (failures b ++ [now]) b in
  let b := setLastFailureTime (Some now) b in
  let b := setTotalFailures (totalFailures b + 1) b in
  match state b with
  | HalfOpen => setSuccesses 0 (setState Open b)
  | Closed =>
      let b := cleanOldFailures now b in
      if Z.of_nat (List.length (failures b)) >=? failureThreshold (config b)
      then setState Open b
      else b
  | Open => b
  end.

(** [getState()], [isOpen()] and [isClosed()]. *)
Definition getState (b : CircuitBreaker) : CircuitState := state b.

Definition isOpen (b : CircuitBreaker) : bool :=
  match state b with Open => true | _ => false end.

Definition isClosed (b : CircuitBreaker) : bool :=
  match state b with Closed => true | _ => false end.

(** [reset()] and [trip()]. *)
Definition reset (b : CircuitBreaker) : CircuitBreaker :=
  setLastFailureTime None (setSuccesses 0 (setFailures [] (setState Closed b))).

Definition trip (now : Z) (b : CircuitBreaker) : CircuitBreaker :=
  setLastFailureTime (Some now) (setState Open b).

(** [getMetrics()]: prunes the failure log, then takes the snapshot. *)
Record CircuitBreakerMetrics := mkMetrics {
  m_state : CircuitState;
  m_failures : Z;
  m_successes : Z;
  m_lastFailureTime : option Z;
  m_totalRequests : Z;
  m_totalFailures : Z
}.

Definition getMetrics (now : Z) (b : CircuitBreaker) : CircuitBreakerMetrics * CircuitBreaker :=
  let b := cleanOldFailures now b in
  (mkMetrics (state b) (Z.of_nat (List.length (failures b))) (successes b)
             (match lastFailureTime b with
              | Some t => if t =? 0 then None else Some t
              | None => None
              end)
             (totalRequests b) (totalFailures b),
   b).

(** [execute(operation)].  The result carries the breaker after the call. *)
Definition execute {S T} (b : CircuitBreaker) (operation : M S T) (w : World S)
  : Outcome T * CircuitBreaker * World S :=
  if negb (enabled (config b)) then
    let '(r, w1) := operation w in (r, b, w1)
  else
    let b := setTotalRequests (totalRequests b + 1) b in
    let b := cleanOldFailures (clock w) b in
    let gate :=
      match state b with
      | Open =>
          if shouldAttemptReset (clock w) b
          then Some (setSuccesses 0 (setState HalfOpen b))
          else None
      | _ => Some b
      end in
    match gate with
    | None => (Throw CircuitOpenError, b, w)
    | Some b =>
        match operation w with
        | (Ok result, w1) => (Ok result, onSuccess b, w1)
        | (Throw error, w1) => (Throw error, onFailure (clock w1) b, w1)
        end
    end.

End Breaker.

(* ===================================================================== *)
(** * In-memory backend: queue (packages/memory/src/queue.ts) *)
(* ===================================================================== *)

Module Memory.
Import Js.

(** The first six base-36 digits of a random draw, without trailing zeros:
    [Math.random().toString(36).substring(2, 8)]. *)
Definition digit36 (d : Z) : ascii :=
  if d <? 10 then ascii_of_nat (48 + Z.to_nat d) else ascii_of_nat (87 + Z.to_nat d).

Fixpoint digits36 (n : nat) (r : Q) : list Z :=
  match n with
  | O => []
  | Datatypes.S k =>
      let x := (r * 36)%Q in
      let d := Qfloor x in
      d :: digits36 k (x - inject_Z d)%Q
  end.

Fixpoint dropTrailingZeros (l : list Z) : list Z :=
  match l with
  | [] => []
  | d :: rest =>
      match dropTrailingZeros rest with
      | [] => if d =? 0 then [] else [d]
      | rest' => d :: rest'
      end
  end.

Definition randomSuffix (r : Q) : string :=
  string_of_list_ascii (List.map digit36 (dropTrailingZeros (digits36 6 r))).

(** [generateMessageId(sequence = 0)] of core/utils: timestamp, sequence
    and random suffix. *)
Definition generateMessageId (now : Z) (r : Q) : string :=
  (pretty now ++ "-" ++ "0" ++ "-" ++ randomSuffix r)%string.

(** [MessageHeaders]: names are unique, order is irrelevant. *)
Abbreviation MessageHeaders := (gmap string string).

Section Queue.
(** The type of message bodies. *)
Context {B : Type}.

Record StoredMessage := mkStored {
  id : string;
  body : B;
  key : option string;
  headers : MessageHeaders;
  timestamp : Z;
  deliveryAttempt : Z;
  acknowledged : bool;
  requeued : bool;
  deadLettered : bool
}.

Record MemoryQueue := mkQueue {
  messages : list StoredMessage;
  processing : gmap string StoredMessage;
  queueName : string;
  maxMessages : Z;
  maxAgeMs : Z
}.

(** [new MemoryQueue(queueName, options)] *)
Definition create (name : option string) (maxMsgs maxAge : option Z) : MemoryQueue :=
  mkQueue [] ∅ (Backoff.orDefault name "default"%string)
          (Backoff.orDefault maxMsgs 0) (Backoff.orDefault maxAge 0).

Definition setMessages (l : list StoredMessage) (q : MemoryQueue) : MemoryQueue :=
  mkQueue l (processing q) (queueName q) (maxMessages q) (maxAgeMs q).
Definition setProcessing (p : gmap string StoredMessage) (q : MemoryQueue) : MemoryQueue :=
  mkQueue (messages q) p (queueName q) (maxMessages q) (maxAgeMs q).

(** The predicate of the filter in [cleanup]. *)
Definition fresh (q : MemoryQueue) (now : Z) (msg : StoredMessage) : bool :=
  now - timestamp msg <? maxAgeMs q.

Definition cleanup (now : Z) (q : MemoryQueue) : MemoryQueue :=
  if maxAgeMs q <=? 0 then q
  else setMessages (List.filter (fresh q now) (messages q)) q.

(** [enqueue(body, { key, headers })]; [now] is the clock reading and [r]
    the random draw of the call. *)
Definition enqueue (body : B) (key : option string) (headers : option MessageHeaders)
    (now : Z) (r : Q) (q : MemoryQueue) : string * MemoryQueue :=
  let q := cleanup now q in
  let id := generateMessageId now r in
  let message :=
    mkStored id body key (Backoff.orDefault headers ∅) now 0 false false false in
  let q := setMessages (messages q ++ [message]) q in
  let q :=
    if (maxMessages q >? 0) && (Z.of_nat (List.length (messages q)) >? maxMessages q)
    then setMessages (List.tl (messages q)) q
    else q in
  (id, q).

Definition bumpAttempt (m : StoredMessage) : StoredMessage :=
  mkStored (id m) (body m) (key m) (headers m) (timestamp m)
           (deliveryAttempt m + 1) (acknowledged m) (requeued m) (deadLettered m).

Definition markRequeued (m : StoredMessage) : StoredMessage :=
  mkStored (id m) (body m) (key m) (headers m) (timestamp m)
           (deliveryAttempt m) (acknowledged m) true (deadLettered m).

(** [dequeue()] *)
Definition dequeue (now : Z) (q : MemoryQueue) : option StoredMessage * MemoryQueue :=
  let q := cleanup now q in
  match messages q with
  | [] => (None, q)
  | message :: rest =>
      let message := bumpAttempt message in
      (Some message,
       setProcessing (<[id message := message]> (processing q)) (setMessages rest q))
  end.

(** [dequeueBatch(count)]: the loop [for (i = 0; i < count; i++)]. *)
Fixpoint dequeueLoop (iters : nat) (now : Z) (q : MemoryQueue)
  : list StoredMessage * MemoryQueue :=
  match iters with
  | O => ([], q)
  | Datatypes.S k =>
      match dequeue now q with
      | (None, q1) => ([], q1)
      | (Some message, q1) =>
          let '(rest, q2) := dequeueLoop k now q1 in (message :: rest, q2)
      end
  end.

Definition dequeueBatch (count : Z) (now : Z) (q : MemoryQueue)
  : list StoredMessage * MemoryQueue :=
  dequeueLoop (Z.to_nat count) now (cleanup now q).

(** [ack(messageId)] *)
Definition ack (messageId : string) (q : MemoryQueue) : bool * MemoryQueue :=
  match processing q !! messageId with
  | None => (false, q)
  | Some _ => (true, setProcessing (delete messageId (processing q)) q)
  end.

(** [nack(messageId, requeue = true)] *)
Definition nack (messageId : string) (requeue : bool) (q : MemoryQueue)
  : bool * MemoryQueue :=
  match processing q !! messageId with
  | None => (false, q)
  | Some message =>
      let q := setProcessing (delete messageId (processing q)) q in
      (true, if requeue then setMessages (markRequeued message :: messages q) q else q)
  end.

(** [peek()] and [getAll()]: neither cleans up. *)
Definition peek (q : MemoryQueue) : option StoredMessage := List.head (messages q).
Definition getAll (q : MemoryQueue) : list StoredMessage := messages q.

Definition size (q : MemoryQueue) : Z := Z.of_nat (List.length (messages q)).
Definition processingCount (q : MemoryQueue) : Z := Z.of_nat (map_size (processing q)).
Definition isEmpty (q : MemoryQueue) : bool := size q =? 0.
Definition clear (q : MemoryQueue) : MemoryQueue := setProcessing ∅ (setMessages [] q).

(** ** Queue objects and the registry (registry.ts)

    Producers and consumers hold references to queue objects; the registry
    maps names to references.  A source queue and its dead-letter queue may
    be one object. *)

Definition Ref : Type := nat.

Record Store := mkStore {
  heap : gmap Ref MemoryQueue;
  queues : gmap string Ref;         (* the module-level [queues] map *)
  nextRef : Ref
}.

Definition emptyStore : Store := mkStore ∅ ∅ 0%nat.

Definition getQueue (name : string) (st : Store) : option Ref := queues st !! name.

Definition alloc (q : MemoryQueue) (st : Store) : Ref * Store :=
  (nextRef st, mkStore (<[nextRef st := q]> (heap st)) (queues st) (Datatypes.S (nextRef st))).

Definition registerQueue (name : string) (ref : Ref) (st : Store) : Store :=
  mkStore (heap st) (<[name := ref]> (queues st)) (nextRef st).

Definition update (ref : Ref) (q : MemoryQueue) (st : Store) : Store :=
  mkStore (<[ref := q]> (heap st)) (queues st) (nextRef st).

(** [unregisterQueue(name)]: whether the name was registered. *)
Definition unregisterQueue (name : string) (st : Store) : bool * Store :=
  (match queues st !! name with Some _ => true | None => false end,
   mkStore (heap st) (delete name (queues st)) (nextRef st)).

(** [clearAllQueues()]: every registered queue object is cleared, then the
    registry is emptied.  The objects stay on the heap: whoever holds a
    reference still reaches them. *)
Definition clearAllQueues (st : Store) : Store :=
  mkStore (map_fold (fun _ ref h => alter clear ref h) (heap st) (queues st))
          ∅ (nextRef st).

(** [getQueueStats()] *)
Definition getQueueStats (st : Store) : gmap string (Z * Z) :=
  omap (fun ref => (fun q => (size q, processingCount q)) <$> heap st !! ref) (queues st).

(** Calling a method of the queue object behind [ref]. *)
Definition call {A} (ref : Ref) (method : MemoryQueue -> A * MemoryQueue) (st : Store)
  : option A * Store :=
  match heap st !! ref with
  | Some q => let '(a, q1) := method q in (Some a, update ref q1 st)
  | None => (None, st)
  end.

(** [deadLetter(messageId, dlq, error)], called on the object behind
    [self]; it reads the clock twice and draws one random number. *)
Definition deadLetter (self : Ref) (messageId : string) (dlq : Ref)
    (error : option Error) (now : Z) (r : Q) (st : Store) : bool * Store :=
  match heap st !! self with
  | None => (false, st)
  | Some q =>
      match processing q !! messageId with
      | None => (false, st)
      | Some message =>
          let st := update self (setProcessing (delete messageId (processing q)) q) st in
          let dlqHeaders : MessageHeaders :=
            <["x-delivery-attempts"%string := pretty (deliveryAttempt message)]>
            (<["x-death-time"%string := toISOString now]>
            (<["x-death-reason"%string :=
                 match error with
                 | Some e => Js.message e
                 | None => "max retries exceeded"%string
                 end]>
            (<["x-original-queue"%string := queueName q]> (headers message)))) in
          (true,
           snd (call dlq (enqueue (body message) (key message) (Some dlqHeaders) now r) st))
      end
  end.

End Queue.

Arguments StoredMessage : clear implicits.
Arguments MemoryQueue : clear implicits.
Arguments Store : clear implicits.

End Memory.

(* ===================================================================== *)
(** * Adapter base (base/base-adapter.ts) *)
(* ===================================================================== *)

Module Adapter.
Import Js Runtime.

(** [Partial<CircuitBreakerConfig>] *)
Record PartialBreakerConfig := mkPartialBreaker {
  enabled : option bool;
  failureThreshold : option Z;
  failureWindow : option Z;
  resetTimeout : option Z;
  successThreshold : option Z
}.

Definition spreadBreaker (base : Breaker.CircuitBreakerConfig) (over : PartialBreakerConfig)
  : Breaker.CircuitBreakerConfig :=
  Breaker.mkConfig
    (Backoff.orDefault (enabled over) (Breaker.enabled base))
    (Backoff.orDefault (failureThreshold over) (Breaker.failureThreshold base))
    (Backoff.orDefault (failureWindow over) (Breaker.failureWindow base))
    (Backoff.orDefault (resetTimeout over) (Breaker.resetTimeout base))
    (Backoff.orDefault (successThreshold over) (Breaker.successThreshold base)).

(** The fields of [BaseQueueConfig] the base class reads. *)
Record BaseQueueConfig := mkBaseConfig {
  retry : option Retry.Partial.RetryConfig;
  circuitBreaker_ : option PartialBreakerConfig
}.

Record BaseAdapter := mkAdapter {
  circuitBreaker : Breaker.CircuitBreaker;
  retryConfig : Retry.RetryConfig;
  _connected : bool
}.

(** The constructor of [BaseAdapter]. *)
Definition create (config : BaseQueueConfig) : BaseAdapter :=
  mkAdapter
    (Breaker.create
       (spreadBreaker Breaker.DEFAULT_CIRCUIT_BREAKER_CONFIG
          (Backoff.orDefault (circuitBreaker_ config)
                             (mkPartialBreaker None None None None None))))
    (Retry.spread Retry.DEFAULT_RETRY_CONFIG
       (Backoff.orDefault (retry config) Retry.Partial.empty))
    false.

Definition setBreaker (b : Breaker.CircuitBreaker) (a : BaseAdapter) : BaseAdapter :=
  mkAdapter b (retryConfig a) (_connected a).
Definition setConnected (c : bool) (a : BaseAdapter) : BaseAdapter :=
  mkAdapter (circuitBreaker a) (retryConfig a) c.

(** [{ ...this.retryConfig }] seen as options of [withRetry]. *)
Definition asPartial (c : Retry.RetryConfig) : Retry.Partial.RetryConfig :=
  Retry.Partial.mk (Some (Retry.maxRetries c)) (Some (Retry.initialDelayMs c))
                   (Some (Retry.maxDelayMs c)) (Some (Retry.multiplier c))
                   (Some (Retry.jitter c)) (Retry.retryableErrors c).

(** The options [executeWithResilience] passes to [withRetry]: the adapter's
    retry configuration and an [onRetry] that logs a warning. *)
Definition resilienceOptions {S} (a : BaseAdapter) (operationName : string)
  : Retry.RetryOptions S :=
  Retry.mkRetryOptions
    (asPartial (retryConfig a))
    (Some (fun attempt => log LWarn ("Retrying " ++ operationName)%string (Some attempt)))
    None None.

(** [executeWithResilience(operation, operationName)] *)
Definition executeWithResilience {S T} (a : BaseAdapter) (operation : M S T)
    (operationName : string) (w : World S) : Outcome T * BaseAdapter * World S :=
  let '(r, b, w1) :=
    Breaker.execute (circuitBreaker a)
      (Retry.withRetry operation (resilienceOptions a operationName)) w in
  (r, setBreaker b a, w1).

End Adapter.

(* ===================================================================== *)
(** * In-memory backend: producer and consumer *)
(* ===================================================================== *)

Module MemoryAdapters.
Import Js Runtime Memory.

Record DeadLetterConfig := mkDeadLetterConfig {
  enabled : bool;
  destination : option string;
  maxDeliveryAttempts : option Z;
  includeError : bool
}.

Record MemoryQueueConfig := mkMemoryConfig {
  base : Adapter.BaseQueueConfig;
  queueName : option string;
  maxMessages : option Z;
  maxAgeMs : option Z;
  deadLetterQueue : option DeadLetterConfig
}.

Section Adapters.
Context {B : Type}.

(** Get or create the queue registered under [name]
    ([getQueue] / [new MemoryQueue] / [registerQueue]). *)
Definition getOrCreate (name : string) (maxMsgs maxAge : option Z) (st : Store B)
  : Ref * Store B :=
  match getQueue name st with
  | Some ref => (ref, st)
  | None =>
      let '(ref, st1) := alloc (Memory.create (Some name) maxMsgs maxAge) st in
      (ref, registerQueue name ref st1)
  end.

(** ** Producer (producer.ts) *)

Record MemoryProducer := mkProducer {
  p_adapter : Adapter.BaseAdapter;
  p_config : MemoryQueueConfig;
  p_queue : option Ref;
  p_queueName : string
}.

Definition newProducer (config : MemoryQueueConfig) : MemoryProducer :=
  mkProducer (Adapter.create (base config)) config None
             (Backoff.orDefault (queueName config) "default"%string).

Definition connectProducer (p : MemoryProducer) (st : Store B) : MemoryProducer * Store B :=
  if Adapter._connected (p_adapter p) then (p, st)
  else
    let '(ref, st1) :=
      getOrCreate (p_queueName p) (maxMessages (p_config p)) (maxAgeMs (p_config p)) st in
    (mkProducer (Adapter.setConnected true (p_adapter p)) (p_config p) (Some ref)
                (p_queueName p),
     st1).

(** The fields of [PublishOptions] the in-memory backend reads. *)
Record PublishOptions := mkPublishOptions {
  o_key : option string;
  o_headers : option MessageHeaders
}.

(** The backend send of the producer: [queue.enqueue(body, { key, headers })]
    on the queue object behind [ref]. *)
Definition send (ref : Ref) (body : B) (options : option PublishOptions)
  : M (Store B) string :=
  bind random (fun r w =>
    match call ref (enqueue body (options ≫= o_key) (options ≫= o_headers)
                            (clock w) r) (user w) with
    | (Some messageId, st) => (Ok messageId, setUser st w)
    | (None, _) => (Throw (newError "queue object missing"), w)
    end).

(** [publish(body, options)] *)
Definition publish (p : MemoryProducer) (body : B) (options : option PublishOptions)
  : M (Store B) string :=
  match p_queue p with
  | None => throw (ConnectionError "Producer not connected")
  | Some ref =>
      bind (send ref body options) (fun messageId =>
      bind (log LDebug "Message published" None) (fun _ =>
      ret messageId))
  end.

(** [disconnect()] *)
Definition disconnectProducer (p : MemoryProducer) : MemoryProducer :=
  if Adapter._connected (p_adapter p) then
    mkProducer (Adapter.setConnected false (p_adapter p)) (p_config p) None (p_queueName p)
  else p.

(** The loop of [publishBatch]: one enqueue per entry, in order. *)
Fixpoint sendAll (ref : Ref) (messages : list (B * option PublishOptions))
  : M (Store B) (list string) :=
  match messages with
  | [] => ret []
  | (body, options) :: rest =>
      bind (send ref body options) (fun messageId =>
      bind (sendAll ref rest) (fun messageIds =>
      ret (messageId :: messageIds)))
  end.

(** [publishBatch(messages)] *)
Definition publishBatch (p : MemoryProducer) (messages : list (B * option PublishOptions))
  : M (Store B) (list string) :=
  match p_queue p with
  | None => throw (ConnectionError "Producer not connected")
  | Some ref =>
      bind (sendAll ref messages) (fun messageIds =>
      bind (log LDebug "Batch published" None) (fun _ =>
      ret messageIds))
  end.

(** ** Consumer (consumer.ts) *)

Record MemoryConsumer := mkConsumer {
  c_adapter : Adapter.BaseAdapter;
  c_config : MemoryQueueConfig;
  queue : option Ref;
  dlq : option Ref;
  c_queueName : string;
  c_maxDeliveryAttempts : Z;
  running : bool;
  _paused : bool
}.

(** The constructor; it creates and registers the dead-letter queue when
    the configuration enables one. *)
Definition newConsumer (config : MemoryQueueConfig) (st : Store B)
  : MemoryConsumer * Store B :=
  let name := Backoff.orDefault (queueName config) "default"%string in
  let maxAttempts :=
    Backoff.orDefault (deadLetterQueue config ≫= maxDeliveryAttempts) 3 in
  let mk d :=
    mkConsumer (Adapter.create (base config)) config None d name maxAttempts false false in
  match deadLetterQueue config with
  | Some dl =>
      if enabled dl then
        let dlqName := Backoff.orDefault (destination dl) (name ++ "-dlq")%string in
        let '(ref, st1) := getOrCreate dlqName None None st in
        (mk (Some ref), st1)
      else (mk None, st)
  | None => (mk None, st)
  end.

Definition connectConsumer (c : MemoryConsumer) (st : Store B) : MemoryConsumer * Store B :=
  if Adapter._connected (c_adapter c) then (c, st)
  else
    let '(ref, st1) :=
      getOrCreate (c_queueName c) (maxMessages (c_config c)) (maxAgeMs (c_config c)) st in
    (mkConsumer (Adapter.setConnected true (c_adapter c)) (c_config c) (Some ref) (dlq c)
                (c_queueName c) (c_maxDeliveryAttempts c) (running c) (_paused c),
     st1).

(** [subscribe] sets [running] and starts the 10 ms polling timer. *)
Definition startRunning (c : MemoryConsumer) : MemoryConsumer :=
  mkConsumer (c_adapter c) (c_config c) (queue c) (dlq c) (c_queueName c)
             (c_maxDeliveryAttempts c) true (_paused c).

(** [subscribe] and [subscribeBatch] refuse a consumer that is not
    connected. *)
Definition subscribe (c : MemoryConsumer) : Outcome MemoryConsumer :=
  match queue c with
  | None => Throw (ConnectionError "Consumer not connected")
  | Some _ => Ok (startRunning c)
  end.

(** [disconnect()]: stops polling and drops the queue; the dead-letter
    queue is kept. *)
Definition disconnectConsumer (c : MemoryConsumer) : MemoryConsumer :=
  if Adapter._connected (c_adapter c) then
    mkConsumer (Adapter.setConnected false (c_adapter c)) (c_config c) None (dlq c)
               (c_queueName c) (c_maxDeliveryAttempts c) false (_paused c)
  else c.

(** [pause()] and [resume()] *)
Definition pause (c : MemoryConsumer) : MemoryConsumer :=
  mkConsumer (c_adapter c) (c_config c) (queue c) (dlq c) (c_queueName c)
             (c_maxDeliveryAttempts c) false true.

Definition resume (c : MemoryConsumer) : MemoryConsumer :=
  mkConsumer (c_adapter c) (c_config c) (queue c) (dlq c) (c_queueName c)
             (c_maxDeliveryAttempts c) true false.

(** The envelope handed to the handler ([createWrappedMessage]). *)
Record IMessage := mkMessage {
  m_id : string;
  m_body : B;
  m_key : option string;
  m_headers : MessageHeaders;
  m_timestamp : Z;
  m_deliveryAttempt : Z;
  m_queueName : string          (* metadata.memory.queueName *)
}.

Definition createWrappedMessage (c : MemoryConsumer) (stored : StoredMessage B) : IMessage :=
  mkMessage (id stored) (body stored) (key stored) (headers stored) (timestamp stored)
            (deliveryAttempt stored) (c_queueName c).

(** What a handler does with an envelope: the settlement calls it awaits,
    in order, then it returns or throws; [elapsed] is the time it takes. *)
Inductive Settle := Ack | Nack (requeue : bool).

Record HandlerRun := mkRun {
  settles : list Settle;
  thrown : option Error;
  elapsed : Z
}.

Definition MessageHandler : Type := IMessage -> HandlerRun.

(** What the consumer emits and logs. *)
Inductive Note :=
| EmitMessage (m : IMessage)
| EmitError (e : Error)
| Log (level : LogLevel) (msg : string) (messageId : string) (attempts : option Z).

(** [message.ack()] and [message.nack(requeue)]: the closures [onAck] and
    [onNack] of the envelope. *)
Definition settle (c : MemoryConsumer) (messageId : string) (s : Settle) (st : Store B)
  : Store B * list Note :=
  match s with
  | Ack =>
      (match queue c with
       | Some ref => snd (call ref (ack messageId) st)
       | None => st
       end,
       [Log LDebug "Message acknowledged" messageId None])
  | Nack requeue =>
      (match queue c with
       | Some ref => snd (call ref (nack messageId requeue) st)
       | None => st
       end,
       [Log LDebug "Message nacked" messageId None])
  end.

Fixpoint settleAll (c : MemoryConsumer) (messageId : string) (l : list Settle)
    (st : Store B) : Store B * list Note :=
  match l with
  | [] => (st, [])
  | s :: rest =>
      let '(st1, n1) := settle c messageId s st in
      let '(st2, n2) := settleAll c messageId rest st1 in
      (st2, n1 ++ n2)
  end.

(** One run of the [poll] closure of [subscribe]. [now] is the clock reading
    when the timer fires, [r] the random draw used if a dead-letter record
    is created. *)
Definition poll (c : MemoryConsumer) (handler : MessageHandler) (autoAck : bool)
    (now : Z) (r : Q) (st : Store B) : Store B * list Note :=
  if negb (running c) || _paused c then (st, [])
  else
    match queue c with
    | None => (st, [])
    | Some ref =>
        match call ref (dequeue now) st with
        | (Some (Some stored), st1) =>
            let message := createWrappedMessage c stored in
            let run := handler message in
            let '(st2, notes) := settleAll c (id stored) (settles run) st1 in
            let notes := EmitMessage message :: notes in
            match thrown run with
            | None =>
                if autoAck then
                  let '(st3, n) := settle c (id stored) Ack st2 in (st3, notes ++ n)
                else (st2, notes)
            | Some error =>
                let notes :=
                  notes ++ [Log LError "Error processing message" (id stored) None;
                            EmitError error] in
                match dlq c with
                | Some dlqRef =>
                    if deliveryAttempt stored >=? c_maxDeliveryAttempts c then
                      let later := now + Z.max 0 (elapsed run) in
                      (snd (deadLetter ref (id stored) dlqRef (Some error) later r st2),
                       notes ++ [Log LWarn "Message sent to DLQ" (id stored)
                                     (Some (deliveryAttempt stored))])
                    else
                      let '(st3, n) := settle c (id stored) (Nack true) st2 in
                      (st3, notes ++ n)
                | None =>
                    let '(st3, n) := settle c (id stored) (Nack true) st2 in
                    (st3, notes ++ n)
                end
            end
        | (_, st1) => (st1, [])
        end
    end.

(** ** Batch subscription *)

(** What a batch handler does: the settlement calls it awaits on the
    envelopes it was given (each named by the id of its message), in order,
    then it returns or throws. *)
Record BatchRun := mkBatchRun {
  b_settles : list (string * Settle);
  b_thrown : option Error;
  b_elapsed : Z
}.

Definition BatchMessageHandler : Type := list IMessage -> BatchRun.

(** What the batch poll emits and logs: the notes of the settlements, and
    the error line of a failed batch with its message count. *)
Inductive BatchNote :=
| OfMessage (n : Note)
| LogBatch (level : LogLevel) (msg : string) (count : Z).

Fixpoint settleEach (c : MemoryConsumer) (l : list (string * Settle)) (st : Store B)
  : Store B * list Note :=
  match l with
  | [] => (st, [])
  | (messageId, s) :: rest =>
      let '(st1, n1) := settle c messageId s st in
      let '(st2, n2) := settleEach c rest st1 in
      (st2, n1 ++ n2)
  end.

(** One run of the [poll] closure of [subscribeBatch]; [batchSize] and
    [autoAck] are the options after defaulting (10 and true). *)
Definition pollBatch (c : MemoryConsumer) (handler : BatchMessageHandler) (autoAck : bool)
    (batchSize : Z) (now : Z) (st : Store B) : Store B * list BatchNote :=
  if negb (running c) || _paused c then (st, [])
  else
    match queue c with
    | None => (st, [])
    | Some ref =>
        match call ref (dequeueBatch batchSize now) st with
        | (Some [], st1) => (st1, [])
        | (Some storedMessages, st1) =>
            let messages := List.map (createWrappedMessage c) storedMessages in
            let run := handler messages in
            let '(st2, notes) := settleEach c (b_settles run) st1 in
            match b_thrown run with
            | None =>
                if autoAck then
                  let '(st3, n) :=
                    settleEach c (List.map (fun m => (m_id m, Ack)) messages) st2 in
                  (st3, List.map OfMessage (notes ++ n))
                else (st2, List.map OfMessage notes)
            | Some error =>
                let '(st3, n) :=
                  settleEach c (List.map (fun m => (m_id m, Nack true)) messages) st2 in
                (st3,
                 List.map OfMessage notes
                 ++ [LogBatch LError "Error processing batch"
                              (Z.of_nat (List.length messages));
                     OfMessage (EmitError error)]
                 ++ List.map OfMessage n)
            end
        | (None, st1) => (st1, [])
        end
    end.

(** Successive timer ticks: each carries its clock reading and random draw. *)
Fixpoint polls (c : MemoryConsumer) (handler : MessageHandler) (autoAck : bool)
    (ticks : list (Z * Q)) (st : Store B) : Store B * list (list Note) :=
  match ticks with
  | [] => (st, [])
  | (now, r) :: rest =>
      let '(st1, n) := poll c handler autoAck now r st in
      let '(st2, ns) := polls c handler autoAck rest st1 in
      (st2, n :: ns)
  end.

End Adapters.

Arguments IMessage : clear implicits.
Arguments MessageHandler : clear implicits.
Arguments Note : clear implicits.
Arguments BatchMessageHandler : clear implicits.
Arguments BatchNote : clear implicits.

End MemoryAdapters.

(* ===================================================================== *)
(** * JSON serializer (serialization/json.ts) *)
(* ===================================================================== *)

Module Json.
Import Js.

(** The JavaScript values payloads are made of.  Objects list their own
    enumerable properties in the order the engine enumerates them (see
    [ownProperties]); property names are unique. *)
#[warnings="-register-all"]
Inductive Value :=
| VUndefined
| VNull
| VBool (b : bool)
| VNum (n : Z)                          (* a finite number; integers only *)
| VStr (s : string)
| VBigInt (n : Z)
| VDate (t : option Z)                  (* time value; [None] is Invalid Date *)
| VArr (items : list Value)
| VObj (props : list (string * Value)).

(** A JSON text, as its syntax tree. *)
#[warnings="-register-all"]
Inductive Doc :=
| JNull
| JBool (b : bool)
| JNum (n : Z)
| JStr (s : string)
| JArr (items : list Doc)
| JObj (members : list (string * Doc)).

Definition SerializationError (msg : string) : Error :=
  mkError "SerializationError" msg (Some (mkAnyQInfo "SERIALIZATION_ERROR" false)).

Definition RangeError (msg : string) : Error := mkError "RangeError" msg None.
Definition TypeError (msg : string) : Error := mkError "TypeError" msg None.

Record JsonSerializerOptions := mkOptions {
  pretty : option bool;
  replacer : option (string -> Value -> Outcome Value);
  reviver : option (string -> Value -> Outcome Value);
  handleBigInt : option bool;
  handleDates : option bool
}.

(** [new JsonSerializer()] *)
Definition defaultOptions : JsonSerializerOptions := mkOptions None None None None None.

(** [options.x !== false] *)
Definition notFalse (o : option bool) : bool :=
  match o with Some false => false | _ => true end.

(** ** Serialization *)

(** [defaultReplacer(options)] *)
Definition defaultReplacer (options : JsonSerializerOptions) (_key : string) (value : Value)
  : Outcome Value :=
  match value with
  | VBigInt n =>
      if notFalse (handleBigInt options)
      then Ok (VObj [("__type", VStr "bigint"); ("value", VStr (stdpp.pretty.pretty n))]%string)
      else Ok value
  | VDate t =>
      if notFalse (handleDates options) then
        match t with
        | Some tv => Ok (VObj [("__type", VStr "date"); ("value", VStr (toISOString tv))]%string)
        | None => Throw (RangeError "Invalid time value")
        end
      else Ok value
  | _ => Ok value
  end.

(** Step 2 of SerializeJSONProperty (ECMA-262, 25.5.2.2): if the value has a
    callable [toJSON], the value is replaced by its result before the
    replacer function sees it.  Of the values modelled only a Date has one:
    [Date.prototype.toJSON] gives the ISO string, or null for an invalid
    Date. *)
Definition toJSON (value : Value) : Value :=
  match value with
  | VDate (Some tv) => VStr (toISOString tv)
  | VDate None => VNull
  | _ => value
  end.

(** The members of an object: properties whose serialization is undefined
    are left out. *)
Fixpoint serializeMembers (f : string -> Value -> Outcome (option Doc))
    (props : list (string * Value)) : Outcome (list (string * Doc)) :=
  match props with
  | [] => Ok []
  | (k, v) :: rest =>
      match f k v with
      | Throw e => Throw e
      | Ok d =>
          match serializeMembers f rest with
          | Throw e => Throw e
          | Ok ms => Ok (match d with Some j => (k, j) :: ms | None => ms end)
          end
      end
  end.

(** The elements of an array: undefined is written as null. *)
Fixpoint serializeElements (f : string -> Value -> Outcome (option Doc))
    (index : nat) (items : list Value) : Outcome (list Doc) :=
  match items with
  | [] => Ok []
  | v :: rest =>
      match f (stdpp.pretty.pretty index) v with
      | Throw e => Throw e
      | Ok d =>
          match serializeElements f (Datatypes.S index) rest with
          | Throw e => Throw e
          | Ok ds => Ok (match d with Some j => j | None => JNull end :: ds)
          end
      end
  end.

(** SerializeJSONProperty with a replacer function; [None] is undefined.
    [stack] bounds the nesting the engine can recurse into. *)
Fixpoint serializeProperty (stack : nat) (replacerFn : string -> Value -> Outcome Value)
    (key : string) (value : Value) : Outcome (option Doc) :=
  match stack with
  | O => Throw (RangeError "Maximum call stack size exceeded")
  | Datatypes.S stack' =>
      let value := toJSON value in
      match replacerFn key value with
      | Throw e => Throw e
      | Ok value =>
          match value with
          | VUndefined => Ok None
          | VNull => Ok (Some JNull)
          | VBool b => Ok (Some (JBool b))
          | VNum n => Ok (Some (JNum n))
          | VStr s => Ok (Some (JStr s))
          | VBigInt _ => Throw (TypeError "Do not know how to serialize a BigInt")
          | VDate _ => Ok (Some (JObj []))     (* an object without own properties *)
          | VArr items =>
              match serializeElements (serializeProperty stack' replacerFn) 0 items with
              | Throw e => Throw e
              | Ok ds => Ok (Some (JArr ds))
              end
          | VObj props =>
              match serializeMembers (serializeProperty stack' replacerFn) props with
              | Throw e => Throw e
              | Ok ms => Ok (Some (JObj ms))
              end
          end
      end
  end.

(** [JSON.stringify(value, replacer)], as a syntax tree. *)
Definition stringify (stack : nat) (replacerFn : string -> Value -> Outcome Value)
    (value : Value) : Outcome (option Doc) :=
  serializeProperty stack replacerFn EmptyString value.

(** [serialize(value)]: the JSON document written, [None] when
    [JSON.stringify] returns undefined. *)
Definition serialize (stack : nat) (options : JsonSerializerOptions) (value : Value)
  : Outcome (option Doc) :=
  match stringify stack (Backoff.orDefault (replacer options) (defaultReplacer options))
                  value with
  | Ok d => Ok d
  | Throw e =>
      Throw (SerializationError ("Failed to serialize value to JSON: " ++ message e))
  end.

(** ** The text of a document (compact form) *)

Definition hexDigit (n : nat) : ascii :=
  if (n <? 10)%nat then ascii_of_nat (48 + n) else ascii_of_nat (87 + n).

Definition doubleQuote : ascii := ascii_of_nat 34.

(** QuoteJSONString, on the characters below 128. *)
Fixpoint quoteChars (s : string) : string :=
  match s with
  | EmptyString => EmptyString
  | String c r =>
      let n := nat_of_ascii c in
      (if (n =? 34)%nat then String "\" (String doubleQuote EmptyString)
       else if (n =? 92)%nat then "\\"
       else if (n =? 8)%nat then "\b"
       else if (n =? 9)%nat then "\t"
       else if (n =? 10)%nat then "\n"
       else if (n =? 12)%nat then "\f"
       else if (n =? 13)%nat then "\r"
       else if (n <? 32)%nat
            then String "\" (String "u" (String "0" (String "0"
                   (String (hexDigit (n / 16)) (String (hexDigit (n mod 16)) EmptyString)))))
       else String c EmptyString) ++ quoteChars r
  end%string.

Definition quote (s : string) : string :=
  (String doubleQuote (quoteChars s) ++ String doubleQuote EmptyString)%string.

Fixpoint joinWith (sep : string) (l : list string) : string :=
  match l with
  | [] => EmptyString
  | [x] => x
  | x :: rest => x ++ sep ++ joinWith sep rest
  end%string.

Fixpoint render (d : Doc) : string :=
  match d with
  | JNull => "null"
  | JBool true => "true"
  | JBool false => "false"
  | JNum n => stdpp.pretty.pretty n
  | JStr s => quote s
  | JArr items => "[" ++ joinWith "," (List.map render items) ++ "]"
  | JObj members =>
      "{" ++ joinWith "," (List.map (fun m => quote (fst m) ++ ":" ++ render (snd m)) members)
          ++ "}"
  end%string.

(** ** Deserialization *)

Definition isDigit (c : ascii) : bool :=
  let n := nat_of_ascii c in ((48 <=? n) && (n <=? 57))%nat.

(** [n] digits, then the rest of the input. *)
Fixpoint digits (n : nat) (l : list ascii) : option (list ascii) :=
  match n with
  | O => Some l
  | Datatypes.S k =>
      match l with
      | c :: rest => if isDigit c then digits k rest else None
      | [] => None
      end
  end.

Definition lit (c : ascii) (l : list ascii) : option (list ascii) :=
  match l with
  | x :: rest => if Ascii.eqb x c then Some rest else None
  | [] => None
  end.

(** The regular expression of [isISODateString]:
    ^\d{4}-\d{2}-\d{2}T\d{2}:\d{2}:\d{2}(\.\d{3})?Z?$ *)
Definition sequence (steps : list (list ascii -> option (list ascii))) (l : list ascii)
  : option (list ascii) :=
  fold_left (fun acc step => match acc with Some rest => step rest | None => None end)
            steps (Some l).

Definition isoDateRegex (s : string) : bool :=
  match
    sequence [digits 4; lit "-"%char; digits 2; lit "-"%char; digits 2; lit "T"%char;
              digits 2; lit ":"%char; digits 2; lit ":"%char; digits 2]
             (list_ascii_of_string s)
  with
  | None => false
  | Some rest =>
      let rest := match sequence [lit "."%char; digits 3] rest with
                  | Some r => r
                  | None => rest
                  end in
      let rest := match lit "Z"%char rest with Some r => r | None => rest end in
      match rest with [] => true | _ => false end
  end.

Fixpoint lookupProp (k : string) (props : list (string * Value)) : option Value :=
  match props with
  | [] => None
  | (k', v) :: rest => if String.eqb k' k then Some v else lookupProp k rest
  end.

(** [v === s] for a string literal [s]. *)
Definition isString (s : string) (v : Value) : bool :=
  match v with
  | VStr t => String.eqb t s
  | _ => false
  end.

(** ** Objects as [JSON.parse] builds them *)

(** The number a string of decimal digits denotes. *)
Fixpoint numeral (l : list ascii) (acc : Z) : Z :=
  match l with
  | [] => acc
  | c :: rest => numeral rest (10 * acc + Z.of_nat (nat_of_ascii c - 48))
  end.

(** An array index (ECMA-262, 6.1.7): the canonical numeric string of an
    integer from 0 to 2^32 - 2. *)
Definition arrayIndex (k : string) : option Z :=
  match list_ascii_of_string k with
  | [] => None
  | c :: rest =>
      if forallb isDigit (c :: rest)
         && (negb (Ascii.eqb c "0"%char) || match rest with [] => true | _ => false end)
      then
        let n := numeral (c :: rest) 0 in
        if n <? 2 ^ 32 - 1 then Some n else None
      else None
  end.

(** CreateDataProperty on the object under construction: a name the object
    already has keeps its place and takes the new value; a new name goes
    last. *)
Fixpoint defineProperty {A} (k : string) (x : A) (l : list (string * A))
  : list (string * A) :=
  match l with
  | [] => [(k, x)]
  | (k', x') :: rest =>
      if String.eqb k' k then (k', x) :: rest else (k', x') :: defineProperty k x rest
  end.

(** The properties created for the members of an object literal, read from
    left to right: of members with the same name the last one counts. *)
Definition created {A} (members : list (string * A)) : list (string * A) :=
  fold_left (fun acc m => defineProperty (fst m) (snd m) acc) members [].

Fixpoint insertByIndex {A} (n : Z) (m : string * A) (l : list (Z * (string * A)))
  : list (Z * (string * A)) :=
  match l with
  | [] => [(n, m)]
  | (n', m') :: rest =>
      if n <? n' then (n, m) :: (n', m') :: rest else (n', m') :: insertByIndex n m rest
  end.

(** Those of the properties whose name is an array index, by ascending
    index. *)
Fixpoint indexed {A} (props : list (string * A)) : list (Z * (string * A)) :=
  match props with
  | [] => []
  | m :: rest =>
      match arrayIndex (fst m) with
      | Some n => insertByIndex n m (indexed rest)
      | None => indexed rest
      end
  end.

Definition named {A} (m : string * A) : bool :=
  match arrayIndex (fst m) with Some _ => false | None => true end.

(** The own properties of the object [JSON.parse] builds for an object
    literal, in the order the engine enumerates them
    (OrdinaryOwnPropertyKeys, ECMA-262, 10.1.11.1): array indices first, in
    ascending order, then the other names in the order of their creation. *)
Definition ownProperties {A} (members : list (string * A)) : list (string * A) :=
  let props := created members in
  List.map snd (indexed props) ++ List.filter named props.

Section Engine.
(** The engine's [new Date(v)] (its time value, [None] for NaN) and
    [BigInt(v)]; date parsing in particular differs between engines. *)
Variable Date_new : Value -> option Z.
Variable BigInt_new : Value -> Outcome Z.

(** [isISODateString(value)] *)
Definition isISODateString (value : string) : bool :=
  isoDateRegex value &&
  match Date_new (VStr value) with Some _ => true | None => false end.

(** [defaultReviver(options)] *)
Definition defaultReviver (options : JsonSerializerOptions) (_key : string) (value : Value)
  : Outcome Value :=
  let tagged :=
    match value with
    | VObj props =>
        match lookupProp "__type" props with
        | Some tag =>
            let typedValue := Backoff.orDefault (lookupProp "value" props) VUndefined in
            if notFalse (handleBigInt options) && isString "bigint" tag then
              Some (match BigInt_new typedValue with
                    | Ok n => Ok (VBigInt n)
                    | Throw e => Throw e
                    end)
            else if notFalse (handleDates options) && isString "date" tag then
              Some (Ok (VDate (Date_new typedValue)))
            else None
        | None => None
        end
    | _ => None
    end in
  match tagged with
  | Some r => r
  | None =>
      match value with
      | VStr s =>
          if notFalse (handleDates options) && isISODateString s
          then Ok (VDate (Date_new value))
          else Ok value
      | _ => Ok value
      end
  end.

(** The properties of an object after the reviver pass, visited in order:
    a property revived to undefined is deleted, and the first reviver call
    that throws ends the pass. *)
Fixpoint collect (l : list (string * Outcome Value)) : Outcome (list (string * Value)) :=
  match l with
  | [] => Ok []
  | (k, r) :: rest =>
      match r with
      | Throw e => Throw e
      | Ok v =>
          match collect rest with
          | Throw e => Throw e
          | Ok ps => Ok (match v with VUndefined => ps | _ => (k, v) :: ps end)
          end
      end
  end.

(** [JSON.parse(text, reviver)] on the syntax tree of the text: the value
    is built first (for an object: [ownProperties] of its members, so that
    of members with the same name only the last one is ever seen), then
    InternalizeJSONProperty (ECMA-262, 25.5.1.1) revives the properties in
    enumeration order, deletes those revived to undefined, and calls the
    reviver on the value itself.  [members] pairs every member with the
    outcome of reviving it; the outcomes of the members [ownProperties]
    drops are not used. *)
Fixpoint internalize (reviverFn : string -> Value -> Outcome Value) (name : string)
    (d : Doc) {struct d} : Outcome Value :=
  match d with
  | JNull => reviverFn name VNull
  | JBool b => reviverFn name (VBool b)
  | JNum n => reviverFn name (VNum n)
  | JStr s => reviverFn name (VStr s)
  | JArr items =>
      let fix elements (index : nat) (l : list Doc) : Outcome (list Value) :=
        match l with
        | [] => Ok []
        | x :: rest =>
            match internalize reviverFn (stdpp.pretty.pretty index) x with
            | Throw e => Throw e
            | Ok v =>
                match elements (Datatypes.S index) rest with
                | Throw e => Throw e
                | Ok vs => Ok (v :: vs)
                end
            end
        end in
      match elements 0%nat items with
      | Throw e => Throw e
      | Ok vs => reviverFn name (VArr vs)
      end
  | JObj members =>
      let fix revived (l : list (string * Doc)) : list (string * Outcome Value) :=
        match l with
        | [] => []
        | (k, x) :: rest => (k, internalize reviverFn k x) :: revived rest
        end in
      match collect (ownProperties (revived members)) with
      | Throw e => Throw e
      | Ok ps => reviverFn name (VObj ps)
      end
  end.

(** [deserialize(data)] for a [data] that is the text of [doc]. *)
Definition deserialize (options : JsonSerializerOptions) (doc : Doc) : Outcome Value :=
  match internalize (Backoff.orDefault (reviver options) (defaultReviver options)) EmptyString doc with
  | Ok v => Ok v
  | Throw e => Throw (SerializationError ("Failed to deserialize JSON: " ++ message e))
  end.

End Engine.

(** ** A reference engine

    [new Date(s)] for the strings the regular expression accepts, read as
    UTC, with every field checked against its calendar range; [BigInt(v)]
    for decimal strings. *)

Definition field (from len : nat) (s : string) : Z :=
  numeral (list_ascii_of_string (String.substring from len s)) 0.

Definition isLeap (y : Z) : bool :=
  ((y mod 4 =? 0) && negb (y mod 100 =? 0)) || (y mod 400 =? 0).

Definition daysInMonth (y m : Z) : Z :=
  if m =? 2 then (if isLeap y then 29 else 28)
  else if (m =? 4) || (m =? 6) || (m =? 9) || (m =? 11) then 30 else 31.

Definition parseIso (s : string) : option Z :=
  if isoDateRegex s then
    let y := field 0 4 s in let mo := field 5 2 s in let d := field 8 2 s in
    let h := field 11 2 s in let mi := field 14 2 s in let sec := field 17 2 s in
    let ms := if (String.length s =? 23)%nat || (String.length s =? 24)%nat
              then field 20 3 s else 0 in
    if (1 <=? mo) && (mo <=? 12) && (1 <=? d) && (d <=? daysInMonth y mo)
       && (h <=? 23) && (mi <=? 59) && (sec <=? 59)
    then Some (daysFromCivil y mo d * msPerDay + h * 3600000 + mi * 60000 + sec * 1000 + ms)
    else None
  else None.

Definition referenceDate (v : Value) : option Z :=
  match v with
  | VStr s => parseIso s
  | VDate t => t
  | VNum n => Some n
  | _ => None
  end.

Definition referenceBigInt (v : Value) : Outcome Z :=
  match v with
  | VBigInt n => Ok n
  | VNum n => Ok n
  | VStr s =>
      match list_ascii_of_string s with
      | [] => Ok 0
      | "-"%char :: (c :: _) as ds =>
          if forallb isDigit ds then Ok (- numeral ds 0)
          else Throw (mkError "SyntaxError" "Cannot convert to a BigInt" None)
      | ds =>
          if forallb isDigit ds then Ok (numeral ds 0)
          else Throw (mkError "SyntaxError" "Cannot convert to a BigInt" None)
      end
  | _ => Throw (TypeError "Cannot convert to a BigInt")
  end.

End Json.

(* ===================================================================== *)
(** * Errors caught from unknown code (core/src/types/errors.ts) *)
(* ===================================================================== *)

Module Errors.
Import Js.

(** A value caught by [catch (error)]: an [Error] object, or any other
    value, given by its [String(error)]. *)
Inductive Thrown :=
| ThrownError (e : Error)
| ThrownValue (text : string).

(** [new AnyQError(message, { code, retryable })] *)
Definition AnyQError (message : string) (code : option string) (retryable : option bool)
  : Error :=
  mkError "AnyQError" message
          (Some (mkAnyQInfo (Backoff.orDefault code "ANYQ_ERROR"%string)
                            (Backoff.orDefault retryable false))).

(** [AnyQError.from(error, defaultMessage = 'Unknown error')] *)
Definition from (error : Thrown) (defaultMessage : option string) : Error :=
  match error with
  | ThrownError e =>
      match anyq e with
      | Some _ => e
      | None => AnyQError (message e) None None
      end
  | ThrownValue text =>
      AnyQError (match text with
                 | EmptyString => Backoff.orDefault defaultMessage "Unknown error"%string
                 | _ => text
                 end) None None
  end.

End Errors.

(* ===================================================================== *)
(** * Identifiers (core/src/utils/id-generator.ts) *)
(* ===================================================================== *)

Module Ids.
Import Js Runtime.

(** [x | 0]: truncation toward zero, then wrap-around to 32 bits, signed. *)
Definition toInt32 (x : Q) : Z :=
  let n := if Qle_bool 0 x then Qfloor x else Qceiling x in
  let m := n mod 2 ^ 32 in
  if m <? 2 ^ 31 then m else m - 2 ^ 32.

(** [Number.prototype.toString(radix)] of an integer. *)
Fixpoint radixDigits (fuel : nat) (radix v : Z) (acc : list ascii) : list ascii :=
  match fuel with
  | O => acc
  | Datatypes.S k =>
      let acc := Memory.digit36 (v mod radix) :: acc in
      if v / radix =? 0 then acc else radixDigits k radix (v / radix) acc
  end.

Definition toStringRadix (radix v : Z) : string :=
  let magnitude := Z.abs v in
  let ds := string_of_list_ascii
              (radixDigits (Datatypes.S (Z.to_nat (Z.log2 magnitude))) radix magnitude []) in
  if v <? 0 then String "-"%char ds else ds.

(** The callback of the fallback of [generateUUID], for the placeholder [c]
    and the draw [random] of [Math.random()]. *)
Definition uuidDigit (c : ascii) (random : Q) : string :=
  let r := toInt32 (random * 16)%Q in
  let v := if Ascii.eqb c "x"%char then r else Z.lor (Z.land r 3) 8 in
  toStringRadix 16 v.

(** [template.replace(/[xy]/g, callback)]: the callback runs once for each
    placeholder, from left to right, and each run takes the next draw. *)
Fixpoint replaceXY (template : list ascii) (rng : nat -> Q) (idx : nat) : string * nat :=
  match template with
  | [] => (EmptyString, idx)
  | c :: rest =>
      if Ascii.eqb c "x"%char || Ascii.eqb c "y"%char then
        let '(s, i) := replaceXY rest rng (Datatypes.S idx) in
        (String.append (uuidDigit c (rng idx)) s, i)
      else
        let '(s, i) := replaceXY rest rng idx in
        (String c s, i)
  end.

(** [generateUUID()]; [randomUUID] is [crypto.randomUUID] where the engine
    has it. *)
Definition generateUUID {S} (randomUUID : option (M S string)) : M S string :=
  match randomUUID with
  | Some native => native
  | None =>
      fun w =>
        let '(s, i) :=
          replaceXY (list_ascii_of_string "xxxxxxxx-xxxx-4xxx-yxxx-xxxxxxxxxxxx")
                    (rng w) (rngIdx w) in
        (Ok s, mkWorld (clock w) (rng w) i (trace w) (user w))
  end.

(** [isValidUUID(id)]:
    /^[0-9a-f]{8}-[0-9a-f]{4}-4[0-9a-f]{3}-[89ab][0-9a-f]{3}-[0-9a-f]{12}$/i *)
Definition isHex (c : ascii) : bool :=
  let n := nat_of_ascii c in
  ((48 <=? n) && (n <=? 57) || (97 <=? n) && (n <=? 102) || (65 <=? n) && (n <=? 70))%nat.

Fixpoint hexs (n : nat) (l : list ascii) : option (list ascii) :=
  match n with
  | O => Some l
  | Datatypes.S k =>
      match l with
      | c :: rest => if isHex c then hexs k rest else None
      | [] => None
      end
  end.

Definition variant (l : list ascii) : option (list ascii) :=
  match l with
  | c :: rest =>
      if existsb (Ascii.eqb c) (list_ascii_of_string "89abAB") then Some rest else None
  | [] => None
  end.

Definition isValidUUID (id : string) : bool :=
  match
    Json.sequence [hexs 8; Json.lit "-"%char; hexs 4; Json.lit "-"%char;
                   Json.lit "4"%char; hexs 3; Json.lit "-"%char;
                   variant; hexs 3; Json.lit "-"%char; hexs 12]
                  (list_ascii_of_string id)
  with
  | Some [] => true
  | _ => false
  end.

(** [generateMessageId(sequence = 0)] *)
Definition generateMessageId {S} (sequence : option Z) : M S string :=
  fun w =>
    let timestamp := clock w in
    match random w with
    | (Ok r, w1) =>
        (Ok (pretty timestamp ++ "-" ++ pretty (Backoff.orDefault sequence 0) ++ "-"
             ++ Memory.randomSuffix r)%string, w1)
    | (Throw e, w1) => (Throw e, w1)
    end.

(** The closure of [createIdGenerator('message')]: it captures the
    variable [sequence]. *)
Record MessageIdGenerator := mkMessageIdGenerator { sequence : Z }.

Definition createMessageIdGenerator : MessageIdGenerator := mkMessageIdGenerator 0.

(** [sequence++] on a Number: past 2^53 the sum is rounded back. *)
Definition increment (n : Z) : Z := if n <? 2 ^ 53 then n + 1 else n.

(** [generate()] of that closure. *)
Definition generate {S} (g : MessageIdGenerator) (w : World S)
  : Outcome string * MessageIdGenerator * World S :=
  let '(r, w1) := generateMessageId (Some (sequence g)) w in
  (r, mkMessageIdGenerator (increment (sequence g)), w1).

End Ids.

(* ===================================================================== *)
(** * Properties of the backoff engine *)
(* ===================================================================== *)

Module BackoffFacts.
Import Backoff.
Local Open Scope Q_scope.

Example exponential_schedule :
  map (fun n => exponentialBackoff n baseOptions 0) [1; 2; 3; 4; 100]%Z
  = [100; 200; 400; 800; 10000]%Z.
Proof. vm_compute. reflexivity. Qed.

Example fibonacci_schedule :
  map (fun n => fibonacciBackoff n baseOptions 0) [1; 2; 3; 4; 5]%Z
  = [100; 100; 200; 300; 500]%Z.
Proof. vm_compute. reflexivity. Qed.




(** The options after defaulting, as each strategy reads them. *)
Definition maxDelayOf (o : BackoffOptions) : Q :=
  orDefault (maxDelayMs o) DEFAULT_maxDelayMs.
Definition jitterOf (o : BackoffOptions) : bool :=
  orDefault (jitter o) DEFAULT_jitter.
Definition strategyOf (o : BackoffOptions) : BackoffStrategy :=
  orDefault (strategy o) Exponential.




End BackoffFacts.

(* ===================================================================== *)
(** * Properties of the retry engine *)
(* ===================================================================== *)

Module RetryFacts.
Import Js Runtime Retry.

(** The closures of the unit tests: the user state is the [attempts]
    counter (resp. the [retryAttempts] array). *)
Definition failing (msg : string) : Operation nat unit :=
  fun _ attempts => (Throw (newError msg), Datatypes.S attempts, 0).

Definition recordAttempt : Callback (list Z) :=
  fun info seen => (Ok tt, seen ++ [attempt info]).

Definition failingSilently (msg : string) : Operation (list Z) unit :=
  fun _ seen => (Throw (newError msg), seen, 0).

Definition world0 {S} (u : S) : World S := mkWorld 0 (fun _ => 1 # 2) 0 [] u.

Definition testConfig (retries : Z) : Partial.RetryConfig :=
  Partial.mk (Some retries) (Some 10%Q) None None None None.

(** 'should throw after max retries exhausted' *)
Example test_exhausted :
  let '(r, w) := withRetry (invoke (failing "ECONNREFUSED"))
                           (userOptions (testConfig 2) None None None) (world0 0%nat) in
  r = Throw (newError "ECONNREFUSED") /\ user w = 3%nat /\ calls (trace w) = 3%nat.
Proof. vm_compute. repeat split. Qed.

(** 'should not retry non-retryable errors' *)
Example test_non_retryable :
  let '(r, w) := withRetry (invoke (failing "Invalid input"))
                           (userOptions (testConfig 3) None (Some (fun _ => false)) None)
                           (world0 0%nat) in
  r = Throw (newError "Invalid input") /\ user w = 1%nat.
Proof. vm_compute. repeat split. Qed.

(** 'should call onRetry callback' *)
Example test_onRetry :
  let '(_, w) := withRetry (invoke (failingSilently "ETIMEDOUT"))
                           (userOptions (testConfig 2) (Some recordAttempt) None None)
                           (world0 []) in
  user w = [2; 3] /\ onRetryAttempts (trace w) = [2; 3].
Proof. vm_compute. repeat split. Qed.

Lemma calls_app (a b : list Event) : calls (a ++ b) = (calls a + calls b)%nat.
Proof. unfold calls. rewrite List.filter_app, List.length_app. reflexivity. Qed.

Lemma onRetryAttempts_app (a b : list Event) :
  onRetryAttempts (a ++ b) = onRetryAttempts a ++ onRetryAttempts b.
Proof. unfold onRetryAttempts. apply flat_map_app. Qed.

Lemma lastCallError_snoc (a : list Event) (f : option Error) :
  lastCallError (a ++ [EvCall f]) = f.
Proof.
  unfold lastCallError. rewrite flat_map_app. simpl. apply List.last_last.
Qed.

(** The events of a run in which every attempt but the last is followed by
    a retry: per step the failed call, what the onRetry callback leaves in
    the trace ([cbEvents]), and the sleep. *)
Fixpoint retryTrace (cbEvents : RetryAttempt -> list Event) (total attempt : Z)
    (steps : list (Error * Z)) : list Event :=
  match steps with
  | [] => []
  | (e, d) :: rest =>
      EvCall (Some e)
      :: cbEvents (mkRetryAttempt (attempt + 1) total d (Some e))
      ++ EvSleep d :: retryTrace cbEvents total (attempt + 1) rest
  end.

Lemma calls_retryTrace cbEvents total attempt steps :
  (forall info, calls (cbEvents info) = 0%nat) ->
  calls (retryTrace cbEvents total attempt steps) = List.length steps.
Proof.
  intros Hquiet. revert attempt.
  induction steps as [|[e d] rest IH]; intros attempt; [reflexivity|].
  simpl retryTrace. change (EvCall (Some e) :: ?l) with ([EvCall (Some e)] ++ l).
  rewrite calls_app, calls_app.
  change (EvSleep d :: ?l) with ([EvSleep d] ++ l). rewrite calls_app, IH, Hquiet.
  reflexivity.
Qed.

(** [attempt + 1, attempt + 2, ...], [n] values. *)
Fixpoint attemptsFrom (n : nat) (attempt : Z) : list Z :=
  match n with
  | O => []
  | Datatypes.S k => (attempt + 1) :: attemptsFrom k (attempt + 1)
  end.

Lemma onRetryAttempts_retryTrace total attempt steps :
  onRetryAttempts (retryTrace (fun info => [EvOnRetry info]) total attempt steps)
  = attemptsFrom (List.length steps) attempt.
Proof.
  revert attempt. induction steps as [|[e d] rest IH]; intros attempt; [reflexivity|].
  simpl. f_equal. apply IH.
Qed.

Lemma attemptsFrom_seq (n k : nat) :
  attemptsFrom n (Z.of_nat k) = List.map Z.of_nat (List.seq (k + 1) n).
Proof.
  revert k. induction n as [|n IH]; intros k; [reflexivity|].
  simpl. f_equal; [lia|].
  replace (Z.of_nat k + 1) with (Z.of_nat (k + 1)) by lia.
  rewrite IH. replace (k + 1 + 1)%nat with (Datatypes.S (k + 1)) by lia. reflexivity.
Qed.

Section Exhaustion.
Context {S T : Type}.
Variable op : Operation S T.
Variable opts : RetryOptions S.
Variable cbEvents : RetryAttempt -> list Event.

(** Every invocation fails with an error the predicate accepts. *)
Definition alwaysFailsRetryable : Prop :=
  forall now s, exists e u d,
    op now s = (Throw e, u, d) /\ retryableP opts e = true.

(** The [onRetry] step of the loop. *)
Definition runOnRetry (info : RetryAttempt) : M S unit :=
  match onRetry opts with
  | Some cb => cb info
  | None => ret tt
  end.

(** The callback returns normally and leaves [cbEvents info] in the trace. *)
Definition callbackReturns : Prop :=
  forall info w, exists w',
    runOnRetry info w = (Ok tt, w') /\ trace w' = trace w ++ cbEvents info.

(** One iteration of the loop. *)
Lemma retryLoop_step (operation : M S T) (n : nat) (attempt : Z)
    (lastError : option Error) (w : World S) :
  retryLoop operation opts (Datatypes.S n) attempt lastError w
  = if aborted (signal opts) w then (Throw (newError "Operation aborted"), w)
    else
      match operation w with
      | (Ok v, w1) => (Ok v, w1)
      | (Throw lastError, w1) =>
          if negb (negb (attempt >=? totalAttempts opts) && retryableP opts lastError)
          then (Throw lastError, w1)
          else
            bind (calculateBackoff attempt (config opts)) (fun delayMs =>
            bind (runOnRetry (mkRetryAttempt (attempt + 1) (totalAttempts opts) delayMs
                                             (Some lastError))) (fun _ =>
            bind (sleep delayMs (signal opts)) (fun _ =>
            retryLoop operation opts n (attempt + 1) (Some lastError)))) w1
      end.
Proof. reflexivity. Qed.

Lemma retryLoop_exhausts :
  signal opts = None -> alwaysFailsRetryable -> callbackReturns ->
  forall (n : nat) (attempt : Z) (lastError : option Error) (w : World S),
    attempt + Z.of_nat n = totalAttempts opts ->
    exists steps elast w',
      retryLoop (invoke op) opts (Datatypes.S n) attempt lastError w
        = (Throw elast, w')
      /\ List.length steps = n
      /\ trace w' = trace w ++ retryTrace cbEvents (totalAttempts opts) attempt steps
                            ++ [EvCall (Some elast)].
Proof.
  intros Hsig Hfail Hcb n. induction n as [|n IH]; intros attempt lastError w Hn.
  - (* the last attempt *)
    destruct (Hfail (clock w) (user w)) as (e & u & d & Hop & _).
    exists [], e. eexists. split; [|split; [reflexivity|]].
    + rewrite retryLoop_step, Hsig. cbn [aborted]. unfold invoke. rewrite Hop.
      cbn iota beta. replace (attempt >=? totalAttempts opts) with true by lia.
      reflexivity.
    + reflexivity.
  - destruct (Hfail (clock w) (user w)) as (e & u & d & Hop & Hre).
    remember (advance d (setUser u (emit (EvCall (Some e)) w))) as w1 eqn:Ew1.
    destruct (calculateBackoff (S:=S) attempt (config opts) w1) as [rd w2] eqn:Ebo.
    assert (Hbo : exists delayMs, rd = Ok delayMs /\ trace w2 = trace w1).
    { unfold calculateBackoff in Ebo. destruct (jitter (config opts)).
      - unfold bind, random, ret in Ebo. inversion Ebo; subst rd w2. eauto.
      - unfold ret in Ebo. inversion Ebo; subst rd w2. eauto. }
    destruct Hbo as (delayMs & -> & Htr2).
    set (info := mkRetryAttempt (attempt + 1) (totalAttempts opts) delayMs (Some e)).
    destruct (Hcb info w2) as (w3 & Hcbrun & Htr3).
    set (w4 := advance delayMs (emit (EvSleep delayMs) w3)).
    destruct (IH (attempt + 1) (Some e) w4 ltac:(lia))
      as (steps & elast & w' & Hrun & Hlen & Htr).
    exists ((e, delayMs) :: steps), elast, w'. split; [|split].
    + rewrite retryLoop_step, Hsig. cbn [aborted].
      unfold invoke at 1. rewrite Hop. cbn iota beta. rewrite <- Ew1.
      replace (attempt >=? totalAttempts opts) with false by lia.
      rewrite Hre. cbn [negb andb]. unfold bind at 1. rewrite Ebo.
      unfold bind at 1. fold info. rewrite Hcbrun.
      unfold bind at 1. unfold sleep. cbn [aborted]. fold w4. exact Hrun.
    + simpl. lia.
    + rewrite Htr. subst w4. cbn [trace advance emit].
      rewrite Htr3, Htr2, Ew1. cbn [trace advance setUser emit retryTrace].
      fold info. rewrite <- !app_assoc. f_equal. simpl.
      rewrite <- !app_assoc. reflexivity.
Qed.

Lemma withRetry_exhausts (w : World S) :
  signal opts = None -> 0 <= maxRetries (config opts) ->
  alwaysFailsRetryable -> callbackReturns ->
  exists steps elast w',
    withRetry (invoke op) opts w = (Throw elast, w')
    /\ Z.of_nat (List.length steps) = maxRetries (config opts)
    /\ trace w' = trace w
         ++ retryTrace cbEvents (maxRetries (config opts) + 1) 1 steps
         ++ [EvCall (Some elast)].
Proof.
  intros Hsig Hm Hfail Hcb. unfold withRetry.
  set (m := maxRetries (config opts)) in *.
  assert (Htot : totalAttempts opts = m + 1) by reflexivity.
  rewrite Htot. replace (Z.to_nat (m + 1)) with (Datatypes.S (Z.to_nat m)) by lia.
  destruct (retryLoop_exhausts Hsig Hfail Hcb (Z.to_nat m) 1 None w)
    as (steps & elast & w' & Hrun & Hlen & Htr).
  { rewrite Htot. lia. }
  exists steps, elast, w'. split; [exact Hrun|]. split; [lia|].
  rewrite Htr, Htot. reflexivity.
Qed.

End Exhaustion.

(** Options a caller passes: configuration, an optional user callback, an
    optional custom predicate, no abort signal. *)
Definition options {S} (p : Partial.RetryConfig) (cb : option (Callback S))
    (isR : option (Error -> bool)) : RetryOptions S :=
  userOptions p cb isR None.

(** The user callback, when configured, returns normally. *)
Definition userCallbackReturns {S} (cb : option (Callback S)) : Prop :=
  forall f info s, cb = Some f -> fst (f info s) = Ok tt.

Definition userEvents {S} (cb : option (Callback S)) (info : RetryAttempt) : list Event :=
  match cb with
  | Some _ => [EvOnRetry info]
  | None => []
  end.

Lemma userCallback_spec {S} p (cb : option (Callback S)) isR :
  userCallbackReturns cb -> callbackReturns (options p cb isR) (userEvents cb).
Proof.
  intros Hcb info w. unfold runOnRetry, options, userOptions. cbn [onRetry].
  destruct cb as [f|]; cbn [option_map userEvents].
  - unfold invokeOnRetry. specialize (Hcb f info (user (emit (EvOnRetry info) w)) eq_refl).
    cbn [user emit] in *. destruct (f info (user w)) as [r u']. simpl in Hcb. subst r.
    eexists. split; reflexivity.
  - exists w. split; [reflexivity|]. rewrite app_nil_r. reflexivity.
Qed.

Lemma userEvents_quiet {S} (cb : option (Callback S)) info : calls (userEvents cb info) = 0%nat.
Proof. destruct cb; reflexivity. Qed.

(** C3.  For every retry configuration with maxRetries = m >= 0 (no abort
    signal): an operation that always fails with a retryable error is
    invoked exactly m + 1 times and withRetry then rethrows the error of the
    last invocation; an operation whose first failure is not retryable is
    invoked exactly once and that error propagates. *)
Theorem retry_exhaustion {S T} (op : Operation S T) p cb isR (w : World S) :
  let opts := options p cb isR in
  let m := maxRetries (config opts) in
  0 <= m ->
  (alwaysFailsRetryable op opts -> userCallbackReturns cb ->
   exists e w',
     withRetry (invoke op) opts w = (Throw e, w')
     /\ Z.of_nat (calls (trace w')) = Z.of_nat (calls (trace w)) + (m + 1)
     /\ lastCallError (trace w') = Some e)
  /\
  (forall e u d,
     op (clock w) (user w) = (Throw e, u, d) -> retryableP opts e = false ->
     exists w',
       withRetry (invoke op) opts w = (Throw e, w')
       /\ calls (trace w') = (calls (trace w) + 1)%nat).
Proof.
  intros opts m Hm. split.
  - intros Hfail Hcb.
    destruct (withRetry_exhausts op opts (userEvents cb) w eq_refl Hm Hfail
                (userCallback_spec p cb isR Hcb))
      as (steps & e & w' & Hrun & Hlen & Htr).
    exists e, w'. split; [exact Hrun|]. split.
    + rewrite Htr, !calls_app, calls_retryTrace by apply userEvents_quiet.
      change (calls [EvCall (Some e)]) with 1%nat. unfold m. lia.
    + rewrite Htr, !app_assoc. apply lastCallError_snoc.
  - intros e u d Hop Hnr. eexists. split.
    + unfold withRetry. change (totalAttempts opts) with (m + 1).
      replace (Z.to_nat (m + 1)) with (Datatypes.S (Z.to_nat m)) by lia.
      cbn [retryLoop]. unfold opts, options at 1. cbn [aborted signal userOptions].
      unfold invoke. rewrite Hop. cbn iota beta.
      fold (options p cb isR). fold opts. rewrite Hnr, andb_false_r. reflexivity.
    + cbn [trace advance setUser emit]. rewrite calls_app. reflexivity.
Qed.

Lemma retry_exhaustion_witness :
  let op := failing "ECONNREFUSED" in
  let opts := options (testConfig 2) None None in
  (exists e w',
     withRetry (invoke op) opts (world0 0%nat) = (Throw e, w')
     /\ Z.of_nat (calls (trace w')) = 0 + (2 + 1)
     /\ lastCallError (trace w') = Some e)
  /\
  (exists w',
     withRetry (invoke (failing "Invalid input")) opts (world0 0%nat)
       = (Throw (newError "Invalid input"), w')
     /\ calls (trace w') = 1%nat).
Proof.
  split.
  - apply (proj1 (retry_exhaustion (failing "ECONNREFUSED") (testConfig 2) None None
                    (world0 0%nat) ltac:(vm_compute; discriminate))).
    + intros now s. eexists _, _, _. split; reflexivity.
    + intros f info s Hf. discriminate Hf.
  - apply (proj2 (retry_exhaustion (failing "Invalid input") (testConfig 2) None None
                    (world0 0%nat) ltac:(vm_compute; discriminate))
             (newError "Invalid input") 1%nat 0); reflexivity.
Defined.

(** C9.  Under withRetry with maxRetries = m (m >= 0, in particular m >= 1),
    an onRetry callback configured and an operation that always fails with a
    retryable error: the run is, for each of the first m attempts, the failed
    call, then onRetry, then the sleep of the delay onRetry was given, and
    finally the last failed call.  onRetry is thus invoked exactly m times,
    each time right before the sleep, and the attempt values it receives are
    2, 3, ..., m + 1. *)
Theorem onRetry_attempt_sequence {S T} (op : Operation S T) p (f : Callback S) isR
    (w : World S) :
  let opts := options p (Some f) isR in
  let m := maxRetries (config opts) in
  0 <= m ->
  alwaysFailsRetryable op opts -> userCallbackReturns (Some f) ->
  exists steps e w',
    withRetry (invoke op) opts w = (Throw e, w')
    /\ trace w' = trace w
         ++ retryTrace (fun info => [EvOnRetry info]) (m + 1) 1 steps
         ++ [EvCall (Some e)]
    /\ Z.of_nat (List.length steps) = m
    /\ onRetryAttempts (trace w')
       = onRetryAttempts (trace w) ++ List.map Z.of_nat (List.seq 2 (Z.to_nat m)).
Proof.
  intros opts m Hm Hfail Hcb.
  destruct (withRetry_exhausts op opts (userEvents (Some f)) w eq_refl Hm Hfail
              (userCallback_spec p (Some f) isR Hcb))
    as (steps & e & w' & Hrun & Hlen & Htr).
  exists steps, e, w'. repeat split; try assumption.
  rewrite Htr, !onRetryAttempts_app. cbn [userEvents].
  rewrite onRetryAttempts_retryTrace. simpl. rewrite app_nil_r. f_equal.
  change 1 with (Z.of_nat 1). rewrite attemptsFrom_seq. simpl.
  replace (Z.to_nat m) with (List.length steps) by (unfold m; lia). reflexivity.
Qed.

Lemma onRetry_attempt_sequence_witness :
  exists steps e w',
    withRetry (invoke (failingSilently "ETIMEDOUT"))
              (options (testConfig 2) (Some recordAttempt) None) (world0 [])
      = (Throw e, w')
    /\ trace w' = [] ++ retryTrace (fun info => [EvOnRetry info]) (2 + 1) 1 steps
                     ++ [EvCall (Some e)]
    /\ Z.of_nat (List.length steps) = 2
    /\ onRetryAttempts (trace w') = [] ++ [2; 3].
Proof.
  apply (onRetry_attempt_sequence (failingSilently "ETIMEDOUT") (testConfig 2)
           recordAttempt None (world0 []) ltac:(vm_compute; discriminate)).
  - intros now s. eexists _, _, _. split; reflexivity.
  - intros f info s Hf. injection Hf as <-. reflexivity.
Defined.

End RetryFacts.

(* ===================================================================== *)
(** * Properties of the circuit breaker *)
(* ===================================================================== *)

Module BreakerFacts.
Import Js Runtime Breaker.

(** An operation that fails at once, and one that succeeds. *)
Definition failOp : Operation unit unit :=
  fun _ _ => (Throw (newError "boom"), tt, 0).
Definition okOp : Operation unit unit :=
  fun _ _ => (Ok tt, tt, 0).

Definition at_ (now : Z) : World unit := mkWorld now (fun _ => 0%Q) 0 [] tt.

(** The breaker after running [op] at clock reading [now]. *)
Definition after {T} (b : CircuitBreaker) (op : Operation unit T) (now : Z) : CircuitBreaker :=
  snd (fst (execute b (invoke op) (at_ now))).

(** Scenario 5 of the specification: failureThreshold = 3,
    resetTimeout = 1000 ms. *)
Definition scenarioConfig : CircuitBreakerConfig := mkConfig true 3 60000 1000 2.

Definition tripped : CircuitBreaker :=
  after (after (after (create scenarioConfig) failOp 10) failOp 20) failOp 30.

Example scenario_circuit_open :
  state tripped = Open /\ lastFailureTime tripped = Some 30 /\
  (* the fourth call fails fast, the operation is not invoked *)
  (let '(r, _, w) := execute tripped (invoke okOp) (at_ 40) in
   r = Throw CircuitOpenError /\ calls (trace w) = 0%nat) /\
  (* after 1100 ms the next call goes half-open and runs the operation *)
  (let '(r, b, w) := execute tripped (invoke okOp) (at_ 1130) in
   r = Ok tt /\ calls (trace w) = 1%nat /\ state b = HalfOpen /\ successes b = 1).
Proof. vm_compute. repeat split. Qed.

Lemma filter_filter_same {A} (f : A -> bool) (l : list A) :
  List.filter f (List.filter f l) = List.filter f l.
Proof.
  induction l as [|x l IH]; [reflexivity|]. simpl.
  destruct (f x) eqn:E; simpl; [rewrite E, IH|]; auto.
Qed.

(** Pruning is idempotent: a snapshot taken at the same clock reading does
    not tell whether the log was pruned before. *)
Lemma getMetrics_cleanOldFailures (now : Z) (b : CircuitBreaker) :
  fst (getMetrics now (cleanOldFailures now b)) = fst (getMetrics now b).
Proof.
  unfold getMetrics, cleanOldFailures. cbn [fst state failures successes lastFailureTime
    totalRequests totalFailures config setFailures].
  rewrite filter_filter_same. reflexivity.
Qed.

(** A breaker with a 1 s failure window and a 5 s reset timeout, opened by
    failures at clock readings 100 and 200. *)
Definition shortWindow : CircuitBreakerConfig := mkConfig true 2 1000 5000 2.

Definition opened : CircuitBreaker :=
  after (after (create shortWindow) failOp 100) failOp 200.

(** C2, as stated, fails in its parenthesis: a call rejected by the open
    breaker increments the request counter and also prunes the failure log.
    Here the breaker is open with lastFailureTime = 200 and log [100; 200];
    the call at 1150 (950 ms after the last failure, reset timeout 5000 ms)
    is rejected without running the operation, and leaves the log [200]. *)
Lemma open_fail_fast_counterexample :
  state opened = Open /\ lastFailureTime opened = Some 200 /\
  failures opened = [100; 200] /\
  1150 - 200 < resetTimeout (config opened) /\
  let '(r, b, w) := execute opened (invoke okOp) (at_ 1150) in
  r = Throw CircuitOpenError /\ w = at_ 1150 /\
  failures b = [200] /\
  b <> setTotalRequests (totalRequests opened + 1) opened.
Proof.
  vm_compute. repeat split; try discriminate; intros H; discriminate H.
Qed.

Section Execute.
Context {S T : Type}.
Variable b : CircuitBreaker.
Variable operation : M S T.
Variable w : World S.

(** The breaker once [execute] has counted the request and pruned the log. *)
Definition counted : CircuitBreaker :=
  mkCircuitBreaker (state b)
    (List.filter (fun time => time >? clock w - failureWindow (config b)) (failures b))
    (successes b) (lastFailureTime b) (totalRequests b + 1) (totalFailures b) (config b).

Lemma counted_eq :
  cleanOldFailures (clock w) (setTotalRequests (totalRequests b + 1) b) = counted.
Proof. reflexivity. Qed.

(** Open, within the reset timeout: rejected. *)
Lemma execute_open_rejects (t : Z) :
  enabled (config b) = true -> state b = Open -> lastFailureTime b = Some t ->
  t <> 0 -> clock w - t < resetTimeout (config b) ->
  execute b operation w = (Throw CircuitOpenError, counted, w).
Proof.
  intros Hen Hst Hlf Ht Hlt. unfold execute. rewrite Hen. cbn [negb]. cbv zeta.
  rewrite counted_eq. cbn [state counted]. rewrite Hst.
  unfold shouldAttemptReset. cbn [lastFailureTime counted config]. rewrite Hlf.
  destruct (Z.eqb_spec t 0) as [|_]; [contradiction|].
  replace (clock w - t >=? resetTimeout (config b)) with false by lia.
  reflexivity.
Qed.

(** Open, reset timeout elapsed: half-open, and the operation runs. *)
Lemma execute_open_probes (t : Z) :
  enabled (config b) = true -> state b = Open -> lastFailureTime b = Some t ->
  clock w - t >= resetTimeout (config b) ->
  execute b operation w =
    let bh := setSuccesses 0 (setState HalfOpen counted) in
    match operation w with
    | (Ok result, w1) => (Ok result, onSuccess bh, w1)
    | (Throw error, w1) => (Throw error, onFailure (clock w1) bh, w1)
    end.
Proof.
  intros Hen Hst Hlf Hge. unfold execute. rewrite Hen. cbn [negb]. cbv zeta.
  rewrite counted_eq. cbn [state counted]. rewrite Hst.
  unfold shouldAttemptReset. cbn [lastFailureTime counted config]. rewrite Hlf.
  assert (Hgo : (if t =? 0 then true else clock w - t >=? resetTimeout (config b)) = true).
  { destruct (t =? 0); [reflexivity | lia]. }
  rewrite Hgo. reflexivity.
Qed.

(** Closed: the operation runs and its outcome is accounted. *)
Lemma execute_closed :
  enabled (config b) = true -> state b = Closed ->
  execute b operation w =
    match operation w with
    | (Ok result, w1) => (Ok result, onSuccess counted, w1)
    | (Throw error, w1) => (Throw error, onFailure (clock w1) counted, w1)
    end.
Proof.
  intros Hen Hst. unfold execute. rewrite Hen. cbn [negb]. cbv zeta.
  rewrite counted_eq. cbn [state counted]. rewrite Hst. reflexivity.
Qed.

End Execute.

(** C2 (amended).  For an enabled breaker in the open state whose
    lastFailureTime is a (non-zero) clock reading t:
    - every call made while now - t < resetTimeout throws CircuitOpenError
      without invoking the operation; the world is untouched and the breaker
      keeps its state, success counter, lastFailureTime, failure total and
      configuration, its request counter is incremented, and its failure log
      is pruned of the entries not newer than now - failureWindow;
    - a call made once now - t >= resetTimeout moves the breaker to half-open
      with the success counter reset, and does invoke the operation, whose
      outcome is returned after the success / failure accounting. *)
Theorem open_fail_fast_then_half_open {S T} (b : CircuitBreaker) (operation : M S T)
    (w : World S) (t : Z) :
  enabled (config b) = true -> state b = Open -> lastFailureTime b = Some t ->
  let pruned := List.filter (fun time => time >? clock w - failureWindow (config b))
                            (failures b) in
  let b1 := mkCircuitBreaker Open pruned (successes b) (Some t)
                             (totalRequests b + 1) (totalFailures b) (config b) in
  (t <> 0 -> clock w - t < resetTimeout (config b) ->
   execute b operation w = (Throw CircuitOpenError, b1, w))
  /\
  (clock w - t >= resetTimeout (config b) ->
   let bh := mkCircuitBreaker HalfOpen pruned 0 (Some t)
                              (totalRequests b + 1) (totalFailures b) (config b) in
   execute b operation w =
     match operation w with
     | (Ok result, w1) => (Ok result, onSuccess bh, w1)
     | (Throw error, w1) => (Throw error, onFailure (clock w1) bh, w1)
     end).
Proof.
  intros Hen Hst Hlf pruned b1.
  assert (Hb1 : counted b w = b1).
  { unfold counted, b1, pruned. rewrite Hst, Hlf. reflexivity. }
  split.
  - intros Ht Hlt. rewrite (execute_open_rejects b operation w t) by assumption.
    rewrite Hb1. reflexivity.
  - intros Hge. rewrite (execute_open_probes b operation w t) by assumption.
    cbv zeta. rewrite Hb1. reflexivity.
Qed.

Lemma open_fail_fast_then_half_open_witness :
  execute tripped (invoke okOp) (at_ 40)
    = (Throw CircuitOpenError,
       mkCircuitBreaker Open [10; 20; 30] 0 (Some 30) 4 3 scenarioConfig, at_ 40)
  /\
  execute tripped (invoke okOp) (at_ 1130)
    = (Ok tt,
       onSuccess (mkCircuitBreaker HalfOpen [10; 20; 30] 0 (Some 30) 4 3 scenarioConfig),
       mkWorld 1130 (fun _ => 0%Q) 0 [EvCall None] tt).
Proof.
  split.
  - apply (proj1 (open_fail_fast_then_half_open tripped (invoke okOp) (at_ 40) 30
                    eq_refl eq_refl eq_refl)); [discriminate | reflexivity].
  - apply (proj2 (open_fail_fast_then_half_open tripped (invoke okOp) (at_ 1130) 30
                    eq_refl eq_refl eq_refl)). discriminate.
Defined.

End BreakerFacts.

(* ===================================================================== *)
(** * Properties of the in-memory queue *)
(* ===================================================================== *)

Module MemoryFacts.
Import Js Runtime MemoryAdapters Memory.

(** One call of [enqueue]: body, key, headers, clock reading, random draw. *)
Record Enqueue (B : Type) := mkEnqueue {
  e_body : B;
  e_key : option string;
  e_headers : option MessageHeaders;
  e_now : Z;
  e_rand : Q
}.
Arguments mkEnqueue {B}.
Arguments e_body {B}.
Arguments e_key {B}.
Arguments e_headers {B}.
Arguments e_now {B}.
Arguments e_rand {B}.

Definition enqueueAll {B} (cs : list (Enqueue B)) (q : MemoryQueue B) : MemoryQueue B :=
  fold_left (fun q c => snd (enqueue (e_body c) (e_key c) (e_headers c) (e_now c) (e_rand c) q))
            cs q.

(** 'should enforce max messages limit' *)
Definition limitedQueue : MemoryQueue Z :=
  enqueueAll (List.map (fun n => mkEnqueue n None None (1000 + n) (1 # 3)) [0; 1; 2; 3; 4])
             (Memory.create (Some "limited"%string) (Some 3) None).

Example test_max_messages :
  size limitedQueue = 3 /\
  option_map body (fst (dequeue 2000 limitedQueue)) = Some 2.
Proof. vm_compute. split; reflexivity. Qed.

Section QueueLemmas.
Context {B : Type}.
Implicit Types (q : MemoryQueue B) (m : StoredMessage B).

Lemma cleanup_no_age now q : maxAgeMs q <= 0 -> cleanup now q = q.
Proof. intros H. unfold cleanup. replace (maxAgeMs q <=? 0) with true by lia. reflexivity. Qed.

Lemma tl_skipn_app {A} (n : nat) (l : list A) (x : A) :
  (n <= List.length l)%nat ->
  List.tl (skipn n l ++ [x]) = skipn (Datatypes.S n) (l ++ [x]).
Proof.
  revert l. induction n as [|n IH]; intros [|y l] Hn; simpl in *; try lia; try reflexivity.
  apply IH. lia.
Qed.

(** What one [enqueue] does to a queue without age limit. *)
Lemma enqueue_messages body key headers now r q :
  maxAgeMs q <= 0 ->
  let q' := snd (enqueue body key headers now r q) in
  maxAgeMs q' = maxAgeMs q /\ maxMessages q' = maxMessages q /\
  processing q' = processing q /\
  List.map Memory.body (messages q')
  = if (maxMessages q >? 0)
       && (Z.of_nat (Datatypes.S (List.length (messages q))) >? maxMessages q)
    then List.tl (List.map Memory.body (messages q) ++ [body])
    else List.map Memory.body (messages q) ++ [body].
Proof.
  intros Hage. unfold enqueue. rewrite (cleanup_no_age now q Hage).
  cbn [snd setMessages messages maxMessages maxAgeMs processing].
  rewrite List.length_app. cbn [List.length].
  replace (List.length (messages q) + 1)%nat with (Datatypes.S (List.length (messages q))) by lia.
  destruct ((maxMessages q >? 0)
            && (Z.of_nat (Datatypes.S (List.length (messages q))) >? maxMessages q));
    cbn [setMessages messages maxMessages maxAgeMs processing]; repeat split.
  - destruct (messages q) as [|m0 l]; [reflexivity|]. cbn [List.app List.tl List.map].
    rewrite List.map_app. reflexivity.
  - rewrite List.map_app. reflexivity.
Qed.

End QueueLemmas.

(** C7.  A queue created with maxMessages = K >= 1 (and no age limit) that
    receives any sequence of enqueues stores the bodies of the last K of
    them, in order: each enqueue beyond K drops the head.  In particular
    after K + 1 enqueues exactly K messages are stored and the oldest is
    gone. *)
Theorem overflow_eviction {B} (K : Z) (name : option string) (cs : list (Enqueue B)) :
  1 <= K ->
  let q := enqueueAll cs (Memory.create name (Some K) None) in
  List.map body (messages q)
    = skipn (List.length cs - Z.to_nat K) (List.map e_body cs)
  /\ size q = Z.min K (Z.of_nat (List.length cs))
  /\ (forall now, option_map body (fst (dequeue now q))
                  = List.head (skipn (List.length cs - Z.to_nat K) (List.map e_body cs)))
  /\ (Z.of_nat (List.length cs) = K + 1 ->
      size q = K /\ List.map body (messages q) = List.tl (List.map e_body cs)).
Proof.
  intros HK.
  assert (Hinv : let q := enqueueAll cs (Memory.create name (Some K) None) in
                 maxAgeMs q = 0 /\ maxMessages q = K /\
                 List.map body (messages q)
                 = skipn (List.length cs - Z.to_nat K) (List.map e_body cs)).
  { induction cs as [|c cs IH] using rev_ind.
    - cbn. repeat split.
    - unfold enqueueAll in *. rewrite fold_left_app. cbn [fold_left].
      cbv zeta in IH. destruct IH as (Hage & Hmax & Hbodies).
      set (q := fold_left _ cs _) in *.
      destruct (enqueue_messages (e_body c) (e_key c) (e_headers c) (e_now c) (e_rand c) q
                  ltac:(lia)) as (Hage' & Hmax' & _ & Hb').
      cbv zeta. rewrite Hage', Hmax', Hage, Hmax. repeat split.
      rewrite Hb', Hbodies, Hmax.
      assert (Hlen : List.length (messages q)
                     = (List.length cs - (List.length cs - Z.to_nat K))%nat).
      { rewrite <- (List.length_map body), Hbodies, List.length_skipn, List.length_map.
        reflexivity. }
      rewrite List.map_app, List.length_app. cbn [List.map List.length].
      destruct (Nat.le_gt_cases (Z.to_nat K) (List.length cs)) as [Hge | Hlt].
      + assert (H1 : (K >? 0) = true) by (apply Z.gtb_lt; lia).
        assert (H2 : (Z.of_nat (Datatypes.S (List.length (messages q))) >? K) = true)
          by (apply Z.gtb_lt; lia).
        rewrite H1, H2. cbn [andb].
        replace (List.length cs + 1 - Z.to_nat K)%nat
          with (Datatypes.S (List.length cs - Z.to_nat K)) by lia.
        rewrite tl_skipn_app by (rewrite List.length_map; lia). reflexivity.
      + assert (H2 : (Z.of_nat (Datatypes.S (List.length (messages q))) >? K) = false)
          by (rewrite Z.gtb_ltb; apply Z.ltb_ge; lia).
        rewrite H2, andb_false_r.
        replace (List.length cs - Z.to_nat K)%nat with 0%nat by lia.
        replace (List.length cs + 1 - Z.to_nat K)%nat with 0%nat by lia.
        reflexivity. }
  cbv zeta in *. destruct Hinv as (Hage & _ & Hbodies).
  assert (Hsize : size (enqueueAll cs (Memory.create name (Some K) None))
                  = Z.min K (Z.of_nat (List.length cs))).
  { unfold size. rewrite <- (List.length_map body), Hbodies, List.length_skipn, List.length_map.
    lia. }
  repeat split; try assumption.
  - intros now. rewrite <- Hbodies. unfold dequeue.
    rewrite cleanup_no_age by lia.
    destruct (messages (enqueueAll cs (Memory.create name (Some K) None))); reflexivity.
  - rewrite Hsize. lia.
  - rewrite Hbodies.
    replace (List.length cs - Z.to_nat K)%nat with 1%nat by lia.
    destruct (List.map e_body cs); reflexivity.
Qed.

Lemma overflow_eviction_witness :
  List.map body (messages limitedQueue) = [2; 3; 4] /\ size limitedQueue = 3 /\
  option_map body (fst (dequeue 2000 limitedQueue)) = Some 2.
Proof.
  destruct (overflow_eviction 3 (Some "limited"%string)
              (List.map (fun n => mkEnqueue n None None (1000 + n) (1 # 3)) [0; 1; 2; 3; 4])
              ltac:(lia)) as (Hbodies & Hsize & Hdeq & _).
  split; [exact Hbodies | split; [exact Hsize | exact (Hdeq 2000)]].
Defined.

(** ** Settlement *)

(** The queue method behind a settlement call of the envelope. *)
Definition applySettle {B} (messageId : string) (s : Settle) (q : MemoryQueue B)
  : bool * MemoryQueue B :=
  match s with
  | Ack => ack messageId q
  | Nack requeue => nack messageId requeue q
  end.

Lemma settled_not_in_flight {B} (messageId : string) (s : Settle) (q : MemoryQueue B) :
  processing (snd (applySettle messageId s q)) !! messageId = None.
Proof.
  destruct s as [|requeue]; unfold applySettle, ack, nack;
    destruct (processing q !! messageId) eqn:E; cbn; try exact E;
    try destruct requeue; cbn; apply lookup_delete_eq.
Qed.

Lemma settle_not_in_flight_noop {B} (messageId : string) (s : Settle) (q : MemoryQueue B) :
  processing q !! messageId = None -> applySettle messageId s q = (false, q).
Proof.
  intros E. destruct s; unfold applySettle, ack, nack; rewrite E; reflexivity.
Qed.

Lemma update_same {B} (ref : Ref) (q : MemoryQueue B) (st : Store B) :
  heap st !! ref = Some q -> update ref q st = st.
Proof.
  intros H. unfold update. rewrite insert_id by exact H. destruct st; reflexivity.
Qed.

Lemma settle_store {B} (c : MemoryConsumer) (messageId : string) (s : Settle)
    (st : Store B) :
  fst (settle c messageId s st)
  = match queue c with
    | Some ref =>
        match heap st !! ref with
        | Some q => update ref (snd (applySettle messageId s q)) st
        | None => st
        end
    | None => st
    end.
Proof.
  destruct s; cbn [settle fst applySettle]; destruct (queue c) as [ref|]; try reflexivity;
    unfold call; destruct (heap st !! ref) as [q|]; try reflexivity.
  - destruct (ack messageId q); reflexivity.
  - destruct (nack messageId requeue q); reflexivity.
Qed.

(** C5.  Settling is idempotent.  After a first [ack] or [nack] of a message
    id, any further [ack] / [nack] of that id returns false and leaves the
    queue (stored sequence and in-flight map) as the first call left it; the
    envelope's [ack()] / [nack()] closures, which forward to the queue and
    cannot throw, leave the whole store unchanged on every repeated call. *)
Theorem settle_idempotent {B} :
  (forall (q : MemoryQueue B) (messageId : string) (first again : Settle),
     let q1 := snd (applySettle messageId first q) in
     applySettle messageId again q1 = (false, q1))
  /\
  (forall (c : MemoryConsumer) (messageId : string) (first again : Settle)
          (st : Store B),
     let st1 := fst (settle c messageId first st) in
     fst (settle c messageId again st1) = st1).
Proof.
  split.
  - intros q messageId first again q1.
    apply settle_not_in_flight_noop, settled_not_in_flight.
  - intros c messageId first again st st1. subst st1.
    rewrite !settle_store. destruct (queue c) as [ref|]; [|reflexivity].
    destruct (heap st !! ref) as [q|] eqn:Hq.
    + cbn [heap update]. rewrite lookup_insert_eq.
      rewrite (settle_not_in_flight_noop messageId again)
        by apply settled_not_in_flight.
      cbn [snd]. apply update_same. cbn [heap update]. apply lookup_insert_eq.
    + rewrite Hq. reflexivity.
Qed.

(** The record [enqueue] appends stays at the tail, whatever the limits. *)
Lemma enqueue_last {B} (body : B) key hd now r (q : MemoryQueue B) :
  let q' := snd (enqueue body key hd now r q) in
  last (messages q')
  = Some (mkStored (generateMessageId now r) body key (Backoff.orDefault hd ∅) now 0
                   false false false)
  /\ processing q' = processing q.
Proof.
  unfold enqueue. cbv zeta.
  assert (Hp : processing (cleanup now q) = processing q).
  { unfold cleanup. destruct (maxAgeMs q <=? 0); reflexivity. }
  set (l := messages (cleanup now q)).
  cbn [snd setMessages messages processing maxMessages maxAgeMs queueName].
  rewrite List.length_app. cbn [List.length].
  destruct (maxMessages (cleanup now q) >? 0) eqn:Hpos; cbn [andb].
  - destruct (Z.of_nat (List.length l + 1) >? maxMessages (cleanup now q)) eqn:Hover;
      cbn [setMessages messages processing]; (split; [|exact Hp]).
    + destruct l as [|x l'].
      * cbn in Hover. apply Z.gtb_lt in Hpos, Hover. lia.
      * cbn [List.app List.tl]. apply last_snoc.
    + apply last_snoc.
  - cbn [setMessages messages processing]. split; [apply last_snoc | exact Hp].
Qed.

(** ** Dead-letter threshold *)

Lemma polls_app {B} (c : MemoryConsumer) (handler : MessageHandler B) autoAck
    (t1 t2 : list (Z * Q)) (st : Store B) :
  polls c handler autoAck (t1 ++ t2) st
  = let '(st1, n1) := polls c handler autoAck t1 st in
    let '(st2, n2) := polls c handler autoAck t2 st1 in
    (st2, n1 ++ n2).
Proof.
  revert st. induction t1 as [|[now r] t1 IH]; intros st.
  - cbn. destruct (polls c handler autoAck t2 st). reflexivity.
  - cbn [polls List.app]. destruct (poll c handler autoAck now r st) as [st1 n].
    rewrite IH. destruct (polls c handler autoAck t1 st1) as [st2 ns].
    destruct (polls c handler autoAck t2 st2). reflexivity.
Qed.

(** The warning the consumer logs when it dead-letters. *)
Definition isDeadLetterNote {B} (n : Note B) : bool :=
  match n with
  | Log LWarn msg _ _ => String.eqb msg "Message sent to DLQ"
  | _ => false
  end.

Section DeadLetterThreshold.
Context {B : Type}.
Variable c : MemoryConsumer.
Variable handler : MessageHandler B.
Variable autoAck : bool.
Variables qr dr : Ref.
(** The message under observation, as [enqueue] stored it, and the age
    limit of its queue. *)
Variable m : StoredMessage B.
Variable ageLimit : Z.
Variable qname : string.

Definition sameMessage (m' : StoredMessage B) : Prop :=
  id m' = id m /\ body m' = body m /\ key m' = key m /\ headers m' = headers m
  /\ timestamp m' = timestamp m.

(** The message has not expired at clock reading [now]. *)
Definition alive (now : Z) : Prop := ageLimit <= 0 \/ now - timestamp m < ageLimit.

(** The message is next to be dequeued and has been delivered [k] times. *)
Definition AtHead (k : Z) (st : Store B) : Prop :=
  exists q mk rest,
    heap st !! qr = Some q /\ messages q = mk :: rest /\ sameMessage mk
    /\ deliveryAttempt mk = k /\ maxAgeMs q = ageLimit /\ queueName q = qname
    /\ is_Some (heap st !! dr).

(** The handler throws on every invocation (and settles nothing itself). *)
Definition alwaysThrows : Prop :=
  forall msg, settles (handler msg) = [] /\ is_Some (thrown (handler msg)).

(** The handler was invoked with the message, reporting attempt [a]. *)
Definition dispatched (a : Z) (notes : list (Note B)) : Prop :=
  exists msg, In (EmitMessage msg) notes /\ m_id msg = id m /\ m_body msg = body m
              /\ m_deliveryAttempt msg = a.

Hypothesis Hqueue : queue c = Some qr.
Hypothesis Hdlq : dlq c = Some dr.
Hypothesis Hrunning : running c = true.
Hypothesis Hpaused : _paused c = false.
Hypothesis Hthrows : alwaysThrows.

Lemma dequeue_head (k now : Z) (st : Store B) :
  AtHead k st -> alive now ->
  exists q q2 stored,
    heap st !! qr = Some q
    /\ call qr (dequeue now) st = (Some (Some stored), update qr q2 st)
    /\ sameMessage stored /\ deliveryAttempt stored = k + 1
    /\ processing q2 = <[id stored := stored]> (processing q)
    /\ maxAgeMs q2 = ageLimit /\ queueName q2 = qname
    /\ maxMessages q2 = maxMessages q.
Proof.
  intros (q & mk & rest & Hq & Hmsgs & Hsame & Hk & Hage & Hqn & _) Halive.
  assert (Hclean : exists rest', messages (cleanup now q) = mk :: rest'
                                 /\ processing (cleanup now q) = processing q
                                 /\ maxAgeMs (cleanup now q) = maxAgeMs q
                                 /\ queueName (cleanup now q) = queueName q
                                 /\ maxMessages (cleanup now q) = maxMessages q).
  { unfold cleanup. destruct (Z.leb_spec (maxAgeMs q) 0) as [Hle | Hgt].
    - exists rest. repeat split. exact Hmsgs.
    - cbn [setMessages messages processing maxAgeMs queueName maxMessages]. rewrite Hmsgs.
      cbn [List.filter].
      assert (Hfresh : fresh q now mk = true).
      { unfold fresh. destruct Hsame as (_ & _ & _ & _ & Hts). rewrite Hts, Hage.
        destruct Halive as [H | H]; [lia|]. apply Z.ltb_lt. exact H. }
      rewrite Hfresh. eexists. repeat split. }
  destruct Hclean as (rest' & Hm' & Hp' & Ha' & Hn' & Hx').
  exists q. unfold call. rewrite Hq. unfold dequeue. rewrite Hm'.
  eexists _, (bumpAttempt mk). split; [reflexivity|]. split; [reflexivity|].
  destruct Hsame as (Hid & Hbody & Hkey & Hhd & Hts).
  cbn [bumpAttempt id body key headers timestamp deliveryAttempt setProcessing setMessages
       processing maxAgeMs queueName maxMessages].
  rewrite Hp', Ha', Hn', Hx'. repeat split; try assumption; try lia.
Qed.

(** The poll up to the point where the handler has thrown. *)
Lemma poll_failure_path (k now : Z) (r : Q) (st : Store B) :
  AtHead k st -> alive now ->
  exists q q2 stored e,
    heap st !! qr = Some q
    /\ sameMessage stored /\ deliveryAttempt stored = k + 1
    /\ processing q2 = <[id stored := stored]> (processing q)
    /\ maxAgeMs q2 = ageLimit /\ queueName q2 = qname
    /\ thrown (handler (createWrappedMessage c stored)) = Some e
    /\ poll c handler autoAck now r st
       = let st1 := update qr q2 st in
         let notes := [EmitMessage (createWrappedMessage c stored);
                       Log LError "Error processing message" (id stored) None;
                       EmitError e] in
         if deliveryAttempt stored >=? c_maxDeliveryAttempts c then
           (snd (deadLetter qr (id stored) dr (Some e)
                            (now + Z.max 0 (elapsed (handler (createWrappedMessage c stored))))
                            r st1),
            notes ++ [Log LWarn "Message sent to DLQ" (id stored)
                          (Some (deliveryAttempt stored))])
         else
           (update qr (setMessages (markRequeued stored :: messages q2)
                                   (setProcessing (delete (id stored) (processing q2)) q2))
                   st1,
            notes ++ [Log LDebug "Message nacked" (id stored) None]).
Proof.
  intros Hhead Halive.
  destruct (dequeue_head k now st Hhead Halive)
    as (q & q2 & stored & Hq & Hcall & Hsame & Hk & Hproc & Hage & Hname & _).
  destruct (Hthrows (createWrappedMessage c stored)) as [Hsettles [e He]].
  exists q, q2, stored, e. do 7 (split; [assumption|]).
  unfold poll. rewrite Hrunning, Hpaused, Hqueue, Hcall. cbn [negb orb].
  rewrite Hsettles, He, Hdlq. cbn [settleAll].
  cbv zeta. destruct (deliveryAttempt stored >=? c_maxDeliveryAttempts c); [reflexivity|].
  cbn [settle]. rewrite Hqueue. unfold call. cbn [heap update].
  rewrite lookup_insert_eq. unfold nack. rewrite Hproc, lookup_insert_eq.
  cbn [snd]. rewrite <- Hproc. reflexivity.
Qed.

Lemma dispatched_head (stored : StoredMessage B) (rest : list (Note B)) :
  sameMessage stored ->
  dispatched (deliveryAttempt stored) (EmitMessage (createWrappedMessage c stored) :: rest).
Proof.
  intros (Hid & Hbody & _). exists (createWrappedMessage c stored).
  split; [left; reflexivity|]. repeat split; assumption.
Qed.

(** Below the threshold the failure path requeues: the message is back at
    the head with one more delivery, and nothing reaches the DLQ. *)
Lemma poll_requeues (k now : Z) (r : Q) (st : Store B) :
  AtHead k st -> alive now -> k + 1 < c_maxDeliveryAttempts c ->
  exists st' notes,
    poll c handler autoAck now r st = (st', notes)
    /\ AtHead (k + 1) st'
    /\ existsb isDeadLetterNote notes = false
    /\ dispatched (k + 1) notes
    /\ (dr <> qr -> heap st' !! dr = heap st !! dr).
Proof.
  intros Hhead Halive Hlt.
  destruct (poll_failure_path k now r st Hhead Halive)
    as (q & q2 & stored & e & Hq & Hsame & Hk & Hproc & Hage & Hname & He & Hpoll).
  rewrite Hpoll. cbv zeta.
  replace (deliveryAttempt stored >=? c_maxDeliveryAttempts c) with false by lia.
  eexists _, _. split; [reflexivity|]. split; [|split; [|split]].
  - destruct Hhead as (_ & _ & _ & _ & _ & _ & _ & _ & _ & Hd).
    exists (setMessages (markRequeued stored :: messages q2)
                        (setProcessing (delete (id stored) (processing q2)) q2)),
           (markRequeued stored), (messages q2).
    cbn [heap update]. rewrite lookup_insert_eq. split; [reflexivity|].
    split; [reflexivity|]. split; [exact Hsame|]. split; [exact Hk|].
    split; [exact Hage|]. split; [exact Hname|].
    destruct (decide (dr = qr)) as [->|Hne]; [rewrite lookup_insert_eq; eauto|].
    rewrite !lookup_insert_ne by congruence. exact Hd.
  - reflexivity.
  - rewrite <- Hk. apply dispatched_head. exact Hsame.
  - intros Hne. cbn [heap update]. rewrite !lookup_insert_ne by congruence. reflexivity.
Qed.

(** At the threshold the failure path dead-letters: the DLQ receives, at its
    tail, a record with the body and key of the message and the death
    headers, and the message leaves the in-flight map of its queue. *)
Lemma poll_dead_letters (k now : Z) (r : Q) (st : Store B) :
  AtHead k st -> alive now -> c_maxDeliveryAttempts c <= k + 1 ->
  exists st' notes e msg d copy,
    poll c handler autoAck now r st = (st', notes)
    /\ dispatched (k + 1) notes
    /\ In (Log LWarn "Message sent to DLQ" (id m) (Some (k + 1))) notes
    /\ m_id msg = id m /\ m_deliveryAttempt msg = k + 1
    /\ thrown (handler msg) = Some e
    /\ heap st' !! dr = Some d
    /\ last (messages d) = Some copy
    /\ body copy = body m /\ key copy = key m /\ deliveryAttempt copy = 0
    /\ headers copy !! "x-original-queue"%string = Some qname
    /\ headers copy !! "x-death-reason"%string = Some (Js.message e)
    /\ headers copy !! "x-delivery-attempts"%string = Some (pretty (k + 1))
    /\ (forall q', heap st' !! qr = Some q' -> processing q' !! id m = None).
Proof.
  intros Hhead Halive Hge.
  destruct (poll_failure_path k now r st Hhead Halive)
    as (q & q2 & stored & e & Hq & Hsame & Hk & Hproc & Hage & Hname & He & Hpoll).
  destruct Hhead as (_ & _ & _ & _ & _ & _ & _ & _ & _ & [d0 Hd0]).
  rewrite Hpoll. cbv zeta.
  replace (deliveryAttempt stored >=? c_maxDeliveryAttempts c) with true by lia.
  destruct Hsame as (Hid & Hbody & Hkey & Hhd & Hts).
  set (later := now + Z.max 0 (elapsed (handler (createWrappedMessage c stored)))).
  set (q3 := setProcessing (delete (id stored) (processing q2)) q2).
  set (dlqHeaders :=
         <["x-delivery-attempts"%string := pretty (deliveryAttempt stored)]>
         (<["x-death-time"%string := toISOString later]>
         (<["x-death-reason"%string := Js.message e]>
         (<["x-original-queue"%string := queueName q2]> (headers stored))))).
  (* the DLQ object as the dead-letter call finds it *)
  set (dOld := if decide (dr = qr) then q3 else d0).
  assert (HdOld : heap (update qr q3 (update qr q2 st)) !! dr = Some dOld).
  { unfold dOld. cbn [heap update]. destruct (decide (dr = qr)) as [->|Hne].
    - apply lookup_insert_eq.
    - rewrite !lookup_insert_ne by congruence. exact Hd0. }
  set (dNew := snd (enqueue (body stored) (key stored) (Some dlqHeaders) later r dOld)).
  assert (Hdead :
    deadLetter qr (id stored) dr (Some e) later r (update qr q2 st)
    = (true, update dr dNew (update qr q3 (update qr q2 st)))).
  { assert (Hin : processing q2 !! id stored = Some stored)
      by (rewrite Hproc; apply lookup_insert_eq).
    unfold deadLetter. cbn [heap update]. rewrite lookup_insert_eq, Hin.
    fold q3. fold dlqHeaders. unfold call. rewrite HdOld. unfold dNew.
    destruct (enqueue (body stored) (key stored) (Some dlqHeaders) later r dOld).
    reflexivity. }
  rewrite Hdead. cbn [snd].
  destruct (enqueue_last (body stored) (key stored) (Some dlqHeaders) later r dOld)
    as [Hlast Hprocd]. fold dNew in Hlast, Hprocd.
  eexists _, _, e, (createWrappedMessage c stored), dNew, _.
  split; [reflexivity|]. split.
  { rewrite <- Hk. apply dispatched_head. repeat split; assumption. }
  split. { rewrite Hk, Hid. apply in_or_app. right. left. reflexivity. }
  split; [exact Hid|]. split; [exact Hk|]. split; [exact He|].
  split. { cbn [heap update]. apply lookup_insert_eq. }
  split; [exact Hlast|].
  cbn [body key deliveryAttempt headers Backoff.orDefault].
  split; [exact Hbody|]. split; [exact Hkey|]. split; [reflexivity|].
  unfold dlqHeaders. split; [|split; [|split]].
  - rewrite !lookup_insert_ne by discriminate. rewrite lookup_insert_eq. congruence.
  - rewrite !lookup_insert_ne by discriminate. rewrite lookup_insert_eq. reflexivity.
  - rewrite lookup_insert_eq. rewrite Hk. reflexivity.
  - intros q'. cbn [heap update]. rewrite <- Hid.
    destruct (decide (dr = qr)) as [Heq|Hne].
    + rewrite Heq, lookup_insert_eq. intros [= <-]. rewrite Hprocd.
      unfold dOld. destruct (decide (dr = qr)); [|contradiction].
      unfold q3. cbn [processing setProcessing]. apply lookup_delete_eq.
    + rewrite lookup_insert_ne by congruence. rewrite lookup_insert_eq.
      intros [= <-]. unfold q3. cbn [processing setProcessing]. apply lookup_delete_eq.
Qed.

(** Successive polls below the threshold: every one dispatches and
    requeues, none dead-letters. *)
Lemma polls_requeue_run (ticks : list (Z * Q)) :
  forall (k : Z) (st : Store B),
    AtHead k st ->
    k + Z.of_nat (List.length ticks) < c_maxDeliveryAttempts c ->
    Forall (fun t => alive (fst t)) ticks ->
    exists st' notes,
      polls c handler autoAck ticks st = (st', notes)
      /\ AtHead (k + Z.of_nat (List.length ticks)) st'
      /\ (dr <> qr -> heap st' !! dr = heap st !! dr)
      /\ List.length notes = List.length ticks
      /\ (forall (j : nat) ns, notes !! j = Some ns ->
            existsb isDeadLetterNote ns = false
            /\ dispatched (k + Z.of_nat j + 1) ns).
Proof.
  induction ticks as [|[now r] ticks IH]; intros k st Hhead Hlt Halive.
  - exists st, []. cbn [polls List.length]. rewrite Z.add_0_r.
    split; [reflexivity|]. split; [assumption|]. split; [reflexivity|].
    split; [reflexivity|]. intros j ns Hj. rewrite lookup_nil in Hj. discriminate.
  - inversion Halive as [|? ? Hnow Hrest]; subst.
    cbn [List.length] in Hlt.
    destruct (poll_requeues k now r st Hhead Hnow ltac:(lia))
      as (st1 & n1 & Hpoll & Hhead1 & Hno & Hdisp & Hdlq1).
    destruct (IH (k + 1) st1 Hhead1 ltac:(lia) Hrest)
      as (st2 & ns & Hpolls & Hhead2 & Hdlq2 & Hlen & Hnotes).
    exists st2, (n1 :: ns). cbn [polls]. rewrite Hpoll, Hpolls.
    split; [reflexivity|]. split.
    { replace (k + Z.of_nat (List.length ((now, r) :: ticks)))
        with (k + 1 + Z.of_nat (List.length ticks)) by (cbn [List.length]; lia).
      exact Hhead2. }
    split. { intros Hne. rewrite Hdlq2, Hdlq1 by exact Hne. reflexivity. }
    split. { cbn [List.length]. rewrite Hlen. reflexivity. }
    intros [|j] ns' Hj.
    + cbn in Hj. injection Hj as <-. split; [exact Hno|].
      replace (k + Z.of_nat 0 + 1) with (k + 1) by lia. exact Hdisp.
    + cbn in Hj. destruct (Hnotes j ns' Hj) as [H1 H2]. split; [exact H1|].
      replace (k + Z.of_nat (Datatypes.S j) + 1) with (k + 1 + Z.of_nat j + 1) by lia.
      exact H2.
Qed.

End DeadLetterThreshold.

(** The outcome C1 describes, for the message [m] and [N] polls. *)
Definition deadLetteredOnNth {B} (c : MemoryConsumer) (handler : MessageHandler B)
    (autoAck : bool) (qr dr : Ref) (m : StoredMessage B) (ageLimit : Z) (qname : string)
    (N : Z) (ticks : list (Z * Q)) (st : Store B) : Prop :=
  (forall n : nat, (n < List.length ticks)%nat ->
     exists stn notes,
       polls c handler autoAck (take n ticks) st = (stn, notes)
       /\ AtHead qr dr m ageLimit qname (Z.of_nat n) stn
       /\ Forall (fun ns => existsb isDeadLetterNote ns = false) notes
       /\ (dr <> qr -> heap stn !! dr = heap st !! dr))
  /\
  (exists stN notes e msg d copy,
     polls c handler autoAck ticks st = (stN, notes)
     /\ Z.of_nat (List.length notes) = N
     /\ (forall (j : nat) ns, notes !! j = Some ns ->
           dispatched m (Z.of_nat j + 1) ns
           /\ (existsb isDeadLetterNote ns = true <-> Z.of_nat j + 1 = N))
     /\ In (Log LWarn "Message sent to DLQ" (id m) (Some N)) (List.last notes [])
     /\ m_id msg = id m /\ m_deliveryAttempt msg = N /\ thrown (handler msg) = Some e
     /\ heap stN !! dr = Some d
     /\ last (messages d) = Some copy
     /\ body copy = body m /\ key copy = key m /\ deliveryAttempt copy = 0
     /\ headers copy !! "x-original-queue"%string = Some qname
     /\ headers copy !! "x-death-reason"%string = Some (Js.message e)
     /\ headers copy !! "x-delivery-attempts"%string = Some (pretty N)
     /\ (forall q', heap stN !! qr = Some q' -> processing q' !! id m = None)).

(** C1.  In-memory consumer, subscribed and not paused, DLQ configured,
    maxDeliveryAttempts = N >= 1, handler throwing on every invocation
    without having settled the message itself (a settlement the handler
    made stands, and [deadLetter] leaves a message that is no longer in
    flight alone).  A freshly published message (deliveryAttempt 0) at the
    head of the queue that does not expire is dead-lettered on exactly the
    N-th poll:
    - after any n < N polls it is back at the head with deliveryAttempt = n,
      no poll so far has dead-lettered, and a separate DLQ object is
      untouched;
    - the N polls dispatch it with deliveryAttempt 1, 2, ..., N; the N-th
      poll, and only it, logs the dead-lettering, with attempts = N; after it
      the DLQ holds at its tail a record with the body and key of the message
      and the headers x-original-queue, x-death-reason (the message of the
      thrown error) and x-delivery-attempts = N, and the message is no longer
      in flight. *)
Theorem dlq_threshold {B} (c : MemoryConsumer) (handler : MessageHandler B)
    (autoAck : bool) (qr dr : Ref) (m : StoredMessage B) (ageLimit : Z) (qname : string)
    (N : Z) (ticks : list (Z * Q)) (st : Store B) :
  queue c = Some qr -> dlq c = Some dr -> running c = true -> _paused c = false ->
  c_maxDeliveryAttempts c = N -> 1 <= N ->
  alwaysThrows handler ->
  AtHead qr dr m ageLimit qname 0 st ->
  Z.of_nat (List.length ticks) = N ->
  Forall (fun t => alive m ageLimit (fst t)) ticks ->
  deadLetteredOnNth c handler autoAck qr dr m ageLimit qname N ticks st.
Proof.
  intros Hqueue Hdlq Hrunning Hpaused HN H1 Hthrows Hhead Hlen Halive. split.
  - intros n Hn.
    destruct (polls_requeue_run c handler autoAck qr dr m ageLimit qname
                Hqueue Hdlq Hrunning Hpaused Hthrows (take n ticks) 0 st Hhead)
      as (stn & notes & Hpolls & Hheadn & Hdlqn & Hlenn & Hnotes).
    { rewrite length_take. lia. }
    { apply Forall_take. exact Halive. }
    exists stn, notes. split; [exact Hpolls|]. split.
    { rewrite length_take in Hheadn.
      replace (0 + Z.of_nat (n `min` List.length ticks)) with (Z.of_nat n) in Hheadn by lia.
      exact Hheadn. }
    split; [|exact Hdlqn].
    apply Forall_lookup. intros j ns Hj. apply (Hnotes j ns Hj).
  - destruct (List.exists_last (l := ticks)) as (pre & [now r] & ->).
    { intros ->. cbn in Hlen. lia. }
    rewrite List.length_app in Hlen. cbn [List.length] in Hlen.
    apply Forall_app in Halive. destruct Halive as [Hpre Hlast].
    inversion Hlast as [|? ? Hnow _]; subst. cbn [fst] in Hnow.
    destruct (polls_requeue_run c handler autoAck qr dr m ageLimit qname
                Hqueue Hdlq Hrunning Hpaused Hthrows pre 0 st Hhead ltac:(lia) Hpre)
      as (st1 & n1 & Hpolls & Hhead1 & _ & Hlen1 & Hnotes1).
    destruct (poll_dead_letters c handler autoAck qr dr m ageLimit qname
                Hqueue Hdlq Hrunning Hpaused Hthrows
                (0 + Z.of_nat (List.length pre)) now r st1 Hhead1 Hnow ltac:(lia))
      as (stN & nN & e & msg & d & copy & Hpoll & Hdisp & Hwarn & Hmid & Hatt
          & He & Hd & Hcopy & Hbody & Hkey & Hda & Hoq & Hreason & Hattempts & Hgone).
    replace (0 + Z.of_nat (List.length pre) + 1) with (c_maxDeliveryAttempts c) in * by lia.
    exists stN, (n1 ++ [nN]), e, msg, d, copy.
    split. { rewrite polls_app, Hpolls. cbn [polls]. rewrite Hpoll. reflexivity. }
    split. { rewrite List.length_app. cbn [List.length]. lia. }
    split.
    { intros j ns Hj. destruct (Nat.lt_ge_cases j (List.length n1)) as [Hlt | Hge].
      - rewrite lookup_app_l in Hj by exact Hlt.
        destruct (Hnotes1 j ns Hj) as [Hno Hdj]. split.
        + replace (Z.of_nat j + 1) with (0 + Z.of_nat j + 1) by lia. exact Hdj.
        + rewrite Hno. split; [discriminate | lia].
      - rewrite lookup_app_r in Hj by exact Hge.
        destruct (j - List.length n1)%nat as [|j'] eqn:Ej; [|discriminate Hj].
        cbn in Hj. injection Hj as <-.
        assert (Hj1 : Z.of_nat j + 1 = c_maxDeliveryAttempts c) by lia.
        rewrite Hj1. split; [exact Hdisp|]. split; [reflexivity|]. intros _.
        apply existsb_exists. eexists. split; [exact Hwarn|]. reflexivity. }
    split. { rewrite List.last_last. exact Hwarn. }
    repeat (split; [assumption|]). exact Hgone.
Qed.

(** Scenario 3 of the specification: DLQ with maxDeliveryAttempts = 2 and
    destination "q-dlq"; one message is published to "q"; the handler
    always throws. *)
Module Scenario.

Definition config : MemoryQueueConfig :=
  mkMemoryConfig (Adapter.mkBaseConfig None None) (Some "q"%string) None None
                 (Some (mkDeadLetterConfig true (Some "q-dlq"%string) (Some 2) true)).

Definition producerUp : MemoryProducer * Store string :=
  connectProducer (newProducer config) emptyStore.

Definition consumerUp : MemoryConsumer * Store string :=
  let '(c, st) := newConsumer config (snd producerUp) in
  let '(c, st) := connectConsumer c st in
  (startRunning c, st).

Definition published : Outcome string * World (Store string) :=
  publish (fst producerUp) "fail-me"%string None
          (mkWorld 1000 (fun _ => 1 # 3) 0 [] (snd consumerUp)).

Definition consumer : MemoryConsumer := fst consumerUp.
Definition store : Store string := user (snd published).

Definition handler : MessageHandler string :=
  fun _ => mkRun [] (Some (newError "Processing failed")) 0.

Definition stored : StoredMessage string :=
  mkStored "1000-0-c" "fail-me" None ∅ 1000 0 false false false.

Definition ticks : list (Z * Q) := [(1010, 1 # 5); (1020, 2 # 5)].

Example connected : queue consumer = Some 0%nat /\ dlq consumer = Some 1%nat.
Proof. split; reflexivity. Qed.

Example message_published :
  fst published = Ok "1000-0-c"%string /\
  (messages <$> heap store !! 0%nat) = Some [stored].
Proof. split; vm_compute; reflexivity. Qed.

(** Handlers that settle the message themselves before they throw. *)
Definition requeueThenThrow : MessageHandler string :=
  fun _ => mkRun [Nack true] (Some (newError "Processing failed")) 0.

Definition ackThenThrow : MessageHandler string :=
  fun _ => mkRun [Ack] (Some (newError "Processing failed")) 0.

Definition fourTicks : list (Z * Q) := [(1010, 1 # 5); (1020, 2 # 5); (1030, 3 # 5); (1040, 4 # 5)].

(** The delivery attempts of the dispatches, poll by poll. *)
Definition attemptsSeen (notes : list (list (Note string))) : list (list Z) :=
  List.map (flat_map (fun n => match n with
                               | EmitMessage msg => [m_deliveryAttempt msg]
                               | _ => []
                               end)) notes.

Definition dlqAfter (n : nat) : option (MemoryQueue string) :=
  heap (fst (polls consumer handler false (take n ticks) store)) !! 1%nat.

Example dlq_after_one_poll : (size <$> dlqAfter 1) = Some 0.
Proof. vm_compute. reflexivity. Qed.

Example dlq_after_two_polls :
  (size <$> dlqAfter 2) = Some 1 /\
  (List.map body <$> (messages <$> dlqAfter 2)) = Some ["fail-me"%string] /\
  (List.map (fun x => List.map (fun h => headers x !! h)
                        ["x-original-queue"; "x-death-reason"; "x-death-time";
                         "x-delivery-attempts"]%string)
     <$> (messages <$> dlqAfter 2))
  = Some [[Some "q"; Some "Processing failed"; Some "1970-01-01T00:00:01.020Z";
           Some "2"]%string].
Proof.
  split; [|split]; vm_compute; reflexivity.
Qed.

End Scenario.

(** C1, as stated, fails for a handler that settles the message before it
    throws.  With maxDeliveryAttempts = 2 and a handler that calls nack(true)
    and then throws, on every invocation, the message is dispatched with
    deliveryAttempt 1, 2, 3, 4 on four polls and is still stored after them,
    and the DLQ stays empty: on the second poll [deadLetter] finds the
    message no longer in flight and returns false.  With a handler that acks
    and then throws the message is gone after the first poll and the DLQ
    stays empty as well. *)
Lemma dlq_threshold_counterexample :
  (forall msg, is_Some (thrown (Scenario.requeueThenThrow msg)))
  /\ (forall msg, is_Some (thrown (Scenario.ackThenThrow msg)))
  /\ c_maxDeliveryAttempts Scenario.consumer = 2
  /\ dlq Scenario.consumer = Some 1%nat
  /\ (let run := polls Scenario.consumer Scenario.requeueThenThrow false
                       Scenario.fourTicks Scenario.store in
      Scenario.attemptsSeen (snd run) = [[1]; [2]; [3]; [4]]
      /\ (size <$> heap (fst run) !! 1%nat) = Some 0
      /\ (List.map id <$> (messages <$> heap (fst run) !! 0%nat))
         = Some ["1000-0-c"%string])
  /\ (let run := polls Scenario.consumer Scenario.ackThenThrow false
                       Scenario.fourTicks Scenario.store in
      Scenario.attemptsSeen (snd run) = [[1]; []; []; []]
      /\ (size <$> heap (fst run) !! 1%nat) = Some 0
      /\ (size <$> heap (fst run) !! 0%nat) = Some 0)
  /\ ~ deadLetteredOnNth Scenario.consumer Scenario.requeueThenThrow false 0%nat 1%nat
                         Scenario.stored 0 "q" 2 Scenario.ticks Scenario.store.
Proof.
  split; [intros msg; eexists; reflexivity|].
  split; [intros msg; eexists; reflexivity|].
  split; [reflexivity|]. split; [reflexivity|].
  split; [repeat split; vm_compute; reflexivity|].
  split; [repeat split; vm_compute; reflexivity|].
  intros [_ (stN & notes & e & msg & d & copy & Hpolls & _ & _ & _ & _ & _ & _ & Hd
             & Hlast & _)].
  assert (Hempty : (messages <$> heap (fst (polls Scenario.consumer Scenario.requeueThenThrow
                                              false Scenario.ticks Scenario.store))
                                  !! 1%nat) = Some [])
    by (vm_compute; reflexivity).
  rewrite Hpolls in Hempty. cbn [fst] in Hempty.
  assert (Hnone : messages <$> Some d = Some []) by (rewrite <- Hd; exact Hempty).
  injection Hnone as Hnone. rewrite Hnone in Hlast. discriminate Hlast.
Qed.

Lemma dlq_threshold_witness :
  deadLetteredOnNth Scenario.consumer Scenario.handler false 0%nat 1%nat
                    Scenario.stored 0 "q" 2 Scenario.ticks Scenario.store.
Proof.
  apply dlq_threshold; try reflexivity.
  - lia.
  - intros msg. split; [reflexivity | eexists; reflexivity].
  - exists (mkQueue [Scenario.stored] ∅ "q" 0 0), Scenario.stored, [].
    split; [vm_compute; reflexivity|]. repeat split.
    vm_compute. eexists. reflexivity.
  - repeat (constructor; [left; reflexivity|]). constructor.
Defined.

End MemoryFacts.

(* ===================================================================== *)
(** * Properties of the resilience wrapper *)
(* ===================================================================== *)

Module AdapterFacts.
Import Js Runtime Adapter MemoryAdapters Memory.

(** The wrapper's retry options are the adapter's retry configuration. *)
Lemma resilience_config {S} (a : BaseAdapter) (name : string) :
  Retry.config (resilienceOptions (S:=S) a name) = retryConfig a.
Proof.
  unfold Retry.config, resilienceOptions, asPartial, Retry.spread. cbn.
  destruct (retryConfig a) as [? ? ? ? ? [l|]]; reflexivity.
Qed.

(** What the wrapper's onRetry leaves in the trace: one warning. *)
Definition retryWarning (name : string) (info : RetryAttempt) : list Event :=
  [EvLog LWarn ("Retrying " ++ name)%string (Some info)].

Lemma resilience_callback {S} (a : BaseAdapter) (name : string) :
  RetryFacts.callbackReturns (S:=S) (resilienceOptions a name) (retryWarning name).
Proof. intros info w. eexists. split; reflexivity. Qed.

(** An enabled breaker counts every call, whatever the operation does. *)
Lemma execute_counts_request {S T} (b : Breaker.CircuitBreaker) (operation : M S T)
    (w : World S) :
  Breaker.enabled (Breaker.config b) = true ->
  Breaker.totalRequests (snd (fst (Breaker.execute b operation w)))
  = Breaker.totalRequests b + 1.
Proof.
  intros Hen. unfold Breaker.execute. rewrite Hen. cbn [negb]. cbv zeta.
  rewrite BreakerFacts.counted_eq.
  destruct (Breaker.state (BreakerFacts.counted b w)) eqn:Est.
  - destruct (operation w) as [[v|e] w1]; cbn [fst snd].
    + unfold Breaker.onSuccess. rewrite Est. reflexivity.
    + unfold Breaker.onFailure.
      cbn [Breaker.state Breaker.setFailures Breaker.setLastFailureTime
           Breaker.setTotalFailures]. rewrite Est.
      match goal with |- context [if ?c then _ else _] => destruct c end; reflexivity.
  - destruct (Breaker.shouldAttemptReset (clock w) (BreakerFacts.counted b w)).
    + destruct (operation w) as [[v|e] w1]; cbn [fst snd].
      * unfold Breaker.onSuccess. cbn [Breaker.state Breaker.setSuccesses Breaker.setState].
        match goal with |- context [if ?c then _ else _] => destruct c end; reflexivity.
      * reflexivity.
    + reflexivity.
  - destruct (operation w) as [[v|e] w1]; cbn [fst snd].
    + unfold Breaker.onSuccess. rewrite Est.
      match goal with |- context [if ?c then _ else _] => destruct c end; reflexivity.
    + unfold Breaker.onFailure.
      cbn [Breaker.state Breaker.setFailures Breaker.setLastFailureTime
           Breaker.setTotalFailures]. rewrite Est. reflexivity.
Qed.

(** A connected in-memory producer whose configuration enables the circuit
    breaker. *)
Definition breakerOn : MemoryQueueConfig :=
  mkMemoryConfig
    (mkBaseConfig None (Some (mkPartialBreaker (Some true) None None None None)))
    (Some "orders"%string) None None None.

Definition producerUp : MemoryProducer * Store string :=
  connectProducer (newProducer breakerOn) emptyStore.

Definition producer : MemoryProducer := fst producerUp.

Definition world0 : World (Store string) :=
  mkWorld 1000 (fun _ => 1 # 3) 0 [] (snd producerUp).

(** The producer, had somebody tripped its breaker at clock reading 900. *)
Definition trippedProducer : MemoryProducer :=
  mkProducer (setBreaker (Breaker.trip 900 (circuitBreaker (p_adapter producer)))
                         (p_adapter producer))
             (p_config producer) (p_queue producer) (p_queueName producer).

(** C4, as stated, fails: no adapter calls [executeWithResilience].  For the
    in-memory producer with the breaker enabled, a publish stores the
    message and leaves the breaker's request counter at 0, while the send
    routed through the wrapper is counted; so publish differs from the
    wrapper applied to any operation.  With the breaker tripped, the wrapper
    rejects the send with CircuitOpenError and publish still succeeds. *)
Lemma publish_resilience_counterexample :
  p_queue producer = Some 0%nat /\
  Breaker.enabled (Breaker.config (circuitBreaker (p_adapter producer))) = true /\
  fst (publish producer "order-1" None world0) = Ok "1000-0-c"%string /\
  Breaker.totalRequests (circuitBreaker (p_adapter producer)) = 0 /\
  (let '(r, a, _) := executeWithResilience (p_adapter producer)
                       (send 0%nat "order-1"%string None) "publish" world0 in
   r = Ok "1000-0-c"%string /\ Breaker.totalRequests (circuitBreaker a) = 1) /\
  (forall (operation : M (Store string) string) (name : string),
     executeWithResilience (p_adapter producer) operation name world0
     <> (fst (publish producer "order-1" None world0), p_adapter producer,
         snd (publish producer "order-1" None world0))) /\
  fst (publish trippedProducer "order-1" None world0) = Ok "1000-0-c"%string /\
  fst (fst (executeWithResilience (p_adapter trippedProducer)
              (send 0%nat "order-1"%string None) "publish" world0))
  = Throw CircuitOpenError.
Proof.
  split; [reflexivity|]. split; [reflexivity|]. split; [vm_compute; reflexivity|].
  split; [reflexivity|]. split; [vm_compute; split; reflexivity|].
  split; [|split; vm_compute; reflexivity].
  intros operation name Heq.
  assert (Hcount :
    Breaker.totalRequests
      (circuitBreaker (snd (fst (executeWithResilience (p_adapter producer) operation name
                                    world0)))) = 1).
  { unfold executeWithResilience.
    pose proof (execute_counts_request (circuitBreaker (p_adapter producer))
                  (Retry.withRetry operation (resilienceOptions (p_adapter producer) name))
                  world0 eq_refl) as H.
    destruct (Breaker.execute _ _ _) as [[r b] w1]. cbn [fst snd] in *.
    cbn [circuitBreaker setBreaker]. rewrite H. reflexivity. }
  rewrite Heq in Hcount. cbn [fst snd] in Hcount. discriminate Hcount.
Qed.

(** C4 (amended).  [executeWithResilience] is the circuit breaker around the
    retry engine around the operation, and the in-memory producer's publish
    does not use it:
    - publish on a connected in-memory producer is one direct enqueue on its
      queue object followed by a debug log line; it cannot fail, does not
      sleep or retry, and has no access to the breaker;
    - breaker outermost: with the breaker enabled, open and inside its reset
      timeout the wrapper throws CircuitOpenError and neither the retry
      engine nor the operation runs;
    - with the breaker disabled the wrapper is withRetry of the operation;
    - retry inside: with the breaker enabled and closed, an operation that
      always fails retryably is invoked maxRetries + 1 times, the last error
      is thrown, and the breaker records one request and one failure. *)
Theorem resilience_composition {B S T : Type} :
  (forall (p : MemoryProducer) (ref : Ref) (q : MemoryQueue B) (body : B)
          (options : option PublishOptions) (w : World (Store B)),
     p_queue p = Some ref -> heap (user w) !! ref = Some q ->
     publish p body options w
     = let '(messageId, q') :=
         enqueue body (options ≫= o_key) (options ≫= o_headers) (clock w)
                 (rng w (rngIdx w)) q in
       (Ok messageId,
        mkWorld (clock w) (rng w) (Datatypes.S (rngIdx w))
                (trace w ++ [EvLog LDebug "Message published" None])
                (update ref q' (user w))))
  /\
  (forall (a : BaseAdapter) (operation : M S T) (name : string) (w : World S) (t : Z),
     Breaker.enabled (Breaker.config (circuitBreaker a)) = true ->
     Breaker.state (circuitBreaker a) = Breaker.Open ->
     Breaker.lastFailureTime (circuitBreaker a) = Some t -> t <> 0 ->
     clock w - t < Breaker.resetTimeout (Breaker.config (circuitBreaker a)) ->
     executeWithResilience a operation name w
     = (Throw CircuitOpenError,
        setBreaker (BreakerFacts.counted (circuitBreaker a) w) a, w))
  /\
  (forall (a : BaseAdapter) (operation : M S T) (name : string) (w : World S),
     Breaker.enabled (Breaker.config (circuitBreaker a)) = false ->
     executeWithResilience a operation name w
     = let '(r, w1) := Retry.withRetry operation (resilienceOptions a name) w in
       (r, a, w1))
  /\
  (forall (a : BaseAdapter) (uop : Operation S T) (name : string) (w : World S),
     Breaker.enabled (Breaker.config (circuitBreaker a)) = true ->
     Breaker.state (circuitBreaker a) = Breaker.Closed ->
     0 <= Retry.maxRetries (retryConfig a) ->
     RetryFacts.alwaysFailsRetryable uop (resilienceOptions a name) ->
     exists e a' w',
       executeWithResilience a (invoke uop) name w = (Throw e, a', w')
       /\ Z.of_nat (calls (trace w'))
          = Z.of_nat (calls (trace w)) + (Retry.maxRetries (retryConfig a) + 1)
       /\ lastCallError (trace w') = Some e
       /\ Breaker.totalRequests (circuitBreaker a')
          = Breaker.totalRequests (circuitBreaker a) + 1
       /\ Breaker.totalFailures (circuitBreaker a')
          = Breaker.totalFailures (circuitBreaker a) + 1).
Proof.
  split; [|split; [|split]].
  - intros p ref q body options w Hq Hheap.
    unfold publish. rewrite Hq. unfold bind at 1. unfold send, bind at 1, random.
    cbn [clock user rng rngIdx trace]. unfold call. rewrite Hheap.
    destruct (enqueue body (options ≫= o_key) (options ≫= o_headers) (clock w)
                      (rng w (rngIdx w)) q) as [messageId q'].
    reflexivity.
  - intros a operation name w t Hen Hst Hlf Ht Hlt. unfold executeWithResilience.
    rewrite (BreakerFacts.execute_open_rejects (circuitBreaker a) _ w t) by assumption.
    reflexivity.
  - intros a operation name w Hdis. unfold executeWithResilience, Breaker.execute.
    rewrite Hdis. cbn [negb].
    destruct (Retry.withRetry operation (resilienceOptions a name) w) as [r w1].
    destruct a; reflexivity.
  - intros a uop name w Hen Hst Hm Hfail.
    destruct (RetryFacts.withRetry_exhausts uop (resilienceOptions a name)
                (retryWarning name) w eq_refl
                ltac:(rewrite resilience_config; exact Hm) Hfail
                (resilience_callback a name))
      as (steps & e & w' & Hrun & Hlen & Htr).
    rewrite resilience_config in Hlen, Htr.
    exists e. eexists. exists w'. split.
    + unfold executeWithResilience.
      rewrite (BreakerFacts.execute_closed (circuitBreaker a)) by assumption.
      rewrite Hrun. reflexivity.
    + split.
      { rewrite Htr, !RetryFacts.calls_app, RetryFacts.calls_retryTrace by reflexivity.
        change (calls [EvCall (Some e)]) with 1%nat. lia. }
      split. { rewrite Htr, !app_assoc. apply RetryFacts.lastCallError_snoc. }
      cbn [circuitBreaker setBreaker]. unfold Breaker.onFailure.
      cbn [Breaker.state Breaker.setFailures Breaker.setLastFailureTime
           Breaker.setTotalFailures BreakerFacts.counted].
      rewrite Hst.
      match goal with |- context [if ?c then _ else _] => destruct c end;
        split; reflexivity.
Qed.

(** An adapter with an enabled breaker and maxRetries = 2, and an operation
    that always fails with a connection reset. *)
Definition flakyAdapter : BaseAdapter :=
  Adapter.create
    (mkBaseConfig (Some (Retry.Partial.mk (Some 2) (Some 10%Q) None None (Some false) None))
                  (Some (mkPartialBreaker (Some true) None None None None))).

Definition resetting : Operation unit string :=
  fun _ _ => (Throw (newError "read ECONNRESET"), tt, 5).

Definition flakyWorld : World unit := mkWorld 1000 (fun _ => 0%Q) 0 [] tt.

Lemma resilience_composition_witness :
  (exists w', publish producer "order-1"%string None world0 = (Ok "1000-0-c"%string, w'))
  /\ fst (fst (executeWithResilience (p_adapter trippedProducer)
                 (send 0%nat "order-1"%string None) "publish" world0))
     = Throw CircuitOpenError
  /\ (exists e a' w',
        executeWithResilience flakyAdapter (invoke resetting) "publish" flakyWorld
          = (Throw e, a', w')
        /\ Z.of_nat (calls (trace w')) = 0 + (2 + 1)
        /\ lastCallError (trace w') = Some e
        /\ Breaker.totalRequests (circuitBreaker a') = 0 + 1
        /\ Breaker.totalFailures (circuitBreaker a') = 0 + 1).
Proof.
  destruct (@resilience_composition string unit string) as (Hpub & _ & _ & Hretry).
  destruct (@resilience_composition string (Store string) string) as (_ & Hopen & _ & _).
  split; [|split].
  - eexists.
    rewrite (Hpub producer 0%nat (Memory.create (Some "orders"%string) None None)
                  "order-1"%string None world0 eq_refl ltac:(vm_compute; reflexivity)).
    vm_compute. reflexivity.
  - rewrite (Hopen (p_adapter trippedProducer) (send 0%nat "order-1"%string None)
                   "publish"%string world0 900 eq_refl eq_refl eq_refl
                   ltac:(discriminate) ltac:(reflexivity)).
    reflexivity.
  - apply (Hretry flakyAdapter resetting "publish"%string flakyWorld eq_refl eq_refl
                  ltac:(vm_compute; discriminate)).
    intros now s. eexists _, _, _. split; reflexivity.
Defined.

End AdapterFacts.

(* ===================================================================== *)
(** * Properties of the JSON serializer *)
(* ===================================================================== *)

Module JsonFacts.
Import Js Json.

(** 'should handle Date with special encoding': the payload of the test. *)
Definition createdAt : Value := VObj [("createdAt"%string, VDate (Some 1705314600000))].

Example createdAt_text :
  option_map render <$> (match serialize 8 defaultOptions createdAt with
                         | Ok d => Some d
                         | Throw _ => None
                         end)
  = Some (Some ("{" ++ quote "createdAt" ++ ":" ++ quote "2024-01-15T10:30:00.000Z" ++ "}")%string).
Proof. vm_compute. reflexivity. Qed.

Example bigint_tagged :
  serialize 8 defaultOptions (VObj [("amount"%string, VBigInt 9007199254740993)])
  = Ok (Some (JObj [("amount", JObj [("__type", JStr "bigint");
                                     ("value", JStr "9007199254740993")])]%string)).
Proof. vm_compute. reflexivity. Qed.

(** The replacer never receives a Date: [toJSON] has replaced it. *)
Lemma toJSON_not_date (v : Value) (t : option Z) : toJSON v <> VDate t.
Proof. destruct v as [| | | | | |[tv|]| |]; discriminate. Qed.

(** C8.  The code does not produce the tagged encoding.  Whatever the
    options of the default replacer, a Date reached under any property name
    is written as the plain ISO string (what [Date.prototype.toJSON] returns
    before the replacer runs).  In particular, for every time value [tv] and
    property name [key], the default serializer writes { key: Date(tv) } with
    the plain string, not with { "__type": "date", "value": ... }. *)
Theorem date_written_as_plain_string (key : string) (tv : Z) (n : nat) :
  (forall options,
     serializeProperty (Datatypes.S n) (defaultReplacer options) key (VDate (Some tv))
     = Ok (Some (JStr (toISOString tv))))
  /\ serialize (Datatypes.S (Datatypes.S n)) defaultOptions (VObj [(key, VDate (Some tv))])
     = Ok (Some (JObj [(key, JStr (toISOString tv))]))
  /\ JObj [(key, JStr (toISOString tv))]
     <> JObj [(key, JObj [("__type", JStr "date"); ("value", JStr (toISOString tv))]%string)].
Proof.
  split; [reflexivity | split; [reflexivity | discriminate]].
Qed.

(** ** Revival *)

(** Induction over documents, with the hypothesis for every member. *)
Lemma Doc_nested_ind (P : Doc -> Prop) :
  P JNull -> (forall b, P (JBool b)) -> (forall n, P (JNum n)) -> (forall s, P (JStr s)) ->
  (forall items, Forall P items -> P (JArr items)) ->
  (forall members, Forall (fun m => P (snd m)) members -> P (JObj members)) ->
  forall d, P d.
Proof.
  intros Hnull Hbool Hnum Hstr Harr Hobj.
  fix IH 1. intros [| b | n | s | items | members].
  - exact Hnull.
  - apply Hbool.
  - apply Hnum.
  - apply Hstr.
  - apply Harr. induction items as [|x items IHitems]; constructor; [apply IH | exact IHitems].
  - apply Hobj. induction members as [|[k x] members IHm]; constructor;
      [apply IH | exact IHm].
Qed.

(** *** The properties of a parsed object *)

Section OwnProperties.
Context {A : Type}.

(** The member that counts for a name: the last one that has it. *)
Fixpoint lookupLast (k : string) (l : list (string * A)) : option A :=
  match l with
  | [] => None
  | (k', x) :: rest =>
      match lookupLast k rest with
      | Some y => Some y
      | None => if String.eqb k' k then Some x else None
      end
  end.

Lemma lookupLast_in (k : string) (x : A) (l : list (string * A)) :
  lookupLast k l = Some x -> In (k, x) l.
Proof.
  induction l as [|[k' x'] l IH]; cbn [lookupLast]; [discriminate|].
  destruct (lookupLast k l) as [y|].
  - intros [= ->]. right. apply IH. reflexivity.
  - destruct (String.eqb_spec k' k) as [->|_]; [|discriminate].
    intros [= ->]. left. reflexivity.
Qed.

Lemma lookupLast_none (k : string) (l : list (string * A)) :
  lookupLast k l = None -> ~ In k (List.map fst l).
Proof.
  induction l as [|[k' x'] l IH]; cbn [lookupLast List.map fst]; [intros _ []|].
  destruct (lookupLast k l) as [y|]; [discriminate|].
  destruct (String.eqb_spec k' k) as [->|Hne]; [discriminate|].
  intros _ [Heq | Hin]; [congruence | exact (IH eq_refl Hin)].
Qed.

Lemma lookupLast_unique (k : string) (x : A) (l : list (string * A)) :
  List.NoDup (List.map fst l) -> In (k, x) l -> lookupLast k l = Some x.
Proof.
  induction l as [|[k' x'] l IH]; cbn [List.map fst lookupLast]; [intros _ []|].
  intros Hnd Hin. inversion Hnd as [|? ? Hk Hnd']; subst.
  destruct Hin as [[= -> ->] | Hin].
  - destruct (lookupLast k l) as [y|] eqn:E.
    + exfalso. apply Hk. apply lookupLast_in in E. apply (in_map fst) in E. exact E.
    + rewrite String.eqb_refl. reflexivity.
  - rewrite (IH Hnd' Hin). reflexivity.
Qed.

Lemma defineProperty_in (k : string) (x : A) (l : list (string * A)) (k0 : string) (y : A) :
  List.NoDup (List.map fst l) ->
  In (k0, y) (defineProperty k x l) <-> (k0 = k /\ y = x) \/ (k0 <> k /\ In (k0, y) l).
Proof.
  induction l as [|[k' x'] l IH]; cbn [defineProperty List.map fst]; intros Hnd.
  - split.
    + intros [[= -> ->] | []]. left. split; reflexivity.
    + intros [[-> ->] | [_ []]]. left. reflexivity.
  - inversion Hnd as [|? ? Hk Hnd']; subst.
    destruct (String.eqb_spec k' k) as [->|Hne].
    + split.
      * intros [[= -> ->] | Hin]; [left; split; reflexivity|].
        right. split; [|right; exact Hin].
        intros ->. apply Hk. apply (in_map fst) in Hin. exact Hin.
      * intros [[-> ->] | [Hne [[= -> ->] | Hin]]];
          [left; reflexivity | contradiction | right; exact Hin].
    + specialize (IH Hnd'). split.
      * intros [[= -> ->] | Hin].
        -- right. split; [exact Hne | left; reflexivity].
        -- apply IH in Hin. destruct Hin as [Heq | [Hne0 Hin]];
             [left; exact Heq | right; split; [exact Hne0 | right; exact Hin]].
      * intros [Heq | [Hne0 [[= -> ->] | Hin]]].
        -- right. apply IH. left. exact Heq.
        -- left. reflexivity.
        -- right. apply IH. right. split; assumption.
Qed.

Lemma defineProperty_keys (k : string) (x : A) (l : list (string * A)) (k0 : string) :
  In k0 (List.map fst (defineProperty k x l)) <-> k0 = k \/ In k0 (List.map fst l).
Proof.
  induction l as [|[k' x'] l IH]; cbn [defineProperty List.map fst].
  - split; [intros [<- | []]; left; reflexivity | intros [-> | []]; left; reflexivity].
  - destruct (String.eqb_spec k' k) as [->|Hne]; cbn [List.map fst In].
    + split; [intros H; right; exact H | intros [-> | H]; [left; reflexivity | exact H]].
    + rewrite IH. tauto.
Qed.

Lemma defineProperty_NoDup (k : string) (x : A) (l : list (string * A)) :
  List.NoDup (List.map fst l) -> List.NoDup (List.map fst (defineProperty k x l)).
Proof.
  induction l as [|[k' x'] l IH]; cbn [defineProperty List.map fst]; intros Hnd.
  - constructor; [intros [] | constructor].
  - inversion Hnd as [|? ? Hk Hnd']; subst.
    destruct (String.eqb_spec k' k) as [->|Hne]; cbn [List.map fst].
    + constructor; assumption.
    + constructor; [|apply IH; exact Hnd'].
      rewrite defineProperty_keys. intros [-> | Hin]; contradiction.
Qed.

Lemma fold_defineProperty (l : list (string * A)) :
  forall acc : list (string * A),
    List.NoDup (List.map fst acc) ->
    let r := fold_left (fun acc m => defineProperty (fst m) (snd m) acc) l acc in
    List.NoDup (List.map fst r)
    /\ forall k y, In (k, y) r
                   <-> lookupLast k l = Some y \/ (lookupLast k l = None /\ In (k, y) acc).
Proof.
  induction l as [|[k1 x1] l IH]; intros acc Hnd; cbn [fold_left fst snd lookupLast].
  - split; [exact Hnd|]. intros k y. split; [intros H; right; split; [reflexivity | exact H]|].
    intros [H | [_ H]]; [discriminate | exact H].
  - destruct (IH (defineProperty k1 x1 acc) (defineProperty_NoDup k1 x1 acc Hnd)) as [Hr Hin].
    split; [exact Hr|]. intros k y. rewrite Hin.
    rewrite (defineProperty_in k1 x1 acc k y Hnd).
    destruct (lookupLast k l) as [z|].
    + split; [intros [H | [H _]]; [left; exact H | discriminate] | intros [H | [H _]];
        [left; exact H | discriminate]].
    + destruct (String.eqb_spec k1 k) as [->|Hne].
      * split.
        -- intros [H | [_ [[_ ->] | [Hne _]]]];
             [discriminate | left; reflexivity | contradiction].
        -- intros [[= ->] | [H _]]; [|discriminate].
           right. split; [reflexivity|]. left. split; reflexivity.
      * split.
        -- intros [H | [_ [[-> _] | [_ H]]]];
             [discriminate | contradiction | right; split; [reflexivity | exact H]].
        -- intros [H | [_ H]]; [discriminate|].
           right. split; [reflexivity|]. right. split; [congruence | exact H].
Qed.

Lemma created_spec (l : list (string * A)) :
  List.NoDup (List.map fst (created l))
  /\ forall k y, In (k, y) (created l) <-> lookupLast k l = Some y.
Proof.
  destruct (fold_defineProperty l [] (List.NoDup_nil _)) as [Hnd Hin].
  split; [exact Hnd|]. intros k y. unfold created. rewrite Hin.
  split; [intros [H | [_ []]]; exact H | intros H; left; exact H].
Qed.

Lemma insertByIndex_perm (n : Z) (m : string * A) (l : list (Z * (string * A))) :
  Permutation (insertByIndex n m l) ((n, m) :: l).
Proof.
  induction l as [|[n' m'] l IH]; cbn [insertByIndex]; [reflexivity|].
  destruct (n <? n'); [reflexivity|].
  rewrite IH. apply perm_swap.
Qed.

Lemma indexed_perm (props : list (string * A)) :
  Permutation (List.map snd (indexed props))
              (List.filter (fun m => negb (named m)) props).
Proof.
  induction props as [|m props IH]; cbn [indexed List.filter]; [reflexivity|].
  unfold named at 1. destruct (arrayIndex (fst m)) as [n|]; cbn [negb].
  - rewrite insertByIndex_perm. cbn [List.map snd]. constructor. exact IH.
  - exact IH.
Qed.

Lemma filter_split_perm (f : string * A -> bool) (l : list (string * A)) :
  Permutation (List.filter (fun m => negb (f m)) l ++ List.filter f l) l.
Proof.
  induction l as [|m l IH]; cbn [List.filter]; [reflexivity|].
  destruct (f m); cbn [negb].
  - rewrite <- Permutation_middle. constructor. exact IH.
  - cbn [List.app]. constructor. exact IH.
Qed.

Lemma ownProperties_perm (l : list (string * A)) :
  Permutation (ownProperties l) (created l).
Proof.
  unfold ownProperties. cbv zeta. rewrite indexed_perm. apply filter_split_perm.
Qed.

(** What [JSON.parse] keeps of the members of an object: one property for
    each name, with the value of the last member of that name. *)
Lemma ownProperties_spec (l : list (string * A)) :
  List.NoDup (List.map fst (ownProperties l))
  /\ forall k y, In (k, y) (ownProperties l) <-> lookupLast k l = Some y.
Proof.
  destruct (created_spec l) as [Hnd Hin].
  pose proof (ownProperties_perm l) as Hperm. split.
  - eapply Permutation_NoDup; [|exact Hnd].
    apply Permutation_map. symmetry. exact Hperm.
  - intros k y. rewrite <- Hin. split; apply Permutation_in;
      [exact Hperm | symmetry; exact Hperm].
Qed.

End OwnProperties.

(** The two member loops of [internalize], on their own. *)
Fixpoint reviveElements (f : string -> Doc -> Outcome Value) (index : nat) (l : list Doc)
  : Outcome (list Value) :=
  match l with
  | [] => Ok []
  | x :: rest =>
      match f (stdpp.pretty.pretty index) x with
      | Throw e => Throw e
      | Ok v =>
          match reviveElements f (Datatypes.S index) rest with
          | Throw e => Throw e
          | Ok vs => Ok (v :: vs)
          end
      end
  end.

Definition reviveMembers (f : string -> Doc -> Outcome Value) (l : list (string * Doc))
  : list (string * Outcome Value) :=
  List.map (fun m => (fst m, f (fst m) (snd m))) l.

Lemma internalize_array reviverFn name items :
  internalize reviverFn name (JArr items)
  = match reviveElements (internalize reviverFn) 0 items with
    | Throw e => Throw e
    | Ok vs => reviverFn name (VArr vs)
    end.
Proof.
  cbn [internalize]. generalize 0%nat.
  assert (H : forall index,
    (fix elements (index : nat) (l : list Doc) {struct l} : Outcome (list Value) :=
       match l with
       | [] => Ok []
       | x :: rest =>
           match internalize reviverFn (stdpp.pretty.pretty index) x with
           | Throw e => Throw e
           | Ok v =>
               match elements (Datatypes.S index) rest with
               | Throw e => Throw e
               | Ok vs => Ok (v :: vs)
               end
           end
       end) index items = reviveElements (internalize reviverFn) index items).
  { induction items as [|x items IH]; intros index; [reflexivity|].
    cbn [reviveElements]. rewrite <- IH. reflexivity. }
  intros index. rewrite H. reflexivity.
Qed.

Lemma internalize_object reviverFn name members :
  internalize reviverFn name (JObj members)
  = match collect (ownProperties (reviveMembers (internalize reviverFn) members)) with
    | Throw e => Throw e
    | Ok ps => reviverFn name (VObj ps)
    end.
Proof.
  cbn [internalize].
  assert (H :
    (fix revived (l : list (string * Doc)) : list (string * Outcome Value) :=
       match l with
       | [] => []
       | (k, x) :: rest => (k, internalize reviverFn k x) :: revived rest
       end) members = reviveMembers (internalize reviverFn) members).
  { induction members as [|[k x] members IH]; [reflexivity|].
    cbn [reviveMembers List.map fst snd]. rewrite IH. reflexivity. }
  rewrite H. reflexivity.
Qed.

Lemma lookupLast_reviveMembers (f : string -> Doc -> Outcome Value) (k : string)
    (members : list (string * Doc)) :
  lookupLast k (reviveMembers f members) = option_map (f k) (lookupLast k members).
Proof.
  induction members as [|[k' x] members IH]; [reflexivity|].
  cbn [reviveMembers List.map fst snd lookupLast]. fold (reviveMembers f members).
  rewrite IH. destruct (lookupLast k members) as [y|]; [reflexivity|].
  cbn [option_map]. destruct (String.eqb_spec k' k) as [->|_]; reflexivity.
Qed.

(** What [collect] keeps. *)
Lemma collect_spec (l : list (string * Outcome Value)) :
  forall ps,
    collect l = Ok ps ->
    (forall k v, In (k, v) ps -> v <> VUndefined /\ In (k, Ok v) l)
    /\ (forall k r, In (k, r) l -> exists v, r = Ok v /\ (v <> VUndefined -> In (k, v) ps))
    /\ (List.NoDup (List.map fst l) -> List.NoDup (List.map fst ps)).
Proof.
  induction l as [|[k0 r0] l IH]; intros ps; cbn [collect].
  - intros [= <-]. split; [intros k v []|]. split; [intros k r []|]. intros _. constructor.
  - destruct r0 as [v0|e]; [|discriminate].
    destruct (collect l) as [ps'|e] eqn:E; [|discriminate].
    destruct (IH ps' eq_refl) as (Hkept & Hall & Hnd). intros [= <-].
    assert (Hsub : forall k v, In (k, v) (match v0 with
                                         | VUndefined => ps'
                                         | _ => (k0, v0) :: ps'
                                         end) ->
                               (k = k0 /\ v = v0 /\ v0 <> VUndefined) \/ In (k, v) ps').
    { intros k v Hin. destruct v0; try (right; exact Hin);
        (destruct Hin as [[= <- <-] | Hin]; [left; repeat split; discriminate | right; exact Hin]). }
    split; [|split].
    + intros k v Hin. destruct (Hsub k v Hin) as [(-> & -> & Hdef) | Hin'].
      * split; [exact Hdef | left; reflexivity].
      * destruct (Hkept k v Hin') as [Hdef Hl]. split; [exact Hdef | right; exact Hl].
    + intros k r [[= <- <-] | Hin].
      * exists v0. split; [reflexivity|]. intros Hdef.
        destruct v0; try contradiction; left; reflexivity.
      * destruct (Hall k r Hin) as (v & -> & Hv). exists v. split; [reflexivity|].
        intros Hdef. specialize (Hv Hdef). destruct v0; try exact Hv; right; exact Hv.
    + cbn [List.map fst]. intros Hnd0. inversion Hnd0 as [|? ? Hk Hnd']; subst.
      specialize (Hnd Hnd').
      destruct v0; try exact Hnd; cbn [List.map fst]; constructor; try exact Hnd;
        intros Hin; apply Hk; apply in_map_iff in Hin; destruct Hin as ([k v] & <- & Hin);
        destruct (Hkept k v Hin) as [_ Hl]; apply (in_map fst) in Hl; exact Hl.
Qed.

(** The object a reviver pass leaves: one property for each member name
    whose last member does not revive to undefined. *)
Lemma object_revived (f : string -> Doc -> Outcome Value) (members : list (string * Doc))
    (ps : list (string * Value)) :
  collect (ownProperties (reviveMembers f members)) = Ok ps ->
  List.NoDup (List.map fst ps)
  /\ (forall k v, In (k, v) ps ->
        v <> VUndefined /\ exists x, lookupLast k members = Some x /\ f k x = Ok v)
  /\ (forall k x, lookupLast k members = Some x ->
        exists v, f k x = Ok v /\ (v <> VUndefined -> lookupLast k ps = Some v)).
Proof.
  intros Hc. destruct (collect_spec _ _ Hc) as (Hkept & Hall & Hnd).
  destruct (ownProperties_spec (reviveMembers f members)) as [Hnd0 Hin].
  specialize (Hnd Hnd0). split; [exact Hnd|]. split.
  - intros k v Hv. destruct (Hkept k v Hv) as [Hdef Hl]. split; [exact Hdef|].
    apply Hin in Hl. rewrite lookupLast_reviveMembers in Hl.
    destruct (lookupLast k members) as [x|]; [|discriminate].
    cbn [option_map] in Hl. injection Hl as Hl. exists x. split; [reflexivity | exact Hl].
  - intros k x Hx.
    assert (Hl : In (k, f k x) (ownProperties (reviveMembers f members))).
    { apply Hin. rewrite lookupLast_reviveMembers, Hx. reflexivity. }
    destruct (Hall _ _ Hl) as (v & Hv & Hkeep). exists v. split; [exact Hv|].
    intros Hdef. apply lookupLast_unique; [exact Hnd | exact (Hkeep Hdef)].
Qed.

Lemma lookupProp_in (k : string) (v : Value) (props : list (string * Value)) :
  lookupProp k props = Some v -> In (k, v) props.
Proof.
  induction props as [|[k' x] props IH]; cbn [lookupProp]; [discriminate|].
  destruct (String.eqb_spec k' k) as [->|_].
  - intros [= ->]. left. reflexivity.
  - intros H. right. exact (IH H).
Qed.

(** Positions: the i-th element of an array, the member of an object that
    counts for a name. *)
Inductive Seg := Item (i : nat) | Member (k : string).

Fixpoint docAt (p : list Seg) (d : Doc) : option Doc :=
  match p with
  | [] => Some d
  | Item i :: rest =>
      match d with
      | JArr items =>
          match nth_error items i with Some x => docAt rest x | None => None end
      | _ => None
      end
  | Member k :: rest =>
      match d with
      | JObj members =>
          match lookupLast k members with Some x => docAt rest x | None => None end
      | _ => None
      end
  end.

Fixpoint valueAt (p : list Seg) (v : Value) : option Value :=
  match p with
  | [] => Some v
  | Item i :: rest =>
      match v with
      | VArr items =>
          match nth_error items i with Some x => valueAt rest x | None => None end
      | _ => None
      end
  | Member k :: rest =>
      match v with
      | VObj props =>
          match lookupLast k props with Some x => valueAt rest x | None => None end
      | _ => None
      end
  end.

Section Revival.
Variable Date_new : Value -> option Z.
Variable BigInt_new : Value -> Outcome Z.
Variable options : JsonSerializerOptions.

(** Date handling is enabled (the default). *)
Hypothesis Hdates : notFalse (handleDates options) = true.

Abbreviation rev := (defaultReviver Date_new BigInt_new options).
Abbreviation iso := (isISODateString Date_new).

(** An object the reviver replaces as a whole: its "__type" member is the
    string "bigint" or "date" (and the matching option is on). *)
Definition taggedDoc (d : Doc) : bool :=
  match d with
  | JObj members =>
      match lookupLast "__type" members with
      | Some (JStr t) =>
          (notFalse (handleBigInt options) && String.eqb t "bigint")
          || (notFalse (handleDates options) && String.eqb t "date")
      | _ => false
      end
  | _ => false
  end.

(** No object on the way down to position [p] is replaced as a whole. *)
Fixpoint standalone (p : list Seg) (d : Doc) : bool :=
  match p with
  | [] => true
  | i :: rest =>
      negb (taggedDoc d)
      && match docAt [i] d with
         | Some x => standalone rest x
         | None => true
         end
  end.

(** No string in the value is an ISO date string the reviver would turn
    into a Date. *)
Fixpoint noIsoString (v : Value) : bool :=
  match v with
  | VStr s => negb (iso s)
  | VArr items => forallb noIsoString items
  | VObj props => forallb (fun p => noIsoString (snd p)) props
  | _ => true
  end.

(** What the default reviver can return. *)
Lemma reviver_cases (k : string) (v r : Value) :
  rev k v = Ok r ->
  (exists t, r = VDate t) \/ (exists n, r = VBigInt n)
  \/ (r = v /\ forall s, v = VStr s -> iso s = false).
Proof.
  unfold defaultReviver. rewrite Hdates.
  destruct v as [| | b | n | s | n | t | items | props];
    try (intros [= <-]; right; right; split; [reflexivity | discriminate]).
  - (* string *)
    cbn [andb]. destruct (iso s) eqn:E; intros [= <-].
    + left. eauto.
    + right. right. split; [reflexivity|]. intros s' [= <-]. exact E.
  - (* object *)
    destruct (lookupProp "__type" props) as [tag|];
      [|intros [= <-]; right; right; split; [reflexivity | discriminate]].
    destruct (notFalse (handleBigInt options) && isString "bigint" tag).
    + destruct (BigInt_new _); intros [= <-]. right. left. eauto.
    + cbn [andb]. destruct (isString "date" tag); intros [= <-].
      * left. eauto.
      * right. right. split; [reflexivity | discriminate].
Qed.

Lemma reviver_string (k : string) (s : string) :
  iso s = true -> rev k (VStr s) = Ok (VDate (Date_new (VStr s))).
Proof. intros E. unfold defaultReviver. rewrite Hdates, E. reflexivity. Qed.

Lemma reviver_array (k : string) (items : list Value) : rev k (VArr items) = Ok (VArr items).
Proof. reflexivity. Qed.

Lemma elements_ok (f : string -> Doc -> Outcome Value) (items : list Doc) :
  forall index vs,
    reviveElements f index items = Ok vs ->
    Forall2 (fun x v => exists name, f name x = Ok v) items vs.
Proof.
  induction items as [|x items IH]; intros index vs; cbn [reviveElements].
  - intros [= <-]. constructor.
  - destruct (f (stdpp.pretty.pretty index) x) as [v|e] eqn:Ex; [|discriminate].
    destruct (reviveElements f (Datatypes.S index) items) as [vs'|e] eqn:Er; [|discriminate].
    intros [= <-]. constructor; [eauto | eapply IH; exact Er].
Qed.

(** A document never revives to undefined, and revives to a string only if
    it is that string. *)
Lemma internalize_result (d : Doc) (name : string) (v : Value) :
  internalize rev name d = Ok v ->
  v <> VUndefined /\ forall t, v = VStr t -> d = JStr t.
Proof.
  destruct d as [| b | n | s | items | members].
  1-4: cbn [internalize]; intros H; destruct (reviver_cases _ _ _ H)
         as [[t ->] | [[n' ->] | [-> _]]]; split; try discriminate;
       intros t' [= ->]; reflexivity.
  - rewrite internalize_array.
    destruct (reviveElements _ _ _) as [vs|e]; [|discriminate].
    rewrite reviver_array. intros [= <-]. split; discriminate.
  - rewrite internalize_object.
    destruct (collect _) as [ps|e]; [|discriminate].
    intros H. destruct (reviver_cases _ _ _ H) as [[t ->] | [[n' ->] | [-> _]]];
      split; discriminate.
Qed.

(** Whatever comes out of the reviver pass holds no ISO date string. *)
Lemma internalize_noIso (d : Doc) :
  forall name v, internalize rev name d = Ok v -> noIsoString v = true.
Proof.
  induction d as [| b | n | s | items IH | members IH] using Doc_nested_ind; intros name v.
  1-4: cbn [internalize]; intros H; destruct (reviver_cases _ _ _ H)
         as [[t ->] | [[n' ->] | [-> Hs]]]; try reflexivity.
  - cbn [noIsoString]. rewrite (Hs s eq_refl). reflexivity.
  - rewrite internalize_array.
    destruct (reviveElements (internalize rev) 0 items) as [vs|e] eqn:Er; [|discriminate].
    rewrite reviver_array. intros [= <-]. cbn [noIsoString].
    apply forallb_forall. intros x Hx.
    pose proof (elements_ok _ _ _ _ Er) as Hall.
    clear Er. revert vs Hall x Hx.
    induction IH as [|y items Hy _ IHitems]; intros vs Hall x Hx.
    + inversion Hall; subst. destruct Hx.
    + inversion Hall as [|? v0 ? vs0 [nm Hv0] Hrest]; subst.
      destruct Hx as [<- | Hx]; [eapply Hy; exact Hv0 | eapply IHitems; eassumption].
  - rewrite internalize_object.
    destruct (collect _) as [ps|e] eqn:Er; [|discriminate].
    intros H.
    destruct (reviver_cases _ _ _ H) as [[t ->] | [[n' ->] | [-> _]]]; try reflexivity.
    cbn [noIsoString]. apply forallb_forall. intros [k q] Hq. cbn [snd].
    destruct (object_revived _ _ _ Er) as (_ & Hkept & _).
    destruct (Hkept k q Hq) as (_ & x & Hx & Hrev).
    apply lookupLast_in in Hx.
    rewrite List.Forall_forall in IH. exact (IH (k, x) Hx k q Hrev).
Qed.

(** An object that is not tagged comes back as an object. *)
Lemma reviver_untagged (name : string) (members : list (string * Doc))
    (ps : list (string * Value)) :
  taggedDoc (JObj members) = false ->
  collect (ownProperties (reviveMembers (internalize rev) members)) = Ok ps ->
  rev name (VObj ps) = Ok (VObj ps).
Proof.
  intros Htag Hps. destruct (object_revived _ _ _ Hps) as (_ & Hkept & _).
  unfold defaultReviver. destruct (lookupProp "__type" ps) as [tag|] eqn:Etag;
    [|reflexivity].
  destruct (Hkept _ _ (lookupProp_in _ _ _ Etag)) as (_ & x & Hx & Hrev).
  unfold taggedDoc in Htag. rewrite Hx in Htag.
  assert (Hbig : notFalse (handleBigInt options) && isString "bigint" tag = false).
  { destruct tag; try apply andb_false_r. cbn [isString].
    destruct (internalize_result _ _ _ Hrev) as [_ Hstr].
    rewrite (Hstr s eq_refl) in Htag. apply orb_false_elim in Htag. apply Htag. }
  assert (Hdate : notFalse (handleDates options) && isString "date" tag = false).
  { destruct tag; try apply andb_false_r. cbn [isString].
    destruct (internalize_result _ _ _ Hrev) as [_ Hstr].
    rewrite (Hstr s eq_refl) in Htag. apply orb_false_elim in Htag. apply Htag. }
  rewrite Hbig, Hdate. reflexivity.
Qed.

(** Every string matching the pattern and denoting a valid date, at a
    position no tagged object encloses, is replaced in place by the Date. *)
Lemma revived_in_place (p : list Seg) :
  forall d name v s,
    docAt p d = Some (JStr s) -> iso s = true -> standalone p d = true ->
    internalize rev name d = Ok v ->
    valueAt p v = Some (VDate (Date_new (VStr s))).
Proof.
  induction p as [|i p IH]; intros d name v s Hat Hiso Hst Hrev.
  - cbn in Hat. injection Hat as ->. cbn [internalize] in Hrev.
    rewrite reviver_string in Hrev by exact Hiso. injection Hrev as <-. reflexivity.
  - cbn [standalone] in Hst. apply andb_prop in Hst. destruct Hst as [Htag Hst].
    apply negb_true_iff in Htag.
    destruct i as [i|k]; destruct d as [| | | | items | members]; try discriminate Hat.
    + cbn [docAt] in Hat, Hst. destruct (nth_error items i) as [x|] eqn:Ex; [|discriminate].
      rewrite internalize_array in Hrev.
      destruct (reviveElements (internalize rev) 0 items) as [vs|e] eqn:Er; [|discriminate].
      rewrite reviver_array in Hrev. injection Hrev as <-.
      pose proof (elements_ok _ _ _ _ Er) as Hall.
      assert (Hvi : exists vi nm, nth_error vs i = Some vi /\ internalize rev nm x = Ok vi).
      { clear - Hall Ex. revert i Ex. induction Hall as [|y v0 ? ? [nm Hv] _ IHall]; intros i Ex.
        - destruct i; discriminate.
        - destruct i as [|i]; cbn in *.
          + injection Ex as ->. eauto.
          + apply IHall. exact Ex. }
      destruct Hvi as (vi & nm & Hnth & Hrevi).
      cbn [valueAt]. rewrite Hnth. eapply IH; eassumption.
    + cbn [docAt] in Hat, Hst.
      destruct (lookupLast k members) as [x|] eqn:Ex; [|discriminate].
      rewrite internalize_object in Hrev.
      destruct (collect _) as [ps|e] eqn:Er; [|discriminate].
      rewrite (reviver_untagged name members ps Htag Er) in Hrev. injection Hrev as <-.
      destruct (object_revived _ _ _ Er) as (_ & _ & Hall).
      destruct (Hall k x Ex) as (vi & Hrevi & Hkeep).
      destruct (internalize_result _ _ _ Hrevi) as [Hdef _].
      cbn [valueAt]. rewrite (Hkeep Hdef). eapply IH; eassumption.
Qed.

End Revival.

(** ** Plain payloads

    Payloads made of null, booleans, numbers, strings, arrays and objects
    are written as they are. *)

Lemma Value_nested_ind (P : Value -> Prop) :
  P VUndefined -> P VNull -> (forall b, P (VBool b)) -> (forall n, P (VNum n)) ->
  (forall s, P (VStr s)) -> (forall n, P (VBigInt n)) -> (forall t, P (VDate t)) ->
  (forall items, Forall P items -> P (VArr items)) ->
  (forall props, Forall (fun q => P (snd q)) props -> P (VObj props)) ->
  forall v, P v.
Proof.
  intros Hu Hnull Hbool Hnum Hstr Hbig Hdate Harr Hobj.
  fix IH 1. intros [| | b | n | s | n | t | items | props].
  - exact Hu.
  - exact Hnull.
  - apply Hbool.
  - apply Hnum.
  - apply Hstr.
  - apply Hbig.
  - apply Hdate.
  - apply Harr. induction items as [|x items IHitems]; constructor; [apply IH | exact IHitems].
  - apply Hobj. induction props as [|[k x] props IHp]; constructor; [apply IH | exact IHp].
Qed.

Fixpoint plain (v : Value) : bool :=
  match v with
  | VNull | VBool _ | VNum _ | VStr _ => true
  | VArr items => forallb plain items
  | VObj props => forallb (fun q => plain (snd q)) props
  | _ => false
  end.

Fixpoint toDoc (v : Value) : Doc :=
  match v with
  | VBool b => JBool b
  | VNum n => JNum n
  | VStr s => JStr s
  | VArr items => JArr (List.map toDoc items)
  | VObj props => JObj (List.map (fun q => (fst q, toDoc (snd q))) props)
  | _ => JNull
  end.

(** Nesting depth. *)
Fixpoint depth (v : Value) : nat :=
  match v with
  | VArr items => Datatypes.S (list_max (List.map depth items))
  | VObj props => Datatypes.S (list_max (List.map (fun q => depth (snd q)) props))
  | _ => 0
  end.

Lemma serialize_plain (options : JsonSerializerOptions) (v : Value) :
  forall stack key,
    plain v = true -> (depth v < stack)%nat ->
    serializeProperty stack (defaultReplacer options) key v = Ok (Some (toDoc v)).
Proof.
  induction v as [| | b | n | s | n | t | items IH | props IH] using Value_nested_ind;
    intros [|stack] key Hplain Hdepth; try discriminate Hplain; try lia; try reflexivity.
  - cbn [serializeProperty toJSON defaultReplacer toDoc].
    assert (Hitems : forall index,
              serializeElements (serializeProperty stack (defaultReplacer options)) index items
              = Ok (List.map toDoc items)).
    { cbn [plain] in Hplain. cbn [depth] in Hdepth.
      induction IH as [|x items Hx _ IHitems]; intros index; [reflexivity|].
      cbn [forallb] in Hplain. apply andb_prop in Hplain. destruct Hplain as [Hpx Hprest].
      cbn [List.map] in Hdepth. cbn [serializeElements].
      rewrite Hx; [|exact Hpx|].
      - rewrite IHitems; [reflexivity | exact Hprest |].
        unfold list_max in Hdepth |- *. cbn [fold_right] in Hdepth. lia.
      - unfold list_max in Hdepth |- *. cbn [fold_right] in Hdepth. lia. }
    rewrite Hitems. reflexivity.
  - cbn [serializeProperty toJSON defaultReplacer toDoc].
    assert (Hprops :
              serializeMembers (serializeProperty stack (defaultReplacer options)) props
              = Ok (List.map (fun q => (fst q, toDoc (snd q))) props)).
    { cbn [plain] in Hplain. cbn [depth] in Hdepth.
      induction IH as [|[k x] props Hx _ IHprops]; [reflexivity|].
      cbn [forallb snd] in Hplain. apply andb_prop in Hplain. destruct Hplain as [Hpx Hprest].
      cbn [List.map snd] in Hdepth. cbn [serializeMembers].
      cbn [snd] in Hx. rewrite Hx; [|exact Hpx|].
      - rewrite IHprops; [reflexivity | exact Hprest |].
        unfold list_max in Hdepth |- *. cbn [fold_right] in Hdepth. lia.
      - unfold list_max in Hdepth |- *. cbn [fold_right] in Hdepth. lia. }
    rewrite Hprops. reflexivity.
Qed.

Lemma lookupLast_toDoc (k : string) (props : list (string * Value)) :
  lookupLast k (List.map (fun q => (fst q, toDoc (snd q))) props)
  = option_map toDoc (lookupLast k props).
Proof.
  induction props as [|[k' x] props IH]; [reflexivity|].
  cbn [List.map fst snd lookupLast]. rewrite IH.
  destruct (lookupLast k props); [reflexivity|].
  destruct (String.eqb k' k); reflexivity.
Qed.

Lemma docAt_toDoc (p : list Seg) :
  forall v s, valueAt p v = Some (VStr s) -> docAt p (toDoc v) = Some (JStr s).
Proof.
  induction p as [|[i|k] p IH]; intros v s.
  - cbn. intros [= ->]. reflexivity.
  - destruct v as [| | | | | | | items | props]; try discriminate.
    cbn [valueAt docAt toDoc]. rewrite nth_error_map.
    destruct (nth_error items i) as [x|]; [|discriminate]. apply IH.
  - destruct v as [| | | | | | | items | props]; try discriminate.
    cbn [valueAt docAt toDoc]. rewrite lookupLast_toDoc.
    destruct (lookupLast k props) as [x|]; [|discriminate]. apply IH.
Qed.

(** C10.  With date handling enabled and the default replacer and reviver:
    - [deserialize] replaces, in place, every JSON string that matches the
      pattern YYYY-MM-DDTHH:MM:SS(.sss)?Z? and denotes a valid date (and that
      no "__type"-tagged object encloses) by the Date it denotes; a string
      is reached through array positions and member names, and where a
      text repeats a member name the last member of that name is the one
      reached, as it is the one [JSON.parse] keeps;
    - whatever [deserialize] returns contains no such string any more, so
      for a payload x that contains one, deserialize(serialize(x)) is not
      equal to x;
    - for a payload x of plain data the serializer writes x as it is, and
      what deserialize returns for that text has the Date where x has the
      string. *)
Theorem iso_strings_revived (Date_new : Value -> option Z) (BigInt_new : Value -> Outcome Z)
    (options : JsonSerializerOptions) :
  notFalse (handleDates options) = true ->
  replacer options = None -> reviver options = None ->
  (forall (doc : Doc) (p : list Seg) (s : string) (v : Value),
     docAt p doc = Some (JStr s) ->
     isISODateString Date_new s = true ->
     standalone options p doc = true ->
     deserialize Date_new BigInt_new options doc = Ok v ->
     valueAt p v = Some (VDate (Date_new (VStr s))))
  /\
  (forall (x : Value) (stack : nat) (doc : Doc) (y : Value),
     noIsoString Date_new x = false ->
     serialize stack options x = Ok (Some doc) ->
     deserialize Date_new BigInt_new options doc = Ok y ->
     noIsoString Date_new y = true /\ y <> x)
  /\
  (forall (x : Value) (stack : nat) (p : list Seg) (s : string),
     plain x = true -> (depth x < stack)%nat ->
     valueAt p x = Some (VStr s) ->
     isISODateString Date_new s = true ->
     standalone options p (toDoc x) = true ->
     serialize stack options x = Ok (Some (toDoc x))
     /\ forall y, deserialize Date_new BigInt_new options (toDoc x) = Ok y ->
                  valueAt p y = Some (VDate (Date_new (VStr s))) /\ y <> x).
Proof.
  intros Hdates Hrep Hrev.
  assert (Hde : forall doc v,
            deserialize Date_new BigInt_new options doc = Ok v ->
            internalize (defaultReviver Date_new BigInt_new options) EmptyString doc = Ok v).
  { intros doc v. unfold deserialize. rewrite Hrev. cbn [Backoff.orDefault].
    destruct (internalize _ _ doc); [trivial | discriminate]. }
  assert (Hplace : forall (doc : Doc) (p : list Seg) (s : string) (v : Value),
     docAt p doc = Some (JStr s) ->
     isISODateString Date_new s = true ->
     standalone options p doc = true ->
     deserialize Date_new BigInt_new options doc = Ok v ->
     valueAt p v = Some (VDate (Date_new (VStr s)))).
  { intros doc p s v Hat Hiso Hst Hd. eapply revived_in_place; eauto. }
  split; [exact Hplace|]. split.
  - intros x stack doc y Hx _ Hd.
    pose proof (internalize_noIso Date_new BigInt_new options Hdates doc _ _ (Hde _ _ Hd))
      as Hy.
    split; [exact Hy|]. intros ->. rewrite Hx in Hy. discriminate.
  - intros x stack p s Hplain Hdepth Hat Hiso Hst. split.
    + unfold serialize, stringify. rewrite Hrep. cbn [Backoff.orDefault].
      rewrite serialize_plain by assumption. reflexivity.
    + intros y Hd.
      pose proof (Hplace _ _ _ _ (docAt_toDoc p x s Hat) Hiso Hst Hd) as Hy.
      split; [exact Hy|]. intros ->. rewrite Hat in Hy. discriminate.
Qed.

Lemma iso_strings_revived_witness :
  let x := VObj [("at", VStr "2024-01-15T10:30:00Z")]%string in
  let doc := JObj [("at", JStr "2024-01-15T10:30:00Z")]%string in
  let y := VObj [("at"%string, VDate (Some 1705314600000))] in
  serialize 8 defaultOptions x = Ok (Some doc)
  /\ deserialize referenceDate referenceBigInt defaultOptions doc = Ok y
  /\ valueAt [Member "at"] y = Some (VDate (referenceDate (VStr "2024-01-15T10:30:00Z")))
  /\ noIsoString referenceDate y = true
  /\ y <> x.
Proof.
  intros x doc y.
  destruct (iso_strings_revived referenceDate referenceBigInt defaultOptions
              eq_refl eq_refl eq_refl) as (Hplace & Hneq & Hplain).
  assert (Hde : deserialize referenceDate referenceBigInt defaultOptions doc = Ok y)
    by (vm_compute; reflexivity).
  assert (Hdepth : (depth x < 8)%nat) by (vm_compute; lia).
  assert (Hiso : isISODateString referenceDate "2024-01-15T10:30:00Z" = true)
    by (vm_compute; reflexivity).
  assert (Hst : standalone defaultOptions [Member "at"] (toDoc x) = true)
    by (vm_compute; reflexivity).
  destruct (Hplain x 8%nat [Member "at"] "2024-01-15T10:30:00Z"%string
              eq_refl Hdepth eq_refl Hiso Hst) as [Hser Hy].
  split; [exact Hser|]. split; [exact Hde|]. split.
  - apply (Hplace doc [Member "at"] "2024-01-15T10:30:00Z"%string y);
      [reflexivity | exact Hiso | exact Hst | exact Hde].
  - apply (Hneq x 8%nat doc y); [vm_compute; reflexivity | exact Hser | exact Hde].
Defined.

(** A text that repeats a member name: [JSON.parse] keeps the last member,
    at the place of the first, and lists array indices first. *)
Example repeated_names :
  deserialize referenceDate referenceBigInt defaultOptions
    (JObj [("b", JStr "2024-01-15T10:30:00Z"); ("10", JNull); ("b", JNum 1);
           ("2", JBool true)]%string)
  = Ok (VObj [("2", VBool true); ("10", VNull); ("b", VNum 1)]%string).
Proof. vm_compute. reflexivity. Qed.

(** 'should handle Date with special encoding' passes all the same: the
    plain string the serializer wrote is revived by the pattern. *)
Example createdAt_roundtrip :
  match serialize 8 defaultOptions createdAt with
  | Ok (Some doc) => deserialize referenceDate referenceBigInt defaultOptions doc
  | _ => Throw (newError "unexpected")
  end = Ok createdAt.
Proof. vm_compute. reflexivity. Qed.

End JsonFacts.

(* ===================================================================== *)
(** * Further properties of the backoff engine *)
(* ===================================================================== *)

Module BackoffLaws.
Import Backoff BackoffFacts.
Local Open Scope Q_scope.

Definition initialDelayOf (o : BackoffOptions) : Q :=
  orDefault (initialDelayMs o) DEFAULT_initialDelayMs.

(** ** The Fibonacci numbers of [fibonacci] *)

Lemma fibLoop_add (k : nat) :
  forall a b : Z,
    fibLoop (Datatypes.S (Datatypes.S k)) a b
    = (fibLoop (Datatypes.S k) a b + fibLoop k a b)%Z.
Proof.
  induction k as [|k IH]; intros a b.
  - cbn. lia.
  - change (fibLoop (Datatypes.S (Datatypes.S (Datatypes.S k))) a b)
      with (fibLoop (Datatypes.S (Datatypes.S k)) b (a + b)%Z).
    rewrite IH. reflexivity.
Qed.

Lemma fibLoop_pos (k : nat) :
  forall a b : Z, (0 <= a)%Z -> (1 <= b)%Z -> (1 <= fibLoop k a b)%Z.
Proof.
  induction k as [|k IH]; intros a b Ha Hb; cbn [fibLoop]; [exact Hb|].
  apply IH; lia.
Qed.

Lemma fibLoop_mono (k : nat) :
  forall a b : Z, (0 <= a)%Z -> (1 <= b)%Z ->
    (fibLoop k a b <= fibLoop (Datatypes.S k) a b)%Z.
Proof.
  induction k as [|k IH]; intros a b Ha Hb.
  - cbn. lia.
  - change (fibLoop (Datatypes.S (Datatypes.S k)) a b)
      with (fibLoop (Datatypes.S k) b (a + b)%Z).
    change (fibLoop (Datatypes.S k) a b) with (fibLoop k b (a + b)%Z).
    apply IH; lia.
Qed.

Lemma fibLoop_mono_le (j k : nat) (a b : Z) :
  (j <= k)%nat -> (0 <= a)%Z -> (1 <= b)%Z -> (fibLoop j a b <= fibLoop k a b)%Z.
Proof.
  intros Hjk Ha Hb. induction Hjk as [|k Hjk IH]; [lia|].
  etransitivity; [exact IH | apply fibLoop_mono; assumption].
Qed.

Lemma fibonacci_pos (n : Z) : (1 <= fibonacci n)%Z.
Proof.
  unfold fibonacci. destruct (n <=? 1)%Z; [lia | apply fibLoop_pos; lia].
Qed.

Lemma fibonacci_mono (a b : Z) : (a <= b)%Z -> (fibonacci a <= fibonacci b)%Z.
Proof.
  intros Hab. unfold fibonacci.
  destruct (Z.leb_spec a 1) as [Ha | Ha]; destruct (Z.leb_spec b 1) as [Hb | Hb];
    try lia.
  - apply fibLoop_pos; lia.
  - apply fibLoop_mono_le; lia.
Qed.

(** X1.  [fibonacci] computes the Fibonacci sequence 1, 1, 2, 3, 5, ...:
    it is 1 for every integer n <= 2 (zero and negative arguments included),
    and for 1 <= n <= 76 the value at n + 2 is the sum of the two before it.
    Every value up to fibonacci(78) is below 2^53, so that the sums, which
    the code forms on doubles, are exact there; from fibonacci(79) on the
    code rounds, and the statement stops at 78. *)
Theorem fibonacci_recurrence :
  (forall n : Z, (n <= 2)%Z -> fibonacci n = 1%Z)
  /\ (forall n : Z, (1 <= n <= 76)%Z ->
        fibonacci (n + 2) = (fibonacci (n + 1) + fibonacci n)%Z
        /\ (fibonacci (n + 2) < 2 ^ 53)%Z).
Proof.
  split.
  - intros n Hn. unfold fibonacci. destruct (Z.leb_spec n 1) as [_ | H1]; [reflexivity|].
    replace n with 2%Z by lia. reflexivity.
  - intros n Hn. split.
    + destruct (Z.eq_dec n 1) as [-> | Hne]; [reflexivity|].
      unfold fibonacci.
      replace (n + 2 <=? 1)%Z with false by lia.
      replace (n + 1 <=? 1)%Z with false by lia.
      replace (n <=? 1)%Z with false by lia.
      replace (Z.to_nat (n + 2 - 2))
        with (Datatypes.S (Datatypes.S (Z.to_nat (n - 2)))) by lia.
      replace (Z.to_nat (n + 1 - 2)) with (Datatypes.S (Z.to_nat (n - 2))) by lia.
      apply fibLoop_add.
    + eapply Z.le_lt_trans; [apply (fibonacci_mono (n + 2) 78); lia|].
      vm_compute. reflexivity.
Qed.

Lemma fibonacci_recurrence_witness :
  fibonacci (-3) = 1%Z /\ fibonacci 2 = 1%Z
  /\ fibonacci (76 + 2) = (fibonacci (76 + 1) + fibonacci 76)%Z
  /\ (fibonacci (76 + 2) < 2 ^ 53)%Z.
Proof.
  destruct fibonacci_recurrence as [Hone Hsum].
  split; [apply Hone; lia | split; [apply Hone; lia | apply Hsum; lia]].
Defined.

(** ** Jitter *)



(** X3.  With jitter enabled no strategy ever returns a negative delay,
    whatever the attempt number, the options (negative initial delay or
    multiplier included) and the random draw. *)
Theorem jittered_delay_nonneg (attempt : Z) (o : BackoffOptions) (rnd : Q) :
  jitterOf o = true -> (0 <= calculateDelay attempt o rnd)%Z.
Proof.
  intros Hj.
  assert (Hfloor : forall d f : Q, (0 <= Qfloor (applyJitter d f rnd))%Z).
  { intros d f. change 0%Z with (Qfloor 0). apply Qfloor_resp_le. apply Q.le_max_l. }
  unfold jitterOf in Hj.
  unfold calculateDelay, exponentialBackoff, linearBackoff, constantBackoff,
    fibonacciBackoff.
  destruct (orDefault (strategy o) Exponential); cbv zeta; rewrite Hj; apply Hfloor.
Qed.

Lemma jittered_delay_nonneg_witness :
  (0 <= calculateDelay 3
          (mkBackoffOptions (Some Linear) (Some (-100)%Q) None (Some (-7)%Q) None (Some 3%Q))
          (9 # 10)%Q)%Z.
Proof. apply jittered_delay_nonneg. reflexivity. Defined.

(** ** Growth *)

(** The multiplier does not make the delay shrink: at least 1 for the
    exponential strategy, at least 0 (it is an increment) for the linear
    one. *)
Definition steady (o : BackoffOptions) : Prop :=
  match strategyOf o with
  | Exponential => 1 <= orDefault (multiplier o) DEFAULT_multiplier
  | Linear => 0 <= orDefault (multiplier o) 1000
  | _ => True
  end.

Lemma Qmult_le_nonneg_l (x y z : Q) : 0 <= z -> x <= y -> z * x <= z * y.
Proof.
  intros Hz Hxy. rewrite (Qmult_comm z x), (Qmult_comm z y).
  apply Qmult_le_compat_r; assumption.
Qed.

Lemma delay_le (o : BackoffOptions) (rnd : Q) (a b : Z) :
  jitterOf o = false -> 0 <= initialDelayOf o -> steady o -> (a <= b)%Z ->
  (calculateDelay a o rnd <= calculateDelay b o rnd)%Z.
Proof.
  unfold jitterOf, initialDelayOf, steady, strategyOf. intros Hj Hi Hs Hab.
  unfold calculateDelay, exponentialBackoff, linearBackoff, constantBackoff,
    fibonacciBackoff.
  destruct (orDefault (strategy o) Exponential); cbv zeta; rewrite Hj.
  - apply Qfloor_resp_le, Q.min_le_compat_r.
    apply Qmult_le_nonneg_l; [exact Hi|].
    apply Qpower_le_compat_l; [lia | exact Hs].
  - apply Qfloor_resp_le, Q.min_le_compat_r.
    assert (H : inject_Z (a - 1) <= inject_Z (b - 1)) by (rewrite <- Zle_Qle; lia).
    assert (H' : inject_Z (a - 1) * orDefault (multiplier o) 1000
                 <= inject_Z (b - 1) * orDefault (multiplier o) 1000)
      by (apply Qmult_le_compat_r; assumption).
    lra.
  - lia.
  - apply Qfloor_resp_le, Q.min_le_compat_r.
    apply Qmult_le_nonneg_l; [exact Hi|].
    rewrite <- Zle_Qle. apply fibonacci_mono. exact Hab.
Qed.

(** X4.  Without jitter, with a positive initial delay and a multiplier
    that does not shrink (>= 1 for exponential, >= 0 for linear), the delay
    never decreases from one attempt to a later one, for every strategy;
    and once an attempt reaches the cap maxDelayMs every later attempt
    returns the same, capped delay (strategies other than constant).  (With
    an initial delay of 0 the code multiplies 0 by a power that overflows
    and returns NaN; that case is outside the statement.) *)
Theorem delay_monotone (o : BackoffOptions) (rnd : Q) (a b : Z) :
  jitterOf o = false -> 0 < initialDelayOf o -> steady o -> (a <= b)%Z ->
  (calculateDelay a o rnd <= calculateDelay b o rnd)%Z
  /\ (strategyOf o <> Constant ->
      calculateDelay a o rnd = Qfloor (maxDelayOf o) ->
      calculateDelay b o rnd = Qfloor (maxDelayOf o)).
Proof.
  intros Hj Hpos Hs Hab. pose proof (Qlt_le_weak _ _ Hpos) as Hi.
  split; [apply delay_le; assumption|].
  intros Hc Ha.
  pose proof (delay_le o rnd a b Hj Hi Hs Hab) as Hle.
  assert (Hb : (calculateDelay b o rnd <= Qfloor (maxDelayOf o))%Z).
  { unfold jitterOf, strategyOf, maxDelayOf in *.
    unfold calculateDelay, exponentialBackoff, linearBackoff, fibonacciBackoff.
    destruct (orDefault (strategy o) Exponential); try congruence;
      cbv zeta; rewrite Hj; apply Qfloor_resp_le, Q.le_min_r. }
  lia.
Qed.

Lemma delay_monotone_witness :
  (calculateDelay 3 baseOptions 0 <= calculateDelay 9 baseOptions 0)%Z
  /\ calculateDelay 10 baseOptions 0 = Qfloor (maxDelayOf baseOptions).
Proof.
  assert (Hs : steady baseOptions) by (vm_compute; discriminate).
  assert (Hi : 0 < initialDelayOf baseOptions) by (vm_compute; reflexivity).
  split.
  - apply (proj1 (delay_monotone baseOptions 0 3 9 eq_refl Hi Hs ltac:(lia))).
  - apply (proj2 (delay_monotone baseOptions 0 8 10 eq_refl Hi Hs ltac:(lia)));
      [discriminate | reflexivity].
Defined.

(** ** The iterator *)

Lemma iterate_length (options : BackoffOptions) (rnd : Z -> Q) (iters : nat) :
  forall attempt, List.length (iterate iters attempt options rnd) = iters.
Proof.
  induction iters as [|k IH]; intros attempt; [reflexivity|].
  cbn [iterate List.length]. rewrite IH. reflexivity.
Qed.

Lemma iterate_nth (options : BackoffOptions) (rnd : Z -> Q) (iters : nat) :
  forall (attempt : Z) (k : nat),
    (k < iters)%nat ->
    nth_error (iterate iters attempt options rnd) k
    = Some (calculateDelay (attempt + Z.of_nat k) options (rnd (attempt + Z.of_nat k)%Z)).
Proof.
  induction iters as [|n IH]; intros attempt k Hk; [lia|].
  destruct k as [|k]; cbn [iterate nth_error].
  - rewrite Z.add_0_r. reflexivity.
  - rewrite IH by lia.
    replace (attempt + 1 + Z.of_nat k)%Z with (attempt + Z.of_nat (Datatypes.S k))%Z by lia.
    reflexivity.
Qed.

(** X5.  Run to completion, [backoffIterator(options, maxAttempts)] yields
    exactly maxAttempts delays (10 by default, none when maxAttempts <= 0);
    the k-th is [calculateDelay(k, options)]; and without jitter, with a
    positive initial delay and a multiplier that does not shrink, the
    delays come in non-decreasing order. *)
Theorem backoffIterator_yields (options : BackoffOptions) (maxAttempts : option Z)
    (rnd : Z -> Q) :
  let delays := backoffIterator options maxAttempts rnd in
  List.length delays = Z.to_nat (orDefault maxAttempts 10%Z)
  /\ (forall k : nat,
        (k < List.length delays)%nat ->
        nth_error delays k
        = Some (calculateDelay (Z.of_nat k + 1) options (rnd (Z.of_nat k + 1)%Z)))
  /\ (jitterOf options = false -> 0 < initialDelayOf options -> steady options ->
      forall (i j : nat) (x y : Z),
        (i <= j)%nat -> nth_error delays i = Some x -> nth_error delays j = Some y ->
        (x <= y)%Z).
Proof.
  intros delays. subst delays. unfold backoffIterator.
  set (n := Z.to_nat (orDefault maxAttempts 10%Z)).
  assert (Hlen : List.length (iterate n 1 options rnd) = n) by apply iterate_length.
  split; [exact Hlen|]. split.
  - intros k Hk. rewrite iterate_nth by lia. rewrite (Z.add_comm 1). reflexivity.
  - intros Hj Hpos Hs i j x y Hij Hx Hy. pose proof (Qlt_le_weak _ _ Hpos) as Hi.
    assert (Hjn : (j < n)%nat).
    { rewrite <- Hlen. apply nth_error_Some. rewrite Hy. discriminate. }
    rewrite iterate_nth in Hx, Hy by lia.
    injection Hx as <-. injection Hy as <-.
    etransitivity; [apply (delay_le options (rnd (1 + Z.of_nat i)%Z)
                             (1 + Z.of_nat i) (1 + Z.of_nat j)); try assumption; lia|].
    unfold jitterOf in Hj.
    unfold calculateDelay, exponentialBackoff, linearBackoff, constantBackoff,
      fibonacciBackoff.
    destruct (orDefault (strategy options) Exponential); cbv zeta; rewrite Hj; lia.
Qed.

Lemma backoffIterator_yields_witness :
  backoffIterator baseOptions (Some 4%Z) (fun _ => 0) = [100; 200; 400; 800]%Z
  /\ List.length (backoffIterator baseOptions (Some (-2)%Z) (fun _ => 0)) = 0%nat
  /\ (100 <= 800)%Z.
Proof.
  destruct (backoffIterator_yields baseOptions (Some 4%Z) (fun _ => 0))
    as (_ & _ & Hsorted).
  destruct (backoffIterator_yields baseOptions (Some (-2)%Z) (fun _ => 0))
    as (Hlen & _ & _).
  split; [reflexivity|]. split; [exact Hlen|].
  apply (Hsorted eq_refl ltac:(vm_compute; reflexivity) ltac:(vm_compute; discriminate)
                 0%nat 3%nat 100%Z 800%Z); [lia | reflexivity | reflexivity].
Defined.

End BackoffLaws.

(* ===================================================================== *)
(** * Further properties of the retry engine *)
(* ===================================================================== *)

Module RetryLaws.
Import Js Runtime Retry RetryFacts.

(** ** The two backoff implementations *)

(** A retry configuration as options of utils/backoff.ts (default strategy
    and jitter factor). *)
Definition asBackoffOptions (c : RetryConfig) : Backoff.BackoffOptions :=
  Backoff.mkBackoffOptions None (Some (initialDelayMs c)) (Some (maxDelayMs c))
                           (Some (multiplier c)) (Some (jitter c)) None.

(** X6.  The retry engine's own [calculateBackoff] returns, for every
    attempt and configuration, the delay [calculateDelay] (that is,
    [exponentialBackoff]) of utils/backoff.ts returns for the same
    configuration and the same random draw; it draws one random number when
    jitter is on and none otherwise, cannot fail, and has no other effect. *)
Theorem calculateBackoff_agrees {S} (attempt : Z) (c : RetryConfig) (w : World S) :
  calculateBackoff attempt c w
  = (Ok (Backoff.calculateDelay attempt (asBackoffOptions c) (rng w (rngIdx w))),
     if jitter c
     then mkWorld (clock w) (rng w) (Datatypes.S (rngIdx w)) (trace w) (user w)
     else w)
  /\ Backoff.calculateDelay attempt (asBackoffOptions c) (rng w (rngIdx w))
     = Backoff.exponentialBackoff attempt (asBackoffOptions c) (rng w (rngIdx w)).
Proof.
  split; [|reflexivity].
  unfold calculateBackoff, Backoff.calculateDelay, Backoff.exponentialBackoff,
    Backoff.applyJitter, asBackoffOptions.
  cbn [Backoff.strategy Backoff.initialDelayMs Backoff.maxDelayMs Backoff.multiplier
       Backoff.jitter Backoff.jitterFactor Backoff.orDefault].
  destruct (jitter c); reflexivity.
Qed.

(** ** Recovery *)

Section Recovery.
Context {S T : Type}.
Variable op : Operation S T.
Variable opts : RetryOptions S.
Variable cbEvents : RetryAttempt -> list Event.
(** How many more invocations will fail, as a function of the state the
    operation closes over. *)
Variable left : S -> nat.

(** The operation fails with a retryable error while [left] is positive,
    counting it down, and succeeds when it is zero. *)
Definition failsThenSucceeds : Prop :=
  forall now s,
    match left s with
    | O => exists v u d, op now s = (Ok v, u, d)
    | Datatypes.S r =>
        exists e u d, op now s = (Throw e, u, d) /\ retryableP opts e = true /\ left u = r
    end.

(** The callback returns normally, leaves [cbEvents info] in the trace and
    does not touch what the operation counts on. *)
Definition callbackKeeps : Prop :=
  forall info w, exists w',
    runOnRetry opts info w = (Ok tt, w') /\ trace w' = trace w ++ cbEvents info
    /\ left (user w') = left (user w).

Lemma retryLoop_recovers :
  signal opts = None -> failsThenSucceeds -> callbackKeeps ->
  forall (r n : nat) (attempt : Z) (lastError : option Error) (w : World S),
    left (user w) = r -> (r <= n)%nat ->
    attempt + Z.of_nat n = totalAttempts opts ->
    exists v steps w',
      retryLoop (invoke op) opts (Datatypes.S n) attempt lastError w = (Ok v, w')
      /\ List.length steps = r
      /\ trace w' = trace w ++ retryTrace cbEvents (totalAttempts opts) attempt steps
                            ++ [EvCall None].
Proof.
  intros Hsig Hop Hcb r. induction r as [|r IH]; intros n attempt lastError w Hleft Hrn Hn.
  - pose proof (Hop (clock w) (user w)) as H. rewrite Hleft in H.
    destruct H as (v & u & d & Hrun).
    exists v, []. eexists. split; [|split; [reflexivity|]].
    + rewrite retryLoop_step, Hsig. cbn [aborted]. unfold invoke. rewrite Hrun.
      reflexivity.
    + reflexivity.
  - pose proof (Hop (clock w) (user w)) as H. rewrite Hleft in H.
    destruct H as (e & u & d & Hrun & Hre & Hu).
    destruct n as [|n]; [lia|].
    remember (advance d (setUser u (emit (EvCall (Some e)) w))) as w1 eqn:Ew1.
    destruct (calculateBackoff (S:=S) attempt (config opts) w1) as [rd w2] eqn:Ebo.
    assert (Hbo : exists delayMs, rd = Ok delayMs /\ trace w2 = trace w1
                                  /\ user w2 = user w1).
    { unfold calculateBackoff in Ebo. destruct (jitter (config opts)).
      - unfold bind, random, ret in Ebo. inversion Ebo; subst rd w2. eauto.
      - unfold ret in Ebo. inversion Ebo; subst rd w2. eauto. }
    destruct Hbo as (delayMs & -> & Htr2 & Hu2).
    set (info := mkRetryAttempt (attempt + 1) (totalAttempts opts) delayMs (Some e)).
    destruct (Hcb info w2) as (w3 & Hcbrun & Htr3 & Hu3).
    set (w4 := advance delayMs (emit (EvSleep delayMs) w3)).
    destruct (IH n (attempt + 1) (Some e) w4) as (v & steps & w' & Hloop & Hlen & Htr).
    { subst w4. cbn [user advance emit]. rewrite Hu3, Hu2, Ew1. exact Hu. }
    { lia. }
    { lia. }
    exists v, ((e, delayMs) :: steps), w'. split; [|split].
    + rewrite retryLoop_step, Hsig. cbn [aborted].
      unfold invoke at 1. rewrite Hrun. cbn iota beta. rewrite <- Ew1.
      replace (attempt >=? totalAttempts opts) with false by lia.
      rewrite Hre. cbn [negb andb]. unfold bind at 1. rewrite Ebo.
      unfold bind at 1. fold info. rewrite Hcbrun.
      unfold bind at 1. unfold sleep. cbn [aborted]. fold w4. exact Hloop.
    + simpl. lia.
    + rewrite Htr. subst w4. cbn [trace advance emit].
      rewrite Htr3, Htr2, Ew1. cbn [trace advance setUser emit retryTrace].
      fold info. rewrite <- !app_assoc. f_equal. simpl.
      rewrite <- !app_assoc. reflexivity.
Qed.

End Recovery.

(** The user callback, when configured, returns normally and keeps the
    count of failures to come. *)
Definition userCallbackKeeps {S} (left : S -> nat) (cb : option (Callback S)) : Prop :=
  forall f info s, cb = Some f -> exists u, f info s = (Ok tt, u) /\ left u = left s.

Lemma userCallback_keeps {S} (left : S -> nat) p (cb : option (Callback S)) isR :
  userCallbackKeeps left cb -> callbackKeeps (options p cb isR) (userEvents cb) left.
Proof.
  intros Hcb info w. unfold runOnRetry, options, userOptions. cbn [onRetry].
  destruct cb as [f|]; cbn [option_map userEvents].
  - unfold invokeOnRetry.
    destruct (Hcb f info (user (emit (EvOnRetry info) w)) eq_refl) as (u & Hf & Hu).
    cbn [user emit] in *. rewrite Hf. eexists. repeat split. exact Hu.
  - exists w. split; [reflexivity|]. rewrite app_nil_r. split; reflexivity.
Qed.

(** X7.  An operation that fails with retryable errors r times and then
    succeeds, with r <= maxRetries (no abort signal): withRetry returns the
    value of the successful invocation; the operation has been invoked
    exactly r + 1 times; and onRetry, when configured, has been called r
    times, with the attempt numbers 2, ..., r + 1. *)
Theorem retry_until_success {S T} (op : Operation S T) (left : S -> nat)
    p (cb : option (Callback S)) isR (w : World S) :
  let opts := options p cb isR in
  failsThenSucceeds op opts left -> userCallbackKeeps left cb ->
  Z.of_nat (left (user w)) <= maxRetries (config opts) ->
  exists v w',
    withRetry (invoke op) opts w = (Ok v, w')
    /\ calls (trace w') = (calls (trace w) + left (user w) + 1)%nat
    /\ lastCallError (trace w') = None
    /\ onRetryAttempts (trace w')
       = onRetryAttempts (trace w)
         ++ match cb with
            | Some _ => List.map Z.of_nat (List.seq 2 (left (user w)))
            | None => []
            end.
Proof.
  intros opts Hop Hcb Hr.
  set (r := left (user w)) in *.
  set (m := maxRetries (config opts)) in *.
  destruct (retryLoop_recovers op opts (userEvents cb) left eq_refl Hop
              (userCallback_keeps left p cb isR Hcb) r (Z.to_nat m) 1 None w eq_refl)
    as (v & steps & w' & Hrun & Hlen & Htr).
  { lia. }
  { change (totalAttempts opts) with (m + 1). lia. }
  exists v, w'. split.
  { unfold withRetry. change (totalAttempts opts) with (m + 1).
    replace (Z.to_nat (m + 1)) with (Datatypes.S (Z.to_nat m)) by lia. exact Hrun. }
  split.
  { rewrite Htr, !calls_app, calls_retryTrace by apply userEvents_quiet.
    change (calls [EvCall None]) with 1%nat. lia. }
  split.
  { rewrite Htr, !app_assoc. apply lastCallError_snoc. }
  rewrite Htr, !onRetryAttempts_app. cbn [onRetryAttempts flat_map]. rewrite app_nil_r.
  f_equal. destruct cb as [f|]; cbn [userEvents].
  - rewrite onRetryAttempts_retryTrace.
    change 1 with (Z.of_nat 1). rewrite attemptsFrom_seq, Hlen. reflexivity.
  - clear. generalize 1. induction steps as [|[e d] steps IH]; intros a; [reflexivity|].
    cbn. apply IH.
Qed.

(** The closure of 'should retry on failure and succeed': it counts its
    invocations and throws until the count reaches [k]. *)
Definition flaky (k : nat) (msg result : string) : Operation nat string :=
  fun _ attempts =>
    if (Datatypes.S attempts <? k)%nat
    then (Throw (newError msg), Datatypes.S attempts, 0)
    else (Ok result, Datatypes.S attempts, 0).

Lemma retry_until_success_witness :
  exists v w',
    withRetry (invoke (flaky 3 "ECONNREFUSED" "success after retries"))
              (options (testConfig 3) (Some (fun info n => (Ok tt, n))) None) (world0 0%nat)
    = (Ok v, w')
    /\ calls (trace w') = (0 + 2 + 1)%nat
    /\ lastCallError (trace w') = None
    /\ onRetryAttempts (trace w') = [] ++ [2; 3].
Proof.
  apply (retry_until_success (flaky 3 "ECONNREFUSED" "success after retries")
           (fun attempts => (2 - attempts)%nat) (testConfig 3)
           (Some (fun info n => (Ok tt, n))) None (world0 0%nat)).
  - intros now s. destruct s as [|[|s]]; cbn.
    + eexists _, _, _. repeat split.
    + eexists _, _, _. repeat split.
    + eexists _, _, _. reflexivity.
  - intros f info s Hf. injection Hf as <-. eexists. split; reflexivity.
  - vm_compute. discriminate.
Defined.

(** ** Edges of the retry budget *)

(** X8.  maxRetries = 0 disables retrying: the operation is invoked once and
    its outcome, success or failure (retryable or not), is the outcome of
    withRetry; no onRetry call, no sleep.  A negative maxRetries makes
    withRetry reject with 'Unknown error during retry' without ever invoking
    the operation or looking at the abort signal. *)
Theorem retry_budget_edges {S T} (op : Operation S T) p (cb : option (Callback S)) isR sg
    (w : World S) :
  let opts := userOptions p cb isR sg in
  let m := maxRetries (config opts) in
  (m < 0 ->
   withRetry (invoke op) opts w = (Throw (newError "Unknown error during retry"), w))
  /\ (m = 0 -> aborted sg w = false -> withRetry (invoke op) opts w = invoke op w).
Proof.
  intros opts m. split.
  - intros Hm. unfold withRetry. change (totalAttempts opts) with (m + 1).
    replace (Z.to_nat (m + 1)) with 0%nat by lia. reflexivity.
  - intros Hm Hab. unfold withRetry. change (totalAttempts opts) with (m + 1).
    rewrite Hm. change (Z.to_nat (0 + 1)) with 1%nat.
    rewrite retryLoop_step. change (signal opts) with sg. rewrite Hab.
    change (totalAttempts opts) with (m + 1). rewrite Hm.
    destruct (invoke op w) as [[v|e] w1]; reflexivity.
Qed.

Lemma retry_budget_edges_witness :
  withRetry (invoke (failing "ECONNREFUSED"))
            (userOptions (testConfig (-1)) None None None) (world0 0%nat)
  = (Throw (newError "Unknown error during retry"), world0 0%nat)
  /\ withRetry (invoke (failing "ECONNREFUSED"))
               (userOptions (testConfig 0) None None None) (world0 0%nat)
     = invoke (failing "ECONNREFUSED") (world0 0%nat).
Proof.
  split.
  - apply (proj1 (retry_budget_edges (failing "ECONNREFUSED") (testConfig (-1)) None None
                    None (world0 0%nat))). vm_compute. reflexivity.
  - apply (proj2 (retry_budget_edges (failing "ECONNREFUSED") (testConfig 0) None None
                    None (world0 0%nat))); reflexivity.
Defined.

(** ** Abort *)

(** X9.  With an abort signal and maxRetries >= 0:
    - if the signal is already aborted when withRetry starts, it rejects
      with 'Operation aborted' and the operation is never invoked;
    - if the first invocation fails with a retryable error (maxRetries >= 1)
      and the signal fires before the backoff delay has elapsed, withRetry
      rejects with 'Aborted': the operation has been invoked exactly once,
      and the rejection comes when the signal fires, not when the delay
      ends. *)
Theorem abort_stops_retrying {S T} p (cb : option (Callback S)) isR (sg : AbortSignal)
    (w : World S) :
  let opts := userOptions p cb isR (Some sg) in
  0 <= maxRetries (config opts) ->
  (abortAt sg <= clock w ->
   forall operation : M S T,
     withRetry operation opts w = (Throw (newError "Operation aborted"), w))
  /\
  (forall (op : Operation S T) e u d delay w2,
     clock w < abortAt sg -> 1 <= maxRetries (config opts) ->
     userCallbackReturns cb ->
     op (clock w) (user w) = (Throw e, u, d) -> retryableP opts e = true ->
     let w1 := advance d (setUser u (emit (EvCall (Some e)) w)) in
     calculateBackoff 1 (config opts) w1 = (Ok delay, w2) ->
     abortAt sg < clock w1 + Z.max 0 delay ->
     exists w',
       withRetry (invoke op) opts w = (Throw (newError "Aborted"), w')
       /\ calls (trace w') = (calls (trace w) + 1)%nat
       /\ clock w' = Z.max (clock w1) (abortAt sg)).
Proof.
  intros opts Hm. split.
  - intros Hab operation. unfold withRetry.
    set (m := maxRetries (config opts)) in *.
    change (totalAttempts opts) with (m + 1).
    replace (Z.to_nat (m + 1)) with (Datatypes.S (Z.to_nat m)) by lia.
    rewrite retryLoop_step. change (signal opts) with (Some sg). cbn [aborted].
    replace (abortAt sg <=? clock w) with true by lia. reflexivity.
  - intros op e u d delay w2 Hlive Hm1 Hcb Hop Hre w1 Hbo Hfire.
    set (m := maxRetries (config opts)) in *.
    assert (Hw2 : trace w2 = trace w1 /\ clock w2 = clock w1).
    { unfold calculateBackoff in Hbo. destruct (jitter (config opts)).
      - unfold bind, random, ret in Hbo. inversion Hbo; subst. split; reflexivity.
      - unfold ret in Hbo. inversion Hbo; subst. split; reflexivity. }
    destruct Hw2 as [Htr2 Hck2].
    set (info := mkRetryAttempt (1 + 1) (m + 1) delay (Some e)).
    assert (Hcbrun : exists w3, runOnRetry opts info w2 = (Ok tt, w3)
                                /\ calls (trace w3) = calls (trace w2)
                                /\ clock w3 = clock w2).
    { unfold runOnRetry, opts, userOptions. cbn [onRetry].
      destruct cb as [f|]; cbn [option_map].
      - unfold invokeOnRetry. specialize (Hcb f info (user w2) eq_refl).
        cbn [user emit]. destruct (f info (user w2)) as [r u']. cbn in Hcb. subst r.
        eexists. split; [reflexivity|]. cbn [trace clock setUser emit].
        rewrite calls_app. split; [cbn; lia | reflexivity].
      - exists w2. repeat split. }
    destruct Hcbrun as (w3 & Hcbrun & Hcalls3 & Hck3).
    assert (Hsleep : exists w',
              sleep delay (Some sg) w3 = (Throw (newError "Aborted"), w')
              /\ calls (trace w') = calls (trace w3)
              /\ clock w' = Z.max (clock w1) (abortAt sg)).
    { unfold sleep. cbn [aborted]. rewrite Hck3, Hck2.
      destruct (Z.leb_spec (abortAt sg) (clock w1)) as [Hle | Hgt].
      - eexists. split; [reflexivity|]. split; [reflexivity|]. lia.
      - replace (abortAt sg <? clock w1 + Z.max 0 delay) with true by lia.
        eexists. split; [reflexivity|]. cbn [trace clock advance emit].
        rewrite calls_app. split; [cbn; lia|]. rewrite Hck3, Hck2. lia. }
    destruct Hsleep as (w' & Hsleep & Hcalls' & Hck').
    exists w'. split; [|split; [|exact Hck']].
    + unfold withRetry. change (totalAttempts opts) with (m + 1).
      replace (Z.to_nat (m + 1)) with (Datatypes.S (Z.to_nat m)) by lia.
      rewrite retryLoop_step. change (signal opts) with (Some sg). cbn [aborted].
      replace (abortAt sg <=? clock w) with false by lia.
      unfold invoke at 1. rewrite Hop. cbn iota beta. fold w1.
      change (totalAttempts opts) with (m + 1).
      replace (1 >=? m + 1) with false by lia. rewrite Hre. cbn [negb andb].
      unfold bind at 1. rewrite Hbo. unfold bind at 1. fold info. rewrite Hcbrun.
      unfold bind at 1. rewrite Hsleep. reflexivity.
    + rewrite Hcalls', Hcalls3, Htr2. subst w1. cbn [trace advance setUser emit].
      rewrite calls_app. reflexivity.
Qed.

(** 'should respect abort signal': maxRetries 10, initial delay 100 ms, the
    controller aborts after 50 ms. *)
Lemma abort_stops_retrying_witness :
  let opts := userOptions (Partial.mk (Some 10) (Some 100%Q) None None None None)
                          None None (Some (mkAbortSignal 50)) in
  withRetry (invoke (failing "ECONNREFUSED")) opts (world0 0%nat)
    = (Throw (newError "Aborted"),
       snd (withRetry (invoke (failing "ECONNREFUSED")) opts (world0 0%nat)))
  /\ (exists w',
        withRetry (invoke (failing "ECONNREFUSED")) opts (world0 0%nat)
          = (Throw (newError "Aborted"), w')
        /\ calls (trace w') = (0 + 1)%nat /\ clock w' = Z.max 0 50)
  /\ withRetry (invoke (failing "ECONNREFUSED")) opts
               (mkWorld 60 (fun _ => 1 # 2) 0 [] 0%nat)
     = (Throw (newError "Operation aborted"), mkWorld 60 (fun _ => 1 # 2) 0 [] 0%nat).
Proof.
  intros opts. split; [vm_compute; reflexivity|]. split.
  - apply (proj2 (abort_stops_retrying (T:=unit)
                    (Partial.mk (Some 10) (Some 100%Q) None None None None)
                    None None (mkAbortSignal 50) (world0 0%nat)
                    ltac:(vm_compute; discriminate))
             (failing "ECONNREFUSED") (newError "ECONNREFUSED") 1%nat 0 100
             (mkWorld 0 (fun _ => 1 # 2) 1 [EvCall (Some (newError "ECONNREFUSED"))] 1%nat));
      try reflexivity.
    + vm_compute. discriminate.
    + intros f info s Hf. discriminate Hf.
  - apply (proj1 (abort_stops_retrying (T:=unit)
                    (Partial.mk (Some 10) (Some 100%Q) None None None None)
                    None None (mkAbortSignal 50) (mkWorld 60 (fun _ => 1 # 2) 0 [] 0%nat)
                    ltac:(vm_compute; discriminate))).
    vm_compute. discriminate.
Defined.

End RetryLaws.

(* ===================================================================== *)
(** * Further properties of the circuit breaker *)
(* ===================================================================== *)

Module BreakerLaws.
Import Js Runtime Breaker BreakerFacts.

(** A call through the breaker at clock reading [fst c]; the operation
    returns ([snd c = true]) or throws at once. *)
Ltac zbool :=
  match goal with
  | |- true = _ => symmetry
  | |- false = _ => symmetry
  | _ => idtac
  end;
  rewrite ?Z.geb_leb, ?Z.gtb_ltb;
  first [apply Z.leb_le | apply Z.leb_gt | apply Z.ltb_lt | apply Z.ltb_ge]; lia.

Definition attempt (b : CircuitBreaker) (c : Z * bool) : CircuitBreaker :=
  if snd c then after b okOp (fst c) else after b failOp (fst c).

Definition run (b : CircuitBreaker) (cs : list (Z * bool)) : CircuitBreaker :=
  fold_left attempt cs b.

(** The clock readings of the failed calls. *)
Definition failureTimes (cs : list (Z * bool)) : list Z :=
  List.map fst (List.filter (fun c => negb (snd c)) cs).

Lemma filter_all {A} (f : A -> bool) (l : list A) :
  Forall (fun x => f x = true) l -> List.filter f l = l.
Proof.
  induction 1 as [|x l Hx _ IH]; [reflexivity|]. cbn. rewrite Hx, IH. reflexivity.
Qed.

Lemma run_app (b : CircuitBreaker) (cs1 cs2 : list (Z * bool)) :
  run b (cs1 ++ cs2) = run (run b cs1) cs2.
Proof. apply fold_left_app. Qed.

(** ** Closed: counting failures within the window *)

Section Closed.
Variable lo : Z.
Variable cfg : CircuitBreakerConfig.
Hypothesis Henabled : enabled cfg = true.

(** Every call is made within one failure window starting after [lo]. *)
Definition withinWindow (cs : list (Z * bool)) : Prop :=
  Forall (fun c => lo < fst c <= lo + failureWindow cfg) cs.

Definition recent (l : list Z) : Prop :=
  Forall (fun t => lo < t <= lo + failureWindow cfg) l.

Lemma recent_kept (l : list Z) (t : Z) :
  recent l -> lo < t <= lo + failureWindow cfg ->
  List.filter (fun time => time >? t - failureWindow cfg) l = l.
Proof.
  intros Hl Ht. apply filter_all. eapply List.Forall_impl; [|exact Hl].
  cbn. intros x Hx. lia.
Qed.

(** One call on a closed breaker whose log is recent. *)
Lemma attempt_closed (b : CircuitBreaker) (t : Z) (ok : bool) :
  config b = cfg -> state b = Closed -> recent (failures b) ->
  lo < t <= lo + failureWindow cfg ->
  attempt b (t, ok)
  = if ok then
      mkCircuitBreaker Closed (failures b) 0 (lastFailureTime b)
                       (totalRequests b + 1) (totalFailures b) cfg
    else
      mkCircuitBreaker
        (if Z.of_nat (List.length (failures b ++ [t])) >=? failureThreshold cfg
         then Open else Closed)
        (failures b ++ [t]) (successes b) (Some t)
        (totalRequests b + 1) (totalFailures b + 1) cfg.
Proof.
  intros Hcfg Hst Hrec Ht. unfold attempt, after. cbn [fst snd].
  assert (Hen : enabled (config b) = true) by (rewrite Hcfg; exact Henabled).
  destruct ok.
  - rewrite (execute_closed b (invoke okOp) (at_ t) Hen Hst).
    cbn [invoke okOp fst snd]. unfold onSuccess, counted.
    cbn [state setSuccesses failures successes lastFailureTime totalRequests
         totalFailures config at_ clock].
    rewrite Hst, Hcfg, (recent_kept _ t Hrec Ht). reflexivity.
  - rewrite (execute_closed b (invoke failOp) (at_ t) Hen Hst).
    cbn [invoke failOp fst snd]. unfold onFailure, counted, cleanOldFailures.
    cbn [state setSuccesses setFailures setLastFailureTime setTotalFailures setState
         failures successes lastFailureTime totalRequests totalFailures config
         at_ clock advance setUser emit].
    rewrite Hst, Hcfg, (recent_kept _ t Hrec Ht).
    replace (t + Z.max 0 0) with t by lia.
    assert (Hrec' : recent (failures b ++ [t])).
    { apply Forall_app. split; [exact Hrec|]. constructor; [exact Ht | constructor]. }
    rewrite (recent_kept _ t Hrec' Ht).
    destruct (Z.of_nat (List.length (failures b ++ [t])) >=? failureThreshold cfg);
      reflexivity.
Qed.

(** While fewer than [failureThreshold] failures have been logged, the
    breaker stays closed and logs every failure. *)
Lemma run_closed (cs : list (Z * bool)) :
  forall b : CircuitBreaker,
    config b = cfg -> state b = Closed -> recent (failures b) -> withinWindow cs ->
    Z.of_nat (List.length (failures b) + List.length (failureTimes cs))
      < failureThreshold cfg ->
    let b' := run b cs in
    config b' = cfg /\ state b' = Closed
    /\ failures b' = failures b ++ failureTimes cs
    /\ totalRequests b' = totalRequests b + Z.of_nat (List.length cs)
    /\ totalFailures b' = totalFailures b + Z.of_nat (List.length (failureTimes cs)).
Proof.
  induction cs as [|[t ok] cs IH]; intros b Hcfg Hst Hrec Hwin Hlt.
  - cbn. rewrite app_nil_r. repeat split; first [assumption | lia].
  - inversion Hwin as [|? ? Ht Hwin']; subst. cbn [fst] in Ht.
    cbn [run fold_left]. fold (run (attempt b (t, ok)) cs).
    rewrite (attempt_closed b t ok Hcfg Hst Hrec Ht).
    destruct ok.
    + unfold failureTimes in *. cbn [List.filter snd negb] in *.
      destruct (IH (mkCircuitBreaker Closed (failures b) 0 (lastFailureTime b)
                      (totalRequests b + 1) (totalFailures b) cfg))
        as (H1 & H2 & H3 & H4 & H5); try assumption; try reflexivity.
      cbv zeta. rewrite H1, H2, H3, H4, H5.
      cbn [failures totalRequests totalFailures List.length].
      repeat split; first [reflexivity | lia].
    + unfold failureTimes in *. cbn [List.filter snd negb List.map fst List.length] in *.
      assert (Hlen : (Z.of_nat (List.length (failures b ++ [t])) >=? failureThreshold cfg)
                     = false).
      { rewrite List.length_app. cbn [List.length]. zbool. }
      rewrite Hlen.
      destruct (IH (mkCircuitBreaker Closed (failures b ++ [t]) (successes b) (Some t)
                      (totalRequests b + 1) (totalFailures b + 1) cfg))
        as (H1 & H2 & H3 & H4 & H5); try assumption; try reflexivity.
      { cbn [failures]. apply Forall_app. split; [exact Hrec|].
        constructor; [exact Ht | constructor]. }
      { cbn [failures]. rewrite List.length_app. cbn [List.length]. lia. }
      cbv zeta. rewrite H1, H2, H3, H4, H5.
      cbn [failures totalRequests totalFailures]. rewrite <- app_assoc.
      repeat split; first [reflexivity | lia].
Qed.

End Closed.

(** X10.  A fresh, enabled breaker with failureThreshold = n >= 1, used for
    calls that all fall within one failure window:
    - while fewer than n of the calls have failed it stays closed, however
      many successes come in between (a success does not clear the failure
      log), and every operation is invoked;
    - the call on which the n-th failure occurs opens it: isOpen() holds
      and lastFailureTime is the time of that call. *)
Theorem opens_at_threshold (cfg : CircuitBreakerConfig) (lo : Z) (cs : list (Z * bool))
    (t : Z) :
  enabled cfg = true -> 1 <= failureThreshold cfg ->
  withinWindow lo cfg cs -> lo < t <= lo + failureWindow cfg ->
  (Z.of_nat (List.length (failureTimes cs)) < failureThreshold cfg ->
   let b := run (create cfg) cs in
   isClosed b = true /\ failures b = failureTimes cs
   /\ totalRequests b = Z.of_nat (List.length cs))
  /\
  (Z.of_nat (List.length (failureTimes cs)) = failureThreshold cfg - 1 ->
   let b := run (create cfg) (cs ++ [(t, false)]) in
   isOpen b = true /\ lastFailureTime b = Some t
   /\ failures b = failureTimes cs ++ [t]).
Proof.
  intros Hen Hn Hwin Ht.
  assert (Hrun : Z.of_nat (List.length (failureTimes cs)) < failureThreshold cfg ->
                 let b := run (create cfg) cs in
                 config b = cfg /\ state b = Closed /\ failures b = failureTimes cs
                 /\ totalRequests b = Z.of_nat (List.length cs)).
  { intros Hlt.
    assert (Hlt' : Z.of_nat (List.length (failures (create cfg))
                             + List.length (failureTimes cs)) < failureThreshold cfg)
      by (cbn [create failures List.length]; lia).
    destruct (run_closed lo cfg Hen cs (create cfg) eq_refl eq_refl
                (List.Forall_nil _) Hwin Hlt') as (H1 & H2 & H3 & H4 & _).
    cbn [create failures totalRequests List.app] in H3, H4.
    cbv zeta. repeat split; assumption. }
  split.
  - intros Hlt. destruct (Hrun Hlt) as (_ & Hst & Hf & Hreq). cbv zeta.
    unfold isClosed. rewrite Hst. repeat split; assumption.
  - intros Heq. destruct (Hrun ltac:(lia)) as (Hcfg & Hst & Hf & _). cbv zeta.
    rewrite run_app. cbn [run fold_left].
    rewrite (attempt_closed lo cfg Hen (run (create cfg) cs) t false Hcfg Hst).
    + rewrite Hf.
      replace (Z.of_nat (List.length (failureTimes cs ++ [t])) >=? failureThreshold cfg)
        with true by (rewrite List.length_app; cbn [List.length]; zbool).
      repeat split.
    + rewrite Hf. unfold failureTimes.
      clear - Hwin. induction Hwin as [|[x ok] cs Hx _ IH]; [constructor|].
      cbn [List.filter snd]. destruct ok; cbn [negb List.map]; [exact IH|].
      constructor; [exact Hx | exact IH].
    + exact Ht.
Qed.

Lemma opens_at_threshold_witness :
  let calls := [(10, false); (15, true); (20, false); (25, true)] in
  isClosed (run (create scenarioConfig) calls) = true
  /\ failures (run (create scenarioConfig) calls) = [10; 20]
  /\ isOpen (run (create scenarioConfig) (calls ++ [(30, false)])) = true
  /\ lastFailureTime (run (create scenarioConfig) (calls ++ [(30, false)])) = Some 30.
Proof.
  intros calls.
  assert (Hwin : withinWindow 0 scenarioConfig calls).
  { repeat (constructor; [cbn; lia|]). constructor. }
  destruct (opens_at_threshold scenarioConfig 0 calls 30 eq_refl ltac:(cbn; lia) Hwin
              ltac:(cbn; lia)) as [Hclosed Hopen].
  destruct (Hclosed ltac:(cbn; lia)) as (H1 & H2 & _).
  destruct (Hopen ltac:(reflexivity)) as (H3 & H4 & _).
  repeat split; assumption.
Defined.

(** ** Half-open: probing *)

Definition pruned (t : Z) (b : CircuitBreaker) : list Z :=
  List.filter (fun time => time >? t - failureWindow (config b)) (failures b).

(** One call on a half-open breaker. *)
Lemma attempt_half_open (b : CircuitBreaker) (t : Z) (ok : bool) :
  enabled (config b) = true -> state b = HalfOpen ->
  attempt b (t, ok)
  = if ok then
      if successes b + 1 >=? successThreshold (config b)
      then mkCircuitBreaker Closed [] 0 (lastFailureTime b)
                            (totalRequests b + 1) (totalFailures b) (config b)
      else mkCircuitBreaker HalfOpen (pruned t b) (successes b + 1) (lastFailureTime b)
                            (totalRequests b + 1) (totalFailures b) (config b)
    else
      mkCircuitBreaker Open (pruned t b ++ [t]) 0 (Some t)
                       (totalRequests b + 1) (totalFailures b + 1) (config b).
Proof.
  intros Hen Hst. unfold attempt, after, execute. cbn [fst snd]. rewrite Hen.
  cbn [negb]. cbv zeta. rewrite counted_eq. cbn [state counted]. rewrite Hst.
  destruct ok; cbn [invoke okOp failOp fst snd].
  - unfold onSuccess, counted.
    cbn [state setSuccesses setFailures setState failures successes lastFailureTime
         totalRequests totalFailures config at_ clock].
    rewrite Hst. destruct (successes b + 1 >=? successThreshold (config b)); reflexivity.
  - unfold onFailure, counted.
    cbn [state setSuccesses setFailures setLastFailureTime setTotalFailures setState
         failures successes lastFailureTime totalRequests totalFailures config
         at_ clock advance setUser emit].
    rewrite Hst. replace (t + Z.max 0 0) with t by lia. reflexivity.
Qed.

(** The first call after the reset timeout goes through as if the breaker
    were half-open with no success counted. *)
Lemma attempt_probe (b : CircuitBreaker) (t0 t : Z) (ok : bool) :
  enabled (config b) = true -> state b = Open -> lastFailureTime b = Some t0 ->
  t - t0 >= resetTimeout (config b) ->
  attempt b (t, ok) = attempt (setSuccesses 0 (setState HalfOpen b)) (t, ok).
Proof.
  intros Hen Hst Hlf Hge. unfold attempt, after. cbn [fst snd].
  assert (Hfix : forall (T : Type) (op : M unit T),
            execute b op (at_ t) = execute (setSuccesses 0 (setState HalfOpen b)) op (at_ t)).
  { intros T op. rewrite (execute_open_probes b op (at_ t) t0 Hen Hst Hlf Hge).
    unfold execute. cbn [config setSuccesses setState]. rewrite Hen. reflexivity. }
  destruct ok; rewrite Hfix; reflexivity.
Qed.

(** Successes in a row on a half-open breaker, short of the threshold. *)
Lemma run_half_open (ts : list Z) :
  forall b : CircuitBreaker,
    enabled (config b) = true -> state b = HalfOpen ->
    successes b + Z.of_nat (List.length ts) < successThreshold (config b) ->
    let b' := run b (List.map (fun t => (t, true)) ts) in
    config b' = config b /\ state b' = HalfOpen
    /\ successes b' = successes b + Z.of_nat (List.length ts)
    /\ lastFailureTime b' = lastFailureTime b.
Proof.
  induction ts as [|t ts IH]; intros b Hen Hst Hlt.
  - cbn. repeat split; first [assumption | lia].
  - cbn [List.map run fold_left List.length] in *.
    fold (run (attempt b (t, true)) (List.map (fun t => (t, true)) ts)).
    rewrite (attempt_half_open b t true Hen Hst).
    replace (successes b + 1 >=? successThreshold (config b)) with false by zbool.
    destruct (IH (mkCircuitBreaker HalfOpen (pruned t b) (successes b + 1)
                    (lastFailureTime b) (totalRequests b + 1) (totalFailures b) (config b)))
      as (H1 & H2 & H3 & H4); try assumption; try reflexivity.
    { cbn [successes config]. lia. }
    cbv zeta. rewrite H1, H2, H3, H4. cbn [config successes lastFailureTime].
    repeat split; first [reflexivity | lia].
Qed.

(** X11.  An enabled breaker that is open, with successThreshold = s >= 1,
    probed once the reset timeout has elapsed since the last failure:
    - k successful calls in a row, k < s, leave it half-open with k
      successes counted;
    - the s-th successful call in a row closes it and clears the failure
      log;
    - a failing call at any point before that, the first probe included,
      re-opens it at once and restarts the reset timeout from that
      failure. *)
Theorem half_open_recovery (b : CircuitBreaker) (t0 t1 : Z) (rest : list Z) :
  enabled (config b) = true -> state b = Open -> lastFailureTime b = Some t0 ->
  1 <= successThreshold (config b) -> t1 - t0 >= resetTimeout (config b) ->
  let s := successThreshold (config b) in
  let k := Z.of_nat (List.length (t1 :: rest)) in
  let b' := run b (List.map (fun t => (t, true)) (t1 :: rest)) in
  (k < s -> getState b' = HalfOpen /\ successes b' = k)
  /\ (k = s -> isClosed b' = true /\ failures b' = [] /\ successes b' = 0)
  /\ (k < s -> forall tf,
        isOpen (attempt b' (tf, false)) = true
        /\ lastFailureTime (attempt b' (tf, false)) = Some tf)
  /\ (isOpen (attempt b (t1, false)) = true
      /\ lastFailureTime (attempt b (t1, false)) = Some t1).
Proof.
  intros Hen Hst Hlf Hs Hge s k b'.
  set (bh := setSuccesses 0 (setState HalfOpen b)).
  assert (Hbh : enabled (config bh) = true /\ state bh = HalfOpen /\ successes bh = 0
                /\ config bh = config b) by (repeat split; exact Hen).
  destruct Hbh as (Hen' & Hst' & Hsucc' & Hcfg').
  assert (Hrun : forall l, run b (List.map (fun t => (t, true)) (t1 :: l))
                           = run bh (List.map (fun t => (t, true)) (t1 :: l))).
  { intros l. cbn [List.map run fold_left].
    rewrite (attempt_probe b t0 t1 true Hen Hst Hlf Hge). reflexivity. }
  assert (Hshort : k < s ->
            config b' = config b /\ state b' = HalfOpen /\ successes b' = k).
  { intros Hk. subst b'. rewrite Hrun.
    destruct (run_half_open (t1 :: rest) bh Hen' Hst') as (H1 & H2 & H3 & _).
    { rewrite Hsucc', Hcfg'. subst k s. lia. }
    cbv zeta in *. rewrite H1, H2, H3, Hsucc', Hcfg'. repeat split. }
  split; [|split; [|split]].
  - intros Hk. destruct (Hshort Hk) as (_ & H2 & H3). split; assumption.
  - intros Hk. subst b'. rewrite Hrun.
    destruct (List.exists_last (l := t1 :: rest)) as (pre & tl & Heq); [discriminate|].
    rewrite Heq, List.map_app, run_app. cbn [List.map run fold_left].
    assert (Hlen : Z.of_nat (List.length pre) + 1 = s).
    { subst k. rewrite Heq, List.length_app in Hk. cbn [List.length] in Hk. lia. }
    destruct (run_half_open pre bh Hen' Hst') as (H1 & H2 & H3 & _).
    { rewrite Hsucc', Hcfg'. subst s. lia. }
    cbv zeta in *.
    rewrite (attempt_half_open _ tl true); [|rewrite H1; exact Hen' | exact H2].
    rewrite H1, H3, Hsucc', Hcfg'.
    replace (0 + Z.of_nat (List.length pre) + 1 >=? successThreshold (config b))
      with true by (subst s; zbool).
    repeat split.
  - intros Hk tf. destruct (Hshort Hk) as (H1 & H2 & _).
    rewrite (attempt_half_open b' tf false); [|rewrite H1; exact Hen | exact H2].
    split; reflexivity.
  - rewrite (attempt_probe b t0 t1 false Hen Hst Hlf Hge). fold bh.
    rewrite (attempt_half_open bh t1 false Hen' Hst'). split; reflexivity.
Qed.

Lemma half_open_recovery_witness :
  getState (run tripped [(1130, true)]) = HalfOpen
  /\ successes (run tripped [(1130, true)]) = 1
  /\ isClosed (run tripped [(1130, true); (1140, true)]) = true
  /\ failures (run tripped [(1130, true); (1140, true)]) = []
  /\ isOpen (attempt (run tripped [(1130, true)]) (1135, false)) = true
  /\ lastFailureTime (attempt tripped (1130, false)) = Some 1130.
Proof.
  assert (Hs : 1 <= successThreshold (config tripped)) by (vm_compute; discriminate).
  assert (Hge : 1130 - 30 >= resetTimeout (config tripped)) by (vm_compute; discriminate).
  destruct (half_open_recovery tripped 30 1130 [] eq_refl eq_refl eq_refl Hs Hge)
    as (Hshort & _ & Hfail & Hprobe).
  destruct (half_open_recovery tripped 30 1130 [1140] eq_refl eq_refl eq_refl Hs Hge)
    as (_ & Hclose & _ & _).
  destruct (Hshort ltac:(vm_compute; first [discriminate | reflexivity])) as [H1 H2].
  destruct (Hclose ltac:(reflexivity)) as (H3 & H4 & _).
  destruct (Hfail ltac:(vm_compute; first [discriminate | reflexivity]) 1135) as [H5 _].
  destruct Hprobe as [_ H6].
  repeat split; assumption.
Defined.

(** ** Manual controls *)

(** X12.  [trip()] opens an enabled breaker: until resetTimeout has elapsed
    since the trip (made at a clock reading other than 0, which
    [shouldAttemptReset] takes for no failure time at all), [execute] rejects
    with CircuitOpenError without invoking the operation.  [reset()] closes
    it and clears the failure log and the success counter, keeping the
    request and failure totals: the next [execute] invokes the operation and
    returns its outcome. *)
Theorem manual_controls {S T} (b : CircuitBreaker) (operation : M S T) (w : World S)
    (now : Z) :
  enabled (config b) = true ->
  (isOpen (trip now b) = true
   /\ (now <> 0 -> clock w - now < resetTimeout (config b) ->
       exists b', execute (trip now b) operation w = (Throw CircuitOpenError, b', w)
                  /\ isOpen b' = true))
  /\
  (isClosed (reset b) = true /\ failures (reset b) = [] /\ successes (reset b) = 0
   /\ lastFailureTime (reset b) = None
   /\ totalRequests (reset b) = totalRequests b
   /\ totalFailures (reset b) = totalFailures b
   /\ fst (fst (execute (reset b) operation w)) = fst (operation w)
   /\ snd (execute (reset b) operation w) = snd (operation w)).
Proof.
  intros Hen. split.
  - split; [reflexivity|]. intros Hnow Hlt. eexists. split.
    + apply (execute_open_rejects (trip now b) operation w now); try assumption;
        reflexivity.
    + reflexivity.
  - repeat split.
    + rewrite (execute_closed (reset b) operation w Hen eq_refl).
      destruct (operation w) as [[v|e] w1]; reflexivity.
    + rewrite (execute_closed (reset b) operation w Hen eq_refl).
      destruct (operation w) as [[v|e] w1]; reflexivity.
Qed.

Lemma manual_controls_witness :
  (exists b', execute (trip 900 (create scenarioConfig)) (invoke okOp) (at_ 1000)
              = (Throw CircuitOpenError, b', at_ 1000) /\ isOpen b' = true)
  /\ isClosed (reset tripped) = true
  /\ fst (fst (execute (reset tripped) (invoke okOp) (at_ 40))) = Ok tt.
Proof.
  destruct (manual_controls (create scenarioConfig) (invoke okOp) (at_ 1000) 900 eq_refl)
    as [[_ Htrip] _].
  destruct (manual_controls tripped (invoke okOp) (at_ 40) 0 eq_refl)
    as [_ (Hclosed & _ & _ & _ & _ & _ & Hrun & _)].
  split; [apply Htrip; [discriminate | reflexivity]|].
  split; [exact Hclosed | exact Hrun].
Defined.

(** ** Invariants of the metrics *)

(** One use of the public interface of a breaker: [execute] with any
    operation at any clock reading, [reset], [trip] or [getMetrics]. *)
Inductive Step (b b' : CircuitBreaker) : Prop :=
| StepExecute {S T : Type} (operation : M S T) (w : World S) :
    b' = snd (fst (execute b operation w)) -> Step b b'
| StepReset : b' = reset b -> Step b b'
| StepTrip (now : Z) : b' = trip now b -> Step b b'
| StepMetrics (now : Z) : b' = snd (getMetrics now b) -> Step b b'.

(** The breakers that [new CircuitBreaker(c)] can become. *)
Inductive Reachable (c : CircuitBreakerConfig) : CircuitBreaker -> Prop :=
| ReachCreate : Reachable c (create c)
| ReachStep (b b' : CircuitBreaker) : Reachable c b -> Step b b' -> Reachable c b'.

Definition logged (b : CircuitBreaker) : Z := Z.of_nat (List.length (failures b)).

Definition sound (c : CircuitBreakerConfig) (b : CircuitBreaker) : Prop :=
  config b = c
  /\ (state b = Closed -> logged b < failureThreshold c)
  /\ logged b <= totalFailures b <= totalRequests b.

Lemma logged_clean (now : Z) (b : CircuitBreaker) :
  logged (cleanOldFailures now b) <= logged b.
Proof.
  unfold logged, cleanOldFailures. cbn [failures setFailures].
  pose proof (List.filter_length_le (fun time => time >? now - failureWindow (config b))
                (failures b)). lia.
Qed.

Ltac fields :=
  unfold sound, logged in *;
  cbn [state failures successes lastFailureTime totalRequests totalFailures config
       setState setFailures setSuccesses setLastFailureTime setTotalRequests
       setTotalFailures cleanOldFailures] in *.

Ltac settle :=
  fields; repeat split;
  first [assumption | discriminate | lia
        | let H := fresh in intros H; first [discriminate H | congruence | auto; lia]].

Lemma sound_clean (c : CircuitBreakerConfig) (now : Z) (b : CircuitBreaker) :
  sound c b -> sound c (cleanOldFailures now b).
Proof.
  intros (Hc & Hcl & Hle). pose proof (logged_clean now b) as Hlen.
  fields. repeat split; first [assumption | lia | idtac].
  intros Hst. specialize (Hcl Hst). lia.
Qed.

Lemma sound_onSuccess (c : CircuitBreakerConfig) (b : CircuitBreaker) :
  0 < failureThreshold c -> sound c b -> sound c (onSuccess b).
Proof.
  intros Hpos (Hc & Hcl & Hle). unfold onSuccess.
  destruct (state b) eqn:Hst.
  - settle.
  - settle.
  - cbv zeta.
    match goal with |- context [if ?t then _ else _] => destruct t end.
    + fields. cbn [List.length]. repeat split; first [assumption | lia].
    + settle.
Qed.

Lemma sound_onFailure (c : CircuitBreakerConfig) (now : Z) (b : CircuitBreaker) :
  config b = c -> logged b <= totalFailures b -> totalFailures b < totalRequests b ->
  sound c (onFailure now b).
Proof.
  intros Hc Hlog Htot. unfold onFailure. cbv zeta.
  cbn [state setFailures setLastFailureTime setTotalFailures].
  assert (Hpush : Z.of_nat (List.length (failures b ++ [now])) = logged b + 1).
  { unfold logged. rewrite List.length_app. cbn [List.length]. lia. }
  pose proof (List.filter_length_le
                (fun time => time >? now - failureWindow (config b))
                (failures b ++ [now])) as Hlen.
  destruct (state b) eqn:Hst.
  - match goal with
    | |- sound c (if ?t then _ else _) => destruct t eqn:Hfull
    end.
    + settle.
    + fields. rewrite Hst. repeat split; first [assumption | lia | idtac].
      intros _. rewrite Z.geb_leb in Hfull. apply Z.leb_gt in Hfull. rewrite <- Hc.
      exact Hfull.
  - fields. rewrite Hst. repeat split; first [assumption | discriminate | lia].
  - settle.
Qed.

Lemma sound_execute {S T} (c : CircuitBreakerConfig) (b : CircuitBreaker)
    (operation : M S T) (w : World S) :
  0 < failureThreshold c -> sound c b -> sound c (snd (fst (execute b operation w))).
Proof.
  intros Hpos Hb. unfold execute.
  destruct (negb (enabled (config b))).
  { destruct (operation w) as [r w1]. exact Hb. }
  cbv zeta.
  set (b1 := setTotalRequests (totalRequests b + 1) b).
  assert (Hb1 : sound c b1 /\ totalFailures b1 < totalRequests b1).
  { destruct Hb as (Hc & Hcl & Hle). unfold b1, sound, logged in *.
    cbn [setTotalRequests state failures totalFailures totalRequests config].
    repeat split; first [assumption | lia]. }
  destruct Hb1 as [Hb1 Hlt].
  set (b2 := cleanOldFailures (clock w) b1).
  assert (Hb2 : sound c b2) by (apply sound_clean; exact Hb1).
  assert (Hlt2 : totalFailures b2 < totalRequests b2) by exact Hlt.
  clearbody b2. clear b1 Hb1 Hlt.
  assert (Hafter : forall b3 : CircuitBreaker,
            sound c b3 -> totalFailures b3 < totalRequests b3 ->
            sound c (snd (fst (match operation w with
                               | (Ok result, w1) => (Ok result, onSuccess b3, w1)
                               | (Throw error, w1) =>
                                   (Throw error, onFailure (clock w1) b3, w1)
                               end)))).
  { intros b3 Hb3 Hlt3. destruct (operation w) as [[v|e] w1]; cbn [fst snd].
    - apply sound_onSuccess; assumption.
    - destruct Hb3 as (Hc & _ & Hle). apply sound_onFailure; first [assumption | lia]. }
  destruct (state b2) eqn:Hst.
  - apply Hafter; assumption.
  - destruct (shouldAttemptReset (clock w) b2).
    + apply Hafter; [|exact Hlt2].
      destruct Hb2 as (Hc & Hcl & Hle). unfold sound, logged in *.
      cbn [setSuccesses setState state failures totalFailures totalRequests config].
      repeat split; first [assumption | discriminate | lia].
    + exact Hb2.
  - apply Hafter; assumption.
Qed.

Lemma sound_reachable (c : CircuitBreakerConfig) (b : CircuitBreaker) :
  0 < failureThreshold c -> Reachable c b -> sound c b.
Proof.
  intros Hpos Hreach. induction Hreach as [|b b' _ IH Hstep].
  - unfold sound, logged. cbn. repeat split; lia.
  - destruct Hstep as [S T operation w Heq | Heq | now Heq | now Heq]; subst b'.
    + apply sound_execute; assumption.
    + destruct IH as (Hc & _ & Hle). unfold sound, logged in *. cbn.
      repeat split; first [assumption | lia].
    + destruct IH as (Hc & _ & Hle). unfold sound, logged in *. cbn.
      repeat split; first [assumption | discriminate | lia].
    + apply sound_clean. exact IH.
Qed.

(** X13.  For a breaker built with failureThreshold >= 1 and then used in
    any way through execute(), reset(), trip() and getMetrics(), with any
    operations and at any clock readings, every snapshot of getMetrics()
    satisfies failures <= totalFailures <= totalRequests, and a snapshot
    whose state is 'closed' has fewer than failureThreshold failures: a
    closed breaker never holds a full failure log. *)
Theorem metrics_invariant (c : CircuitBreakerConfig) (b : CircuitBreaker) (now : Z) :
  0 < failureThreshold c -> Reachable c b ->
  let m := fst (getMetrics now b) in
  (m_state m = Closed -> m_failures m < failureThreshold c)
  /\ m_failures m <= m_totalFailures m <= m_totalRequests m.
Proof.
  intros Hpos Hreach.
  pose proof (sound_clean c now b (sound_reachable c b Hpos Hreach)) as (_ & Hcl & Hle).
  cbv zeta. unfold getMetrics. cbn [fst m_state m_failures m_totalFailures m_totalRequests].
  split; [exact Hcl | exact Hle].
Qed.

Lemma metrics_invariant_witness :
  let b := run (create scenarioConfig) [(10, false); (15, true); (20, false); (2000, true)] in
  let m := fst (getMetrics 2001 b) in
  (m_state m = Closed -> m_failures m < 3)
  /\ m_failures m <= m_totalFailures m <= m_totalRequests m.
Proof.
  intros b.
  apply (metrics_invariant scenarioConfig b 2001); [reflexivity|].
  unfold b, run. cbn [fold_left attempt snd fst after].
  repeat (eapply ReachStep; [|eapply StepExecute; reflexivity]).
  apply ReachCreate.
Defined.

End BreakerLaws.

(* ===================================================================== *)
(** * Further properties of the in-memory queue *)
(* ===================================================================== *)

Module QueueLaws.
Import Js Runtime MemoryAdapters Memory MemoryFacts.

Ltac zbool :=
  match goal with
  | |- true = _ => symmetry
  | |- false = _ => symmetry
  | _ => idtac
  end;
  rewrite ?Z.geb_leb, ?Z.gtb_ltb;
  first [apply Z.leb_le | apply Z.leb_gt | apply Z.ltb_lt | apply Z.ltb_ge]; lia.

Section Queue.
Context {B : Type}.
Implicit Types (q : MemoryQueue B) (m : StoredMessage B).

(** The in-flight map after the messages of [l] were dequeued in order. *)
Definition inFlight (l : list (StoredMessage B)) (p : gmap string (StoredMessage B))
  : gmap string (StoredMessage B) :=
  fold_left (fun p m => <[id m := bumpAttempt m]> p) l p.

Lemma cleanup_fields now q :
  processing (cleanup now q) = processing q /\ maxAgeMs (cleanup now q) = maxAgeMs q
  /\ maxMessages (cleanup now q) = maxMessages q /\ queueName (cleanup now q) = queueName q.
Proof. unfold cleanup. destruct (maxAgeMs q <=? 0); repeat split. Qed.

(** Cleaning up twice at the same clock reading is cleaning up once. *)
Lemma cleanup_idem now q : cleanup now (cleanup now q) = cleanup now q.
Proof.
  unfold cleanup. destruct (maxAgeMs q <=? 0) eqn:E; [rewrite E; reflexivity|].
  cbn [maxAgeMs setMessages messages]. rewrite E. unfold setMessages.
  cbn [messages processing queueName maxMessages maxAgeMs].
  f_equal. unfold fresh. cbn [maxAgeMs]. apply BreakerFacts.filter_filter_same.
Qed.

Lemma cleanup_setMessages_tail now q x l :
  messages (cleanup now q) = x :: l ->
  forall p, cleanup now (setProcessing p (setMessages l (cleanup now q)))
            = setProcessing p (setMessages l (cleanup now q)).
Proof.
  intros Hm p. unfold cleanup in *. destruct (maxAgeMs q <=? 0) eqn:E.
  - cbn [maxAgeMs setProcessing setMessages]. rewrite E. reflexivity.
  - cbn [maxAgeMs setProcessing setMessages messages] in *. rewrite E.
    unfold setMessages, setProcessing. cbn [messages processing queueName maxMessages maxAgeMs].
    f_equal. unfold fresh in *. cbn [maxAgeMs].
    assert (Hall : Forall (fun m => (now - timestamp m <? maxAgeMs q) = true) (x :: l)).
    { rewrite <- Hm. apply List.Forall_forall. intros m Hin.
      apply List.filter_In in Hin. apply Hin. }
    inversion Hall as [|? ? _ Hl]; subst.
    clear - Hl. induction Hl as [|y l Hy _ IH]; [reflexivity|].
    cbn. rewrite Hy, IH. reflexivity.
Qed.

Lemma dequeueLoop_spec (n : nat) now :
  forall q,
    cleanup now q = q ->
    let '(out, q') := dequeueLoop n now q in
    out = List.map bumpAttempt (take n (messages q))
    /\ messages q' = drop n (messages q)
    /\ processing q' = inFlight (take n (messages q)) (processing q)
    /\ maxAgeMs q' = maxAgeMs q /\ maxMessages q' = maxMessages q
    /\ queueName q' = queueName q.
Proof.
  induction n as [|n IH]; intros q Hclean.
  - cbn. rewrite drop_0. repeat split.
  - cbn [dequeueLoop]. unfold dequeue. rewrite Hclean.
    destruct (messages q) as [|x l] eqn:Hm.
    + cbn. repeat split. exact Hm.
    + set (q1 := setProcessing (<[id (bumpAttempt x) := bumpAttempt x]> (processing q))
                               (setMessages l q)).
      assert (Hq1 : cleanup now q1 = q1).
      { subst q1. rewrite <- Hclean in Hm |- *.
        rewrite (proj1 (cleanup_fields now q)).
        apply (cleanup_setMessages_tail now q x l Hm). }
      specialize (IH q1 Hq1). destruct (dequeueLoop n now q1) as [out q'].
      destruct IH as (H1 & H2 & H3 & H4 & H5 & H6).
      subst q1. cbn [messages processing setProcessing setMessages maxAgeMs maxMessages
                     queueName] in *.
      cbn [take drop List.map inFlight fold_left]. repeat split; try assumption.
      rewrite H1. reflexivity.
Qed.

(** X14.  [dequeueBatch(count)] hands out the first [count] unexpired
    messages in FIFO order (all of them if fewer are stored, none when
    count <= 0), each with its deliveryAttempt incremented; it removes
    exactly those from the queue and records them as in flight. *)
Theorem dequeueBatch_fifo (count now : Z) (q : MemoryQueue B) :
  let live := messages (cleanup now q) in
  let n := Z.to_nat count in
  let '(out, q') := dequeueBatch count now q in
  out = List.map bumpAttempt (take n live)
  /\ List.map deliveryAttempt out = List.map (fun m => deliveryAttempt m + 1) (take n live)
  /\ messages q' = drop n live
  /\ processing q' = inFlight (take n live) (processing q)
  /\ size q' = Z.of_nat (List.length live) - Z.min (Z.max 0 count) (Z.of_nat (List.length live)).
Proof.
  cbv zeta. unfold dequeueBatch.
  pose proof (dequeueLoop_spec (Z.to_nat count) now (cleanup now q) (cleanup_idem now q)) as H.
  destruct (dequeueLoop (Z.to_nat count) now (cleanup now q)) as [out q'].
  destruct H as (H1 & H2 & H3 & _).
  rewrite (proj1 (cleanup_fields now q)) in H3.
  repeat split; try assumption.
  - rewrite H1, List.map_map. reflexivity.
  - unfold size. rewrite H2, length_drop. lia.
Qed.

(** ** Redelivery *)

(** The message is not expired at clock reading [now]. *)
Definition unexpired q now m : Prop := maxAgeMs q <= 0 \/ now - timestamp m < maxAgeMs q.

Lemma cleanup_head now q m l :
  messages q = m :: l -> unexpired q now m ->
  exists l', messages (cleanup now q) = m :: l'.
Proof.
  intros Hm Hun. unfold cleanup. destruct (Z.leb_spec (maxAgeMs q) 0) as [Hle|Hgt].
  - exists l. exact Hm.
  - cbn [messages setMessages]. rewrite Hm. cbn [List.filter]. unfold fresh at 1.
    destruct Hun as [H|H]; [lia|].
    replace (now - timestamp m <? maxAgeMs q) with true by zbool. eauto.
Qed.

(** X15.  A message that was dequeued and then nacked with requeue is the
    next one a dequeue returns (unless it has expired meanwhile): same id,
    body, key, headers and timestamp, flagged as requeued, and with its
    deliveryAttempt one higher than at the first delivery.  Nacked without
    requeue, or acked, it is gone: neither stored nor in flight. *)
Theorem nack_requeue_redelivers (now later : Z) (q q1 : MemoryQueue B)
    (m : StoredMessage B) :
  dequeue now q = (Some m, q1) ->
  (unexpired q later m ->
   exists q3,
     dequeue later (snd (nack (id m) true q1))
     = (Some (bumpAttempt (markRequeued m)), q3)
     /\ fst (nack (id m) true q1) = true
     /\ deliveryAttempt (bumpAttempt (markRequeued m)) = deliveryAttempt m + 1
     /\ requeued (bumpAttempt (markRequeued m)) = true
     /\ id (bumpAttempt (markRequeued m)) = id m
     /\ body (bumpAttempt (markRequeued m)) = body m)
  /\
  (forall s, s = Ack \/ s = Nack false ->
     let q2 := snd (applySettle (id m) s q1) in
     fst (applySettle (id m) s q1) = true
     /\ messages q2 = messages q1 /\ processing q2 !! id m = None).
Proof.
  intros Hdeq. unfold dequeue in Hdeq.
  destruct (messages (cleanup now q)) as [|x l] eqn:Hm; [discriminate|].
  injection Hdeq as <- <-.
  change (id (bumpAttempt x)) with (id x) in *.
  set (p1 := <[id x := bumpAttempt x]> (processing (cleanup now q))).
  assert (Hin : p1 !! id x = Some (bumpAttempt x)) by apply lookup_insert_eq.
  split.
  - intros Hun. unfold nack. cbn [processing setProcessing setMessages]. fold p1.
    rewrite Hin. cbn [snd fst].
    set (q2 := setMessages _ _).
    assert (Hq2 : messages q2 = markRequeued (bumpAttempt x) :: l) by reflexivity.
    assert (Hun2 : unexpired q2 later (markRequeued (bumpAttempt x))).
    { unfold unexpired in *. subst q2.
      cbn [maxAgeMs setMessages setProcessing markRequeued bumpAttempt timestamp] in *.
      rewrite (proj1 (proj2 (cleanup_fields now q))). exact Hun. }
    destruct (cleanup_head later q2 _ _ Hq2 Hun2) as (l' & Hl').
    unfold dequeue. rewrite Hl'. eexists. repeat split.
  - intros s Hs. cbv zeta.
    destruct Hs as [-> | ->]; unfold applySettle, ack, nack;
      cbn [processing setProcessing setMessages]; fold p1; rewrite Hin; cbn [fst snd];
      repeat split; cbn [processing setProcessing]; apply lookup_delete_eq.
Qed.

(** ** Expiry *)

Lemma In_take {A} (x : A) (n : nat) (l : list A) : In x (take n l) -> In x l.
Proof.
  revert l. induction n as [|n IH]; intros [|y l] Hin; cbn in *; try contradiction.
  destruct Hin as [-> | Hin]; [left; reflexivity | right; apply IH; exact Hin].
Qed.

Lemma cleanup_fresh now q :
  0 < maxAgeMs q ->
  Forall (fun m => now - timestamp m < maxAgeMs q) (messages (cleanup now q)).
Proof.
  intros Hage. unfold cleanup. replace (maxAgeMs q <=? 0) with false by zbool.
  cbn [messages setMessages]. apply List.Forall_forall. intros m Hin.
  apply List.filter_In in Hin. destruct Hin as [_ Hf]. unfold fresh in Hf.
  apply Z.ltb_lt. exact Hf.
Qed.

(** X16.  With an age limit (maxAgeMs > 0) no message that is maxAgeMs old
    or older is ever handed out: what [dequeue] and [dequeueBatch] return at
    clock reading [now] has now - timestamp < maxAgeMs; and right after an
    [enqueue] every stored message is that young.  ([peek] does not clean
    up.) *)
Theorem expired_never_delivered (now : Z) (q : MemoryQueue B) :
  0 < maxAgeMs q ->
  (forall m q', dequeue now q = (Some m, q') -> now - timestamp m < maxAgeMs q)
  /\ (forall count,
        Forall (fun m => now - timestamp m < maxAgeMs q) (fst (dequeueBatch count now q)))
  /\ (forall body key headers r,
        let q' := snd (enqueue body key headers now r q) in
        maxAgeMs q' = maxAgeMs q
        /\ Forall (fun m => now - timestamp m < maxAgeMs q) (messages q')).
Proof.
  intros Hage. pose proof (cleanup_fresh now q Hage) as Hfresh.
  split; [|split].
  - intros m q' Hdeq. unfold dequeue in Hdeq.
    destruct (messages (cleanup now q)) as [|x l]; [discriminate|].
    injection Hdeq as <- _. inversion Hfresh; subst. assumption.
  - intros count. unfold dequeueBatch.
    pose proof (dequeueLoop_spec (Z.to_nat count) now (cleanup now q) (cleanup_idem now q))
      as H.
    destruct (dequeueLoop (Z.to_nat count) now (cleanup now q)) as [out q'].
    destruct H as (-> & _). cbn [fst]. apply List.Forall_forall. intros m Hin. apply List.in_map_iff in Hin.
    destruct Hin as (x & <- & Hx). cbn [bumpAttempt timestamp].
    rewrite List.Forall_forall in Hfresh. apply Hfresh.
    eapply In_take. exact Hx.
  - intros body key headers r. cbv zeta. unfold enqueue. cbv zeta.
    destruct (cleanup_fields now q) as (_ & Ha & _).
    set (msg := mkStored _ body key _ now 0 false false false).
    assert (Hall : Forall (fun m => now - timestamp m < maxAgeMs q)
                          (messages (cleanup now q) ++ [msg])).
    { apply Forall_app. split; [exact Hfresh|]. constructor; [|constructor].
      subst msg. cbn [timestamp]. lia. }
    match goal with |- context [if ?c then _ else _] => destruct c end;
      cbn [snd maxAgeMs setMessages messages]; (split; [exact Ha|]); [|exact Hall].
    destruct (messages (cleanup now q) ++ [msg]) as [|y l]; [constructor|].
    cbn [List.tl]. inversion Hall; assumption.
Qed.

End Queue.

Definition sample : MemoryQueue string :=
  enqueueAll [mkEnqueue "a"%string None None 1000 (1 # 3);
              mkEnqueue "b"%string None None 1500 (1 # 3);
              mkEnqueue "c"%string None None 2000 (1 # 3)]
             (Memory.create (Some "sample"%string) None (Some 1200)).

Lemma dequeueBatch_fifo_witness :
  List.map body (fst (dequeueBatch 2 2100 sample)) = ["a"; "b"]%string
  /\ List.map body (fst (dequeueBatch 2 2300 sample)) = ["b"; "c"]%string
  /\ List.map body (fst (dequeueBatch (-1) 2100 sample)) = [].
Proof.
  pose proof (dequeueBatch_fifo 2 2100 sample) as H1.
  pose proof (dequeueBatch_fifo 2 2300 sample) as H2.
  pose proof (dequeueBatch_fifo (-1) 2100 sample) as H3.
  cbv zeta in *.
  destruct (dequeueBatch 2 2100 sample) as [o1 ?]. destruct H1 as (-> & _).
  destruct (dequeueBatch 2 2300 sample) as [o2 ?]. destruct H2 as (-> & _).
  destruct (dequeueBatch (-1) 2100 sample) as [o3 ?]. destruct H3 as (-> & _).
  repeat split; vm_compute; reflexivity.
Defined.

Lemma nack_requeue_redelivers_witness :
  exists m q1 q3,
    dequeue 2100 sample = (Some m, q1)
    /\ body m = "a"%string /\ deliveryAttempt m = 1
    /\ dequeue 2150 (snd (nack (id m) true q1)) = (Some (bumpAttempt (markRequeued m)), q3)
    /\ deliveryAttempt (bumpAttempt (markRequeued m)) = 1 + 1.
Proof.
  destruct (dequeue 2100 sample) as [[m|] q1] eqn:Hdeq; [|discriminate Hdeq].
  assert (Hm : body m = "a"%string /\ deliveryAttempt m = 1 /\ timestamp m = 1000).
  { vm_compute in Hdeq. injection Hdeq as <- _. repeat split. }
  destruct Hm as (Hb & Ha & Ht).
  destruct (nack_requeue_redelivers 2100 2150 sample q1 m Hdeq) as [Hre _].
  destruct Hre as (q3 & Hd & _ & Hatt & _).
  { right. rewrite Ht. reflexivity. }
  exists m, q1, q3. rewrite Ha in Hatt. repeat split; assumption.
Defined.

Lemma expired_never_delivered_witness :
  (forall m q', dequeue 2300 sample = (Some m, q') -> 2300 - timestamp m < 1200)
  /\ option_map body (fst (dequeue 2300 sample)) = Some "b"%string
  /\ option_map body (peek sample) = Some "a"%string.
Proof.
  destruct (expired_never_delivered 2300 sample ltac:(reflexivity)) as (Hd & _ & _).
  split; [exact Hd|]. split; vm_compute; reflexivity.
Defined.

End QueueLaws.

(* ===================================================================== *)
(** * Further properties of the in-memory producer, consumer and registry *)
(* ===================================================================== *)

Module MemoryLaws.
Import Js Runtime MemoryAdapters Memory MemoryFacts QueueLaws.

Section Store.
Context {B : Type}.
Implicit Types (st : Store B) (q : MemoryQueue B).

(** Every registered name refers to a queue object, and references not yet
    handed out are free. *)
Definition wellFormed st : Prop :=
  (forall name ref, queues st !! name = Some ref -> is_Some (heap st !! ref))
  /\ (forall ref, (nextRef st <= ref)%nat -> heap st !! ref = None).

Lemma wellFormed_empty : wellFormed (emptyStore (B:=B)).
Proof.
  split.
  - intros name ref H. cbn in H. rewrite lookup_empty in H. discriminate.
  - intros ref _. apply lookup_empty.
Qed.

(** What [getOrCreate] does: nothing if the name is registered, else one
    fresh object registered under the name; no other object is touched. *)
Lemma getOrCreate_spec (name : string) (maxMsgs maxAge : option Z) st :
  wellFormed st ->
  let '(ref, st') := getOrCreate name maxMsgs maxAge st in
  wellFormed st'
  /\ queues st' !! name = Some ref
  /\ (forall r q, heap st !! r = Some q -> heap st' !! r = Some q)
  /\ (forall other, other <> name -> queues st' !! other = queues st !! other)
  /\ match queues st !! name with
     | Some r0 => ref = r0 /\ st' = st
     | None => heap st !! ref = None
               /\ heap st' !! ref = Some (Memory.create (Some name) maxMsgs maxAge)
     end.
Proof.
  intros [Hreg Hfree]. unfold getOrCreate, getQueue.
  destruct (queues st !! name) as [r0|] eqn:Hname.
  - repeat split; try assumption; auto.
  - unfold alloc, registerQueue, wellFormed. cbn [heap queues nextRef].
    assert (Hnew : heap st !! nextRef st = None) by (apply Hfree; lia).
    repeat split.
    + intros n r Hn. destruct (decide (n = name)) as [->|Hne].
      * rewrite lookup_insert_eq in Hn. injection Hn as <-.
        rewrite lookup_insert_eq. eauto.
      * rewrite lookup_insert_ne in Hn by congruence.
        destruct (Hreg n r Hn) as [q Hq]. exists q.
        rewrite lookup_insert_ne; [exact Hq|]. intros <-. congruence.
    + intros r Hr. rewrite lookup_insert_ne by lia. apply Hfree. lia.
    + apply lookup_insert_eq.
    + intros r q Hq. rewrite lookup_insert_ne; [exact Hq|]. intros <-. congruence.
    + intros other Hne. apply lookup_insert_ne. congruence.
    + exact Hnew.
    + apply lookup_insert_eq.
Qed.

(** X17.  Producers and consumers meet through the registry.  On a
    well-formed store, a producer and a consumer configured with the same
    queue name (or both with none: 'default') hold, once connected, the same
    queue object.  If the producer connects first and the name was not yet
    registered, the queue has the limits of the producer's configuration;
    creating and connecting the consumer leaves the object as it is,
    whatever limits the consumer's configuration asks for. *)
Theorem connect_shares_queue (cp cc : MemoryQueueConfig) (st : Store B) :
  wellFormed st ->
  Backoff.orDefault (MemoryAdapters.queueName cp) "default"%string
  = Backoff.orDefault (MemoryAdapters.queueName cc) "default"%string ->
  let '(p, st1) := connectProducer (newProducer cp) st in
  let '(c0, st2) := newConsumer cc st1 in
  let '(c, st3) := connectConsumer c0 st2 in
  exists ref q,
    p_queue p = Some ref /\ queue c = Some ref
    /\ heap st1 !! ref = Some q /\ heap st3 !! ref = Some q
    /\ getQueue (Backoff.orDefault (MemoryAdapters.queueName cp) "default"%string) st3 = Some ref
    /\ wellFormed st3
    /\ (getQueue (Backoff.orDefault (MemoryAdapters.queueName cp) "default"%string) st = None ->
        q = Memory.create (Some (Backoff.orDefault (MemoryAdapters.queueName cp) "default"%string))
                          (MemoryAdapters.maxMessages cp) (MemoryAdapters.maxAgeMs cp)).
Proof.
  intros Hwf Hname.
  set (name := Backoff.orDefault (MemoryAdapters.queueName cp) "default"%string) in *.
  unfold connectProducer, newProducer.
  cbn [p_adapter Adapter.create Adapter._connected p_queueName p_config].
  fold name.
  pose proof (getOrCreate_spec name (MemoryAdapters.maxMessages cp) (MemoryAdapters.maxAgeMs cp) st Hwf) as H1.
  destruct (getOrCreate name (MemoryAdapters.maxMessages cp) (MemoryAdapters.maxAgeMs cp) st) as [ref st1].
  destruct H1 as (Hwf1 & Hreg1 & Hkeep1 & _ & Hcase1).
  assert (Hq : exists q, heap st1 !! ref = Some q
                         /\ (getQueue name st = None ->
                             q = Memory.create (Some name) (MemoryAdapters.maxMessages cp) (MemoryAdapters.maxAgeMs cp))).
  { unfold getQueue. destruct (queues st !! name) as [r0|] eqn:E.
    - destruct Hcase1 as [-> ->]. destruct (proj1 Hwf name r0 E) as [q Hq'].
      exists q. split; [exact Hq' | discriminate].
    - destruct Hcase1 as [_ Hnew]. eexists. split; [exact Hnew | reflexivity]. }
  destruct Hq as (q & Hq1 & Hfresh).
  (* the consumer's constructor may create its dead-letter queue *)
  assert (Hcons : let '(c0, st2) := newConsumer cc st1 in
                  wellFormed st2 /\ queues st2 !! name = Some ref
                  /\ heap st2 !! ref = Some q
                  /\ c_queueName c0 = name /\ Adapter._connected (c_adapter c0) = false).
  { unfold newConsumer. rewrite <- Hname.
    destruct (deadLetterQueue cc) as [dl|];
      [|exact (conj Hwf1 (conj Hreg1 (conj Hq1 (conj eq_refl eq_refl))))].
    destruct (enabled dl);
      [|exact (conj Hwf1 (conj Hreg1 (conj Hq1 (conj eq_refl eq_refl))))].
    set (dlqName := Backoff.orDefault (destination dl) (name ++ "-dlq")%string).
    pose proof (getOrCreate_spec dlqName None None st1 Hwf1) as H2.
    destruct (getOrCreate dlqName None None st1) as [dref st2].
    destruct H2 as (Hwf2 & Hreg2 & Hkeep2 & Hother2 & Hcase2).
    cbn [c_queueName c_adapter Adapter.create Adapter._connected].
    refine (conj Hwf2 (conj _ (conj (Hkeep2 _ _ Hq1) (conj eq_refl eq_refl)))).
    destruct (decide (name = dlqName)) as [Heq|Hne].
    - rewrite <- Heq in *. rewrite Hreg1 in Hcase2. destruct Hcase2 as [-> ->].
      exact Hreg1.
    - rewrite Hother2 by exact Hne. exact Hreg1. }
  destruct (newConsumer cc st1) as [c0 st2].
  destruct Hcons as (Hwf2 & Hreg2 & Hq2 & Hcn & Hconn).
  unfold connectConsumer. rewrite Hconn, Hcn.
  pose proof (getOrCreate_spec name (MemoryAdapters.maxMessages (c_config c0)) (MemoryAdapters.maxAgeMs (c_config c0))
                st2 Hwf2) as H3.
  destruct (getOrCreate name (MemoryAdapters.maxMessages (c_config c0)) (MemoryAdapters.maxAgeMs (c_config c0)) st2)
    as [ref3 st3].
  destruct H3 as (Hwf3 & Hreg3 & Hkeep3 & _ & Hcase3).
  rewrite Hreg2 in Hcase3. destruct Hcase3 as [-> ->].
  exists ref, q. cbn [p_queue queue].
  exact (conj eq_refl (conj eq_refl (conj Hq1 (conj Hq2 (conj Hreg2 (conj Hwf2 Hfresh)))))).
Qed.

(** ** From publish to the handler *)

Ltac zbool :=
  match goal with
  | |- true = _ => symmetry
  | |- false = _ => symmetry
  | _ => idtac
  end;
  rewrite ?Z.geb_leb, ?Z.gtb_ltb;
  first [apply Z.leb_le | apply Z.leb_gt | apply Z.ltb_lt | apply Z.ltb_ge]; lia.

Lemma cleanup_nil now q : messages q = [] -> cleanup now q = q.
Proof.
  intros Hm. unfold cleanup. destruct (Memory.maxAgeMs q <=? 0); [reflexivity|].
  rewrite Hm. cbn [List.filter]. rewrite <- Hm. destruct q; reflexivity.
Qed.

Lemma enqueue_empty (body : B) key hd now r q :
  messages q = [] ->
  enqueue body key hd now r q
  = (generateMessageId now r,
     setMessages [mkStored (generateMessageId now r) body key (Backoff.orDefault hd ∅) now 0
                           false false false] q).
Proof.
  intros Hm. unfold enqueue. rewrite (cleanup_nil now q Hm). cbv zeta.
  cbn [messages setMessages Memory.maxMessages]. rewrite Hm. cbn [List.app List.length].
  destruct (Z.gtb_spec (Memory.maxMessages q) 0) as [Hpos|Hnpos]; cbn [andb]; [|reflexivity].
  replace (Z.of_nat 1 >? Memory.maxMessages q) with false by zbool. reflexivity.
Qed.

(** X18.  A message published by a connected producer is the message the
    next poll of a subscribed consumer of the same queue hands to the
    handler (the queue being empty before, and the message not expired): the
    envelope carries the id [publish] returned, the body, key and headers
    that were published, the time of publication and deliveryAttempt 1.
    When the handler returns normally, the queue is empty afterwards; with
    autoAck the message is acknowledged and no longer in flight, without
    autoAck it stays in flight. *)
Theorem publish_then_poll_delivers (p : MemoryProducer) (c : MemoryConsumer)
    (handler : MessageHandler B) (autoAck : bool) (body : B)
    (options : option PublishOptions) (w : World (Store B)) (now : Z) (r : Q)
    (ref : Ref) (q : MemoryQueue B) :
  p_queue p = Some ref -> queue c = Some ref -> running c = true -> _paused c = false ->
  heap (user w) !! ref = Some q -> messages q = [] ->
  (Memory.maxAgeMs q <= 0 \/ now - clock w < Memory.maxAgeMs q) ->
  (forall msg, settles (handler msg) = [] /\ thrown (handler msg) = None) ->
  exists messageId w1 st' q',
    publish p body options w = (Ok messageId, w1)
    /\ (let msg := mkMessage messageId body (options ≫= o_key)
                             (Backoff.orDefault (options ≫= o_headers) ∅)
                             (clock w) 1 (c_queueName c) in
        poll c handler autoAck now r (user w1)
        = (st', EmitMessage msg
                :: (if autoAck then [Log LDebug "Message acknowledged" messageId None]
                    else [])))
    /\ heap st' !! ref = Some q' /\ messages q' = []
    /\ (if autoAck then processing q' !! messageId = None
        else is_Some (processing q' !! messageId)).
Proof.
  intros Hp Hc Hrun Hpaused Hq Hempty Hfresh Hhandler.
  set (messageId := generateMessageId (clock w) (rng w (rngIdx w))).
  set (stored := mkStored messageId body (options ≫= o_key)
                          (Backoff.orDefault (options ≫= o_headers) ∅) (clock w) 0
                          false false false).
  set (q1 := setMessages [stored] q).
  set (w1 := mkWorld (clock w) (rng w) (Datatypes.S (rngIdx w))
                     (trace w ++ [EvLog LDebug "Message published" None])
                     (update ref q1 (user w))).
  assert (Hpub : publish p body options w = (Ok messageId, w1)).
  { unfold publish. rewrite Hp. unfold bind at 1. unfold send, bind at 1, random.
    cbn [clock user rng rngIdx trace]. unfold call. rewrite Hq.
    rewrite (enqueue_empty body _ _ (clock w) (rng w (rngIdx w)) q Hempty).
    reflexivity. }
  set (delivered := bumpAttempt stored).
  set (q2 := setProcessing (<[messageId := delivered]> (processing q)) (setMessages [] q)).
  assert (Hdeq : dequeue now q1 = (Some delivered, q2)).
  { unfold dequeue, cleanup. subst q1. cbn [Memory.maxAgeMs setMessages messages].
    destruct (Z.leb_spec (Memory.maxAgeMs q) 0) as [Hle|Hgt].
    - reflexivity.
    - cbn [List.filter messages setMessages]. unfold fresh.
      cbn [timestamp stored Memory.maxAgeMs setMessages].
      destruct Hfresh as [H|H]; [lia|].
      replace (now - clock w <? Memory.maxAgeMs q) with true by zbool. reflexivity. }
  exists messageId, w1. rewrite Hpub.
  unfold poll. rewrite Hrun, Hpaused, Hc. unfold w1. cbn [negb orb user].
  unfold call at 1. cbn [heap update]. rewrite lookup_insert_eq, Hdeq.
  destruct (Hhandler (createWrappedMessage c delivered)) as [Hs Ht].
  rewrite Hs, Ht. cbn [settleAll].
  destruct autoAck.
  - cbn [settle]. rewrite Hc. unfold call. cbn [heap update]. rewrite lookup_insert_eq.
    unfold ack. cbn [processing q2 setProcessing id delivered bumpAttempt stored].
    rewrite lookup_insert_eq. cbn [snd].
    eexists _, _. split; [reflexivity|]. split; [reflexivity|].
    split; [cbn [heap update]; apply lookup_insert_eq|].
    split; [reflexivity|]. cbn [processing setProcessing]. apply lookup_delete_eq.
  - eexists _, _. split; [reflexivity|]. split; [reflexivity|].
    split; [cbn [heap update]; apply lookup_insert_eq|].
    split; [reflexivity|]. cbn [processing setProcessing q2].
    rewrite lookup_insert_eq. eauto.
Qed.

(** ** Batches *)

(** The enqueue calls of a batch published at clock reading [now]: the k-th
    entry uses the k-th random draw from index [i] on. *)
Fixpoint batchCalls (msgs : list (B * option PublishOptions)) (now : Z) (rnd : nat -> Q)
    (i : nat) : list (Enqueue B) :=
  match msgs with
  | [] => []
  | (body, options) :: rest =>
      mkEnqueue body (options ≫= o_key) (options ≫= o_headers) now (rnd i)
      :: batchCalls rest now rnd (Datatypes.S i)
  end.

Definition idOf (call : Enqueue B) : string := generateMessageId (e_now call) (e_rand call).

Lemma update_update (ref : Ref) (q1 q2 : MemoryQueue B) st :
  update ref q2 (update ref q1 st) = update ref q2 st.
Proof. unfold update. cbn [heap queues nextRef]. rewrite insert_insert_eq. reflexivity. Qed.

Lemma batchCalls_length msgs now rnd :
  forall i, List.length (batchCalls msgs now rnd i) = List.length msgs.
Proof.
  induction msgs as [|[body options] msgs IH]; intros i; [reflexivity|].
  cbn [batchCalls List.length]. rewrite IH. reflexivity.
Qed.

Lemma sendAll_spec (ref : Ref) (msgs : list (B * option PublishOptions)) :
  forall (w : World (Store B)) q,
    heap (user w) !! ref = Some q ->
    let calls := batchCalls msgs (clock w) (rng w) (rngIdx w) in
    sendAll ref msgs w
    = (Ok (List.map idOf calls),
       mkWorld (clock w) (rng w) (rngIdx w + List.length msgs)%nat (trace w)
               (update ref (enqueueAll calls q) (user w))).
Proof.
  induction msgs as [|[body options] msgs IH]; intros w q Hq; cbv zeta.
  - cbn [sendAll batchCalls List.map List.length enqueueAll fold_left]. unfold ret.
    rewrite update_same by exact Hq. rewrite Nat.add_0_r. destruct w; reflexivity.
  - cbn [sendAll batchCalls List.map List.length]. unfold bind at 1.
    unfold send at 1. unfold bind at 1. unfold random.
    cbn [clock user rng rngIdx trace]. unfold call. rewrite Hq.
    destruct (enqueue body (options ≫= o_key) (options ≫= o_headers) (clock w)
                      (rng w (rngIdx w)) q) as [messageId q1] eqn:Eenq.
    assert (Hid : messageId = generateMessageId (clock w) (rng w (rngIdx w))).
    { unfold enqueue in Eenq. cbv zeta in Eenq. injection Eenq as <- _. reflexivity. }
    assert (Hq1 : q1 = snd (enqueue body (options ≫= o_key) (options ≫= o_headers)
                                    (clock w) (rng w (rngIdx w)) q))
      by (rewrite Eenq; reflexivity).
    set (w1 := setUser (update ref q1 (user w))
                 (mkWorld (clock w) (rng w) (Datatypes.S (rngIdx w)) (trace w) (user w))).
    specialize (IH w1 q1). cbv zeta in IH.
    unfold bind at 1. rewrite IH by (cbn [w1 user setUser heap update]; apply lookup_insert_eq).
    unfold ret. cbn [w1 clock rng rngIdx trace user setUser].
    rewrite update_update. unfold idOf at 2. cbn [e_now e_rand].
    rewrite Hid. f_equal. f_equal; [lia|].
    cbn [enqueueAll fold_left e_body e_key e_headers e_now e_rand]. rewrite <- Hq1.
    reflexivity.
Qed.

Lemma enqueueAll_unbounded (calls : list (Enqueue B)) :
  forall q,
    Memory.maxAgeMs q <= 0 -> Memory.maxMessages q <= 0 ->
    List.map Memory.body (messages (enqueueAll calls q))
    = List.map Memory.body (messages q) ++ List.map e_body calls.
Proof.
  induction calls as [|c calls IH]; intros q Hage Hmax.
  - cbn. rewrite app_nil_r. reflexivity.
  - cbn [enqueueAll fold_left List.map].
    destruct (enqueue_messages (e_body c) (e_key c) (e_headers c) (e_now c) (e_rand c) q
                Hage) as (Hage' & Hmax' & _ & Hb).
    cbv zeta in Hage', Hmax', Hb.
    fold (enqueueAll calls (snd (enqueue (e_body c) (e_key c) (e_headers c) (e_now c)
                                         (e_rand c) q))).
    rewrite IH by lia. rewrite Hb.
    replace (Memory.maxMessages q >? 0) with false by zbool. cbn [andb].
    rewrite <- app_assoc. reflexivity.
Qed.

Lemma batchCalls_bodies msgs now rnd :
  forall i, List.map e_body (batchCalls msgs now rnd i) = List.map fst msgs.
Proof.
  induction msgs as [|[body options] msgs IH]; intros i; [reflexivity|].
  cbn [batchCalls List.map e_body fst]. rewrite IH. reflexivity.
Qed.

(** X19.  [publishBatch] is the sequence of the enqueues of its entries, in
    order, at one clock reading, each with its own random draw: it returns
    one id per entry, in order; on a queue without limits the bodies are
    appended in the order given; an empty batch changes nothing but the log.
    On a producer that is not connected it throws ConnectionError and
    nothing is stored. *)
Theorem publishBatch_sequence (p : MemoryProducer)
    (msgs : list (B * option PublishOptions)) (w : World (Store B)) :
  (p_queue p = None ->
   publishBatch p msgs w = (Throw (ConnectionError "Producer not connected"), w))
  /\
  (forall ref q,
     p_queue p = Some ref -> heap (user w) !! ref = Some q ->
     let calls := batchCalls msgs (clock w) (rng w) (rngIdx w) in
     let q' := enqueueAll calls q in
     exists w',
       publishBatch p msgs w = (Ok (List.map idOf calls), w')
       /\ List.length (List.map idOf calls) = List.length msgs
       /\ heap (user w') !! ref = Some q'
       /\ (forall other, other <> ref -> heap (user w') !! other = heap (user w) !! other)
       /\ queues (user w') = queues (user w)
       /\ (Memory.maxAgeMs q <= 0 -> Memory.maxMessages q <= 0 ->
           List.map Memory.body (messages q')
           = List.map Memory.body (messages q) ++ List.map fst msgs)
       /\ trace w' = trace w ++ [EvLog LDebug "Batch published" None]).
Proof.
  split.
  - intros Hp. unfold publishBatch. rewrite Hp. reflexivity.
  - intros ref q Hp Hq calls q'. unfold publishBatch. rewrite Hp.
    unfold bind at 1. rewrite (sendAll_spec ref msgs w q Hq). fold calls. fold q'.
    unfold bind, log, ret. eexists. split; [reflexivity|].
    cbn [user emit trace clock rng rngIdx heap update queues].
    split; [rewrite List.length_map; apply batchCalls_length|].
    split; [apply lookup_insert_eq|].
    split; [intros other Hne; apply lookup_insert_ne; congruence|].
    split; [reflexivity|]. split; [|reflexivity].
    intros Hage Hmax. unfold q'. rewrite enqueueAll_unbounded by assumption.
    unfold calls. rewrite batchCalls_bodies. reflexivity.
Qed.

(** ** A batch whose handler throws *)

Lemma inFlight_other (l : list (StoredMessage B)) :
  forall (p : gmap string (StoredMessage B)) (k : string),
    ~ In k (List.map id l) -> inFlight l p !! k = p !! k.
Proof.
  induction l as [|x l IH]; intros p k Hk; [reflexivity|].
  cbn [inFlight fold_left]. fold (inFlight l (<[id x := bumpAttempt x]> p)).
  rewrite IH by (intros H; apply Hk; right; exact H).
  apply lookup_insert_ne. intros Heq. apply Hk. left. exact Heq.
Qed.

Lemma inFlight_lookup (l : list (StoredMessage B)) :
  forall (p : gmap string (StoredMessage B)) (m : StoredMessage B),
    List.NoDup (List.map id l) -> In m l -> inFlight l p !! id m = Some (bumpAttempt m).
Proof.
  induction l as [|x l IH]; intros p m Hnd Hin; [destruct Hin|].
  cbn [List.map] in Hnd. inversion Hnd as [|? ? Hx Hnd']; subst.
  cbn [inFlight fold_left]. fold (inFlight l (<[id x := bumpAttempt x]> p)).
  destruct Hin as [-> | Hin].
  - rewrite inFlight_other by exact Hx. apply lookup_insert_eq.
  - apply IH; assumption.
Qed.

(** Nacking, in order, messages that are all in flight puts them back at
    the head one by one: the last one nacked ends up first. *)
Lemma settleEach_nack (c : MemoryConsumer) (ref : Ref) (l : list (StoredMessage B)) :
  queue c = Some ref ->
  forall st q,
    heap st !! ref = Some q -> List.NoDup (List.map id l) ->
    (forall m, In m l -> processing q !! id m = Some m) ->
    exists q',
      settleEach c (List.map (fun m => (id m, Nack true)) l) st
      = (update ref q' st,
         List.map (fun m => Log LDebug "Message nacked" (id m) None) l)
      /\ messages q' = rev (List.map markRequeued l) ++ messages q
      /\ (forall k, In k (List.map id l) -> processing q' !! k = None)
      /\ (forall k, ~ In k (List.map id l) -> processing q' !! k = processing q !! k).
Proof.
  intros Hc. induction l as [|m l IH]; intros st q Hq Hnd Hin.
  - exists q. cbn [List.map settleEach rev List.app]. rewrite update_same by exact Hq.
    repeat split. intros k [].
  - cbn [List.map] in Hnd. inversion Hnd as [|? ? Hm Hnd']; subst.
    cbn [List.map settleEach settle]. rewrite Hc. unfold call at 1. rewrite Hq.
    unfold nack at 1. rewrite (Hin m (or_introl eq_refl)). cbn [snd].
    set (q1 := setMessages (markRequeued m :: messages _) _).
    destruct (IH (update ref q1 st) q1) as (q' & Hrun & Hmsgs & Hgone & Hkept).
    { cbn [heap update]. apply lookup_insert_eq. }
    { exact Hnd'. }
    { intros m' Hm'. subst q1. cbn [processing setMessages setProcessing].
      rewrite lookup_delete_ne; [apply Hin; right; exact Hm'|].
      intros Heq. apply Hm. rewrite Heq. apply List.in_map. exact Hm'. }
    exists q'. rewrite Hrun, update_update. split; [reflexivity|]. split; [|split].
    + rewrite Hmsgs. subst q1. cbn [messages setMessages setProcessing rev].
      rewrite <- app_assoc. reflexivity.
    + intros k [<- | Hk]; [|apply Hgone; exact Hk].
      destruct (List.in_dec string_dec (id m) (List.map id l)) as [Hi|Hni];
        [apply Hgone; exact Hi|].
      rewrite Hkept by exact Hni. subst q1. cbn [processing setMessages setProcessing].
      apply lookup_delete_eq.
    + intros k Hk. rewrite Hkept by (intros H; apply Hk; right; exact H).
      subst q1. cbn [processing setMessages setProcessing].
      apply lookup_delete_ne. intros Heq. apply Hk. left. exact Heq.
Qed.

(** X20.  A batch whose handler throws (having settled nothing) is put
    back, not dead-lettered: every message of the batch is nacked with
    requeue, in the order of the batch, each going to the head of the
    queue, so the batch is stored again in reverse order, ahead of the
    messages that were not part of it; each has its deliveryAttempt
    incremented and is flagged as requeued, none stays in flight, and no
    other queue object (a dead-letter queue in particular) is touched,
    whatever maxDeliveryAttempts says. *)
Theorem failed_batch_requeued_reversed (c : MemoryConsumer)
    (handler : BatchMessageHandler B) (autoAck : bool) (batchSize now : Z)
    (st : Store B) (ref : Ref) (q : MemoryQueue B) (e : Error) :
  queue c = Some ref -> running c = true -> _paused c = false ->
  heap st !! ref = Some q ->
  let live := messages (cleanup now q) in
  let batch := take (Z.to_nat batchSize) live in
  let delivered := List.map bumpAttempt batch in
  batch <> [] -> List.NoDup (List.map id batch) ->
  b_settles (handler (List.map (createWrappedMessage c) delivered)) = [] ->
  b_thrown (handler (List.map (createWrappedMessage c) delivered)) = Some e ->
  exists st' q',
    pollBatch c handler autoAck batchSize now st
    = (st',
       [LogBatch LError "Error processing batch" (Z.of_nat (List.length batch));
        OfMessage (EmitError e)]
       ++ List.map (fun m => OfMessage (Log LDebug "Message nacked" (id m) None)) batch)
    /\ heap st' !! ref = Some q'
    /\ messages q' = rev (List.map markRequeued delivered)
                     ++ drop (Z.to_nat batchSize) live
    /\ (forall m, In m batch -> processing q' !! id m = None)
    /\ (forall other, other <> ref -> heap st' !! other = heap st !! other).
Proof.
  intros Hc Hrun Hpaused Hq. cbv zeta.
  remember (messages (cleanup now q)) as live eqn:El.
  remember (take (Z.to_nat batchSize) live) as batch eqn:Eb.
  intros Hne Hnd Hs Ht.
  unfold pollBatch. rewrite Hrun, Hpaused, Hc. cbn [negb orb].
  unfold call. rewrite Hq. unfold dequeueBatch.
  pose proof (dequeueLoop_spec (Z.to_nat batchSize) now (cleanup now q) (cleanup_idem now q))
    as Hloop.
  destruct (dequeueLoop (Z.to_nat batchSize) now (cleanup now q)) as [out q1].
  destruct Hloop as (Hout & Hmsgs & Hproc & _).
  rewrite <- El in Hout, Hmsgs, Hproc. rewrite <- Eb in Hout, Hproc. subst out.
  assert (Hdid : List.map id (List.map bumpAttempt batch) = List.map id batch).
  { rewrite List.map_map. reflexivity. }
  destruct (settleEach_nack c ref (List.map bumpAttempt batch) Hc (update ref q1 st) q1)
    as (q' & Hrun' & Hmsgs' & Hgone & _).
  { cbn [heap update]. apply lookup_insert_eq. }
  { rewrite Hdid. exact Hnd. }
  { intros m Hm. apply List.in_map_iff in Hm.
    destruct Hm as (x & <- & Hx). rewrite Hproc.
    change (id (bumpAttempt x)) with (id x). apply inFlight_lookup; assumption. }
  assert (Hids : List.map (fun m => (m_id m, Nack true))
                          (List.map (createWrappedMessage c) (List.map bumpAttempt batch))
                 = List.map (fun m => (id m, Nack true)) (List.map bumpAttempt batch)).
  { rewrite (List.map_map (createWrappedMessage c)). reflexivity. }
  assert (Hnotes : List.map (fun m => @Log B LDebug "Message nacked" (id m) None)
                            (List.map bumpAttempt batch)
                   = List.map (fun m => @Log B LDebug "Message nacked" (id m) None) batch).
  { rewrite List.map_map. reflexivity. }
  exists (update ref q' st), q'. split; [|split; [|split; [|split]]].
  - assert (Hcons : exists d0 drest, List.map bumpAttempt batch = d0 :: drest).
    { destruct batch as [|b0 brest]; [congruence|]. cbn [List.map]. eauto. }
    destruct Hcons as (d0 & drest & Hcons).
    rewrite Hcons. cbv iota. rewrite <- Hcons.
    rewrite Hs, Ht.
    change (settleEach c [] (update ref q1 st)) with (update ref q1 st, @nil (Note B)).
    cbv iota beta. rewrite Hids, Hrun', update_update.
    f_equal. cbn [List.app List.map]. rewrite !List.length_map.
    f_equal. f_equal. rewrite Hnotes, List.map_map. reflexivity.
  - cbn [heap update]. apply lookup_insert_eq.
  - rewrite Hmsgs', Hmsgs. reflexivity.
  - intros m Hm. apply Hgone. rewrite Hdid. apply List.in_map. exact Hm.
  - intros other Hother. cbn [heap update]. apply lookup_insert_ne. congruence.
Qed.

(** ** Life cycle *)

(** X21.  [disconnect()] detaches the producer, it does not destroy the
    queue: afterwards [publish] and [publishBatch] throw ConnectionError
    ('Producer not connected') and store nothing, a second [disconnect()]
    does nothing, and [connect()] attaches the producer to the very queue
    object it had, messages included, as long as the name is still
    registered. *)
Theorem producer_lifecycle (p : MemoryProducer) (ref : Ref) (st : Store B) (body : B)
    (options : option PublishOptions) (msgs : list (B * option PublishOptions))
    (w : World (Store B)) :
  p_queue p = Some ref -> Adapter._connected (p_adapter p) = true ->
  getQueue (p_queueName p) st = Some ref ->
  let p' := disconnectProducer p in
  publish p' body options w = (Throw (ConnectionError "Producer not connected"), w)
  /\ publishBatch p' msgs w = (Throw (ConnectionError "Producer not connected"), w)
  /\ disconnectProducer p' = p'
  /\ (let '(p'', st') := connectProducer p' st in
      p_queue p'' = Some ref /\ st' = st
      /\ Adapter._connected (p_adapter p'') = true).
Proof.
  intros Hq Hconn Hreg. unfold disconnectProducer. rewrite Hconn. cbv zeta.
  split; [reflexivity|]. split; [reflexivity|]. split; [reflexivity|].
  unfold connectProducer. cbn [p_adapter Adapter.setConnected Adapter._connected
                               p_queueName p_config].
  unfold getOrCreate. rewrite Hreg. repeat split.
Qed.

(** ** Clearing the registry *)

Lemma clearAll_heap (st : Store B) (ref : Ref) :
  ((exists name, queues st !! name = Some ref) ->
   heap (clearAllQueues st) !! ref = clear <$> heap st !! ref)
  /\ ((forall name, queues st !! name <> Some ref) ->
      heap (clearAllQueues st) !! ref = heap st !! ref).
Proof.
  unfold clearAllQueues. cbn [heap].
  apply (map_fold_weak_ind
           (fun h (m : gmap string Ref) =>
              ((exists name, m !! name = Some ref) -> h !! ref = clear <$> heap st !! ref)
              /\ ((forall name, m !! name <> Some ref) -> h !! ref = heap st !! ref))).
  - split.
    + intros [name H]. rewrite lookup_empty in H. discriminate.
    + reflexivity.
  - intros name r m h Hfresh [IH1 IH2]. split.
    + intros [n Hn]. destruct (decide (r = ref)) as [->|Hne].
      * rewrite lookup_alter_eq.
        assert (Hdec : (exists name', m !! name' = Some ref)
                       \/ (forall name', m !! name' <> Some ref)).
        { destruct (decide (map_Exists (fun _ x => x = ref) m)) as [Hex|Hnex].
          - left. destruct Hex as (k & x & Hk & ->). eauto.
          - right. intros k Hk. apply Hnex. exists k, ref. split; [exact Hk | reflexivity]. }
        destruct Hdec as [Hex|Hnex].
        -- rewrite IH1 by exact Hex. destruct (heap st !! ref); reflexivity.
        -- rewrite IH2 by exact Hnex. reflexivity.
      * rewrite lookup_alter_ne by exact Hne. apply IH1.
        exists n. destruct (decide (n = name)) as [->|Hnn].
        -- rewrite lookup_insert_eq in Hn. congruence.
        -- rewrite lookup_insert_ne in Hn by congruence. exact Hn.
    + intros Hnone. assert (Hr : r <> ref).
      { intros ->. apply (Hnone name). apply lookup_insert_eq. }
      rewrite lookup_alter_ne by exact Hr. apply IH2.
      intros n Hn. apply (Hnone n).
      rewrite lookup_insert_ne; [exact Hn|]. intros <-. congruence.
Qed.

(** X22.  [clearAllQueues()] empties every registered queue (stored and
    in-flight messages) and forgets all names, and [unregisterQueue(name)]
    forgets one name and reports whether it was registered; neither
    destroys a queue object.  After either, whoever still holds the object
    keeps using it, while the next [connect()] under that name creates a
    different, new queue: the two no longer meet. *)
Theorem registry_forgets (st : Store B) (name : string) (ref : Ref) (q : MemoryQueue B)
    (maxMsgs maxAge : option Z) :
  wellFormed st -> getQueue name st = Some ref -> heap st !! ref = Some q ->
  (let st' := clearAllQueues st in
   (forall n, getQueue n st' = None)
   /\ heap st' !! ref = Some (clear q)
   /\ (let '(ref2, st2) := getOrCreate name maxMsgs maxAge st' in
       ref2 <> ref /\ heap st2 !! ref = Some (clear q)
       /\ heap st2 !! ref2 = Some (Memory.create (Some name) maxMsgs maxAge)))
  /\
  (let '(was, st') := unregisterQueue name st in
   was = true /\ getQueue name st' = None
   /\ (forall n, n <> name -> getQueue n st' = getQueue n st)
   /\ heap st' = heap st
   /\ fst (unregisterQueue name st') = false
   /\ (let '(ref2, st2) := getOrCreate name maxMsgs maxAge st' in
       ref2 <> ref /\ heap st2 !! ref = Some q)).
Proof.
  intros [Hreg Hfree] Hname Hq. unfold getQueue in *.
  assert (Hlt : (ref < nextRef st)%nat).
  { destruct (Nat.lt_ge_cases ref (nextRef st)) as [H|H]; [exact H|].
    pose proof (eq_trans (eq_sym Hq) (Hfree ref H)) as Habs. discriminate Habs. }
  split.
  - cbv zeta.
    assert (Hcl : heap (clearAllQueues st) !! ref = Some (clear q)).
    { rewrite (proj1 (clearAll_heap st ref)) by eauto. rewrite Hq. reflexivity. }
    split; [intros n; apply lookup_empty|]. split; [exact Hcl|].
    unfold getOrCreate, getQueue. cbn [clearAllQueues queues].
    rewrite lookup_empty. unfold alloc, registerQueue. cbn [heap nextRef queues].
    change (nextRef (clearAllQueues st)) with (nextRef st).
    split; [lia|]. split.
    + rewrite lookup_insert_ne by lia. exact Hcl.
    + apply lookup_insert_eq.
  - unfold unregisterQueue. rewrite Hname. cbn [queues heap nextRef fst].
    split; [reflexivity|]. split; [apply lookup_delete_eq|].
    split; [intros n Hn; apply lookup_delete_ne; congruence|].
    split; [reflexivity|]. split; [rewrite lookup_delete_eq; reflexivity|].
    unfold getOrCreate, getQueue. cbn [queues]. rewrite lookup_delete_eq.
    unfold alloc, registerQueue. cbn [heap nextRef queues].
    split; [lia|]. rewrite lookup_insert_ne by lia. exact Hq.
Qed.

End Store.

(** ** Instances *)

(** The producer of the resilience scenario, a consumer of the same queue,
    and a handler that returns normally. *)
Definition orders : Store string := snd AdapterFacts.producerUp.

Definition ordersConsumer : MemoryConsumer :=
  let '(c0, st) := newConsumer AdapterFacts.breakerOn orders in
  startRunning (fst (connectConsumer c0 st)).

Definition accepting : MessageHandler string := fun _ => mkRun [] None 5.

Lemma orders_wellFormed : wellFormed orders.
Proof.
  pose proof (getOrCreate_spec "orders" None None (emptyStore (B:=string))
                wellFormed_empty) as H.
  change orders with (snd (getOrCreate "orders" None None (emptyStore (B:=string)))).
  destruct (getOrCreate "orders" None None emptyStore) as [ref st]. apply H.
Qed.

Lemma connect_shares_queue_witness :
  let '(p, st1) := connectProducer (newProducer Scenario.config) (emptyStore (B:=string)) in
  let '(c0, st2) := newConsumer Scenario.config st1 in
  let '(c, st3) := connectConsumer c0 st2 in
  exists ref q,
    p_queue p = Some ref /\ queue c = Some ref
    /\ heap st1 !! ref = Some q /\ heap st3 !! ref = Some q
    /\ getQueue (Backoff.orDefault (MemoryAdapters.queueName Scenario.config)
                                   "default"%string) st3 = Some ref
    /\ wellFormed st3
    /\ (getQueue (Backoff.orDefault (MemoryAdapters.queueName Scenario.config)
                                    "default"%string) (emptyStore (B:=string)) = None ->
        q = Memory.create (Some (Backoff.orDefault (MemoryAdapters.queueName Scenario.config)
                                                   "default"%string))
                          (MemoryAdapters.maxMessages Scenario.config)
                          (MemoryAdapters.maxAgeMs Scenario.config)).
Proof.
  apply (connect_shares_queue Scenario.config Scenario.config emptyStore
           wellFormed_empty eq_refl).
Defined.

Lemma publish_then_poll_delivers_witness :
  exists messageId w1 st' q',
    publish AdapterFacts.producer "order-1"%string None AdapterFacts.world0
    = (Ok messageId, w1)
    /\ poll ordersConsumer accepting true 1010 (1 # 5) (user w1)
       = (st', [EmitMessage (mkMessage messageId "order-1"%string None ∅ 1000 1 "orders");
                Log LDebug "Message acknowledged" messageId None])
    /\ heap st' !! 0%nat = Some q' /\ messages q' = []
    /\ processing q' !! messageId = None.
Proof.
  apply (publish_then_poll_delivers AdapterFacts.producer ordersConsumer accepting true
           "order-1"%string None AdapterFacts.world0 1010 (1 # 5) 0%nat
           (Memory.create (Some "orders"%string) None None));
    try reflexivity.
  - left. vm_compute. discriminate.
  - intros msg. split; reflexivity.
Defined.

Lemma publishBatch_sequence_witness :
  exists w',
    publishBatch AdapterFacts.producer [("a"%string, None); ("b"%string, None)]
                 AdapterFacts.world0
    = (Ok ["1000-0-c"; "1000-0-c"]%string, w')
    /\ (List.map body <$> (messages <$> heap (user w') !! 0%nat))
       = Some ["a"; "b"]%string.
Proof.
  destruct (proj2 (publishBatch_sequence AdapterFacts.producer
                     [("a"%string, None); ("b"%string, None)] AdapterFacts.world0)
                  0%nat (Memory.create (Some "orders"%string) None None)
                  eq_refl ltac:(reflexivity))
    as (w' & Hrun & _ & Hheap & _).
  exists w'. split; [exact Hrun|].
  match type of Hheap with
  | _ = ?rhs => assert (Hh : heap (user w') !! 0%nat = rhs) by exact Hheap
  end.
  rewrite Hh. cbn [fmap option_fmap option_map]. f_equal.
Defined.

(** A consumer of the queue [sample], which holds a, b and c, and a batch
    handler that throws. *)
Definition sampleStore : Store string :=
  mkStore {[ 0%nat := sample ]} {[ "sample"%string := 0%nat ]} 1%nat.

Definition sampleConsumer : MemoryConsumer :=
  mkConsumer (Adapter.create (Adapter.mkBaseConfig None None))
             (mkMemoryConfig (Adapter.mkBaseConfig None None) (Some "sample"%string) None
                             (Some 1200) None)
             (Some 0%nat) None "sample" 3 true false.

Definition rejecting : BatchMessageHandler string :=
  fun _ => mkBatchRun [] (Some (newError "batch failed")) 0.

Lemma failed_batch_requeued_reversed_witness :
  exists st' q',
    fst (pollBatch sampleConsumer rejecting true 2 2100 sampleStore) = st'
    /\ heap st' !! 0%nat = Some q'
    /\ List.map body (messages q') = ["b"; "a"; "c"]%string
    /\ List.map deliveryAttempt (messages q') = [1; 1; 0]
    /\ List.map requeued (messages q') = [true; true; false].
Proof.
  destruct (failed_batch_requeued_reversed sampleConsumer rejecting true 2 2100 sampleStore
              0%nat sample (newError "batch failed") eq_refl eq_refl eq_refl eq_refl)
    as (st' & q' & Hrun & Hheap & Hmsgs & _).
  - vm_compute. discriminate.
  - vm_compute.
    repeat (constructor;
            [intros H; repeat (destruct H as [H|H]; [discriminate H|]); exact H|]).
    constructor.
  - reflexivity.
  - reflexivity.
  - exists st', q'. rewrite Hrun. split; [reflexivity|]. split; [exact Hheap|].
    rewrite Hmsgs. repeat split; vm_compute; reflexivity.
Defined.

Lemma producer_lifecycle_witness :
  publish (disconnectProducer AdapterFacts.producer) "order-1"%string None
          AdapterFacts.world0
  = (Throw (ConnectionError "Producer not connected"), AdapterFacts.world0)
  /\ (let '(p'', st') := connectProducer (disconnectProducer AdapterFacts.producer) orders in
      p_queue p'' = Some 0%nat /\ st' = orders
      /\ Adapter._connected (p_adapter p'') = true).
Proof.
  destruct (producer_lifecycle AdapterFacts.producer 0%nat orders "order-1"%string None []
              AdapterFacts.world0 eq_refl eq_refl eq_refl) as (H1 & _ & _ & H2).
  split; [exact H1 | exact H2].
Defined.

Lemma registry_forgets_witness :
  (forall n, getQueue n (clearAllQueues orders) = None)
  /\ (size <$> heap (clearAllQueues orders) !! 0%nat) = Some 0
  /\ fst (getOrCreate "orders" None None (clearAllQueues orders)) <> 0%nat.
Proof.
  destruct (registry_forgets orders "orders" 0%nat
              (Memory.create (Some "orders"%string) None None) None None
              orders_wellFormed eq_refl ltac:(reflexivity)) as [(H1 & H2 & H3) _].
  split; [exact H1|]. split.
  { match type of H2 with
    | _ = ?rhs => assert (Hh : heap (clearAllQueues orders) !! 0%nat = rhs) by exact H2
    end.
    rewrite Hh. reflexivity. }
  destruct (getOrCreate "orders" None None (clearAllQueues orders)) as [ref2 st2].
  apply H3.
Defined.

End MemoryLaws.

(* ===================================================================== *)
(** * Further properties of the JSON serializer *)
(* ===================================================================== *)

Module JsonLaws.
Import Js Json JsonFacts.

(** ** Decimal numerals *)

Lemma sequence_none (steps : list (list ascii -> option (list ascii))) :
  fold_left (fun acc step => match acc with Some rest => step rest | None => None end)
            steps None = None.
Proof. induction steps as [|s steps IH]; [reflexivity | exact IH]. Qed.

Lemma pretty_N_char_digit (x : N) : isDigit (pretty_N_char x) = true.
Proof. unfold pretty_N_char. repeat case_match; reflexivity. Qed.

Lemma pretty_N_go_digits (x : N) :
  forall s : string,
    forallb isDigit (list_ascii_of_string s) = true ->
    forallb isDigit (list_ascii_of_string (pretty_N_go x s)) = true.
Proof.
  induction (N.lt_wf_0 x) as [x _ IH]; intros s Hs.
  destruct (N.eq_dec x 0) as [->|Hx].
  - rewrite pretty_N_go_0. exact Hs.
  - rewrite pretty_N_go_step by lia. apply IH.
    + apply N.div_lt; lia.
    + cbn [list_ascii_of_string forallb]. rewrite pretty_N_char_digit. exact Hs.
Qed.

(** The decimal numeral of a non-negative integer consists of digits. *)
Lemma pretty_digits (n : Z) :
  0 <= n -> forallb isDigit (list_ascii_of_string (stdpp.pretty.pretty n)) = true.
Proof.
  intros Hn. destruct n as [|p|p]; [reflexivity| |lia].
  unfold stdpp.pretty.pretty, pretty_Z, stdpp.pretty.pretty, pretty_positive,
    stdpp.pretty.pretty, pretty_N.
  destruct (decide (N.pos p = 0%N)); [reflexivity|].
  apply pretty_N_go_digits. reflexivity.
Qed.

(** No decimal numeral looks like an ISO date. *)
Lemma numeral_not_iso (n : Z) : isoDateRegex (stdpp.pretty.pretty n) = false.
Proof.
  assert (Hdigits : forall l, forallb isDigit l = true ->
            match digits 4 l with
            | Some rest => lit "-"%char rest = None
            | None => True
            end).
  { intros l. generalize 4%nat. intros k. revert l.
    induction k as [|k IH]; intros l Hl; cbn [digits].
    - destruct l as [|c l]; [reflexivity|]. cbn [lit forallb] in *.
      apply andb_prop in Hl. destruct Hl as [Hc _].
      destruct (Ascii.eqb_spec c "-"%char) as [->|_]; [discriminate Hc | reflexivity].
    - destruct l as [|c l]; [exact I|]. cbn [forallb] in Hl.
      apply andb_prop in Hl. destruct Hl as [Hc Hl]. rewrite Hc. apply IH. exact Hl. }
  unfold isoDateRegex, sequence. cbn [fold_left].
  destruct n as [|p|p].
  - reflexivity.
  - specialize (Hdigits (list_ascii_of_string (stdpp.pretty.pretty (Z.pos p)))
                        (pretty_digits (Z.pos p) ltac:(lia))).
    destruct (digits 4 (list_ascii_of_string (stdpp.pretty.pretty (Z.pos p)))) as [rest|].
    + rewrite Hdigits. reflexivity.
    + reflexivity.
  - unfold stdpp.pretty.pretty, pretty_Z. cbn [String.append list_ascii_of_string digits isDigit].
    reflexivity.
Qed.

(** ** Objects in enumeration order *)

Section Enumerated.
Context {A : Type}.

(** No name occurs twice. *)
Fixpoint distinct (props : list (string * A)) : bool :=
  match props with
  | [] => true
  | m :: rest => negb (existsb (fun m' => String.eqb (fst m') (fst m)) rest) && distinct rest
  end.

(** Array indices above [lo] come first, in ascending order, and no array
    index follows another name. *)
Fixpoint ascending (lo : Z) (props : list (string * A)) : bool :=
  match props with
  | [] => true
  | m :: rest =>
      match arrayIndex (fst m) with
      | Some n => (lo <? n) && ascending n rest
      | None => forallb named rest
      end
  end.

(** The list is the list of own properties of an object, as the engine
    enumerates them. *)
Definition enumerated (props : list (string * A)) : bool :=
  distinct props && ascending (-1) props.

Lemma defineProperty_new (k : string) (x : A) (l : list (string * A)) :
  existsb (fun m' => String.eqb (fst m') k) l = false ->
  defineProperty k x l = l ++ [(k, x)].
Proof.
  induction l as [|[k' x'] l IH]; cbn [existsb defineProperty fst List.app]; [reflexivity|].
  intros H. apply orb_false_elim in H. destruct H as [Hk Hl].
  rewrite Hk, (IH Hl). reflexivity.
Qed.

Lemma created_distinct (l : list (string * A)) :
  forall acc : list (string * A),
    distinct (acc ++ l) = true ->
    fold_left (fun acc m => defineProperty (fst m) (snd m) acc) l acc = acc ++ l.
Proof.
  induction l as [|[k x] l IH]; intros acc Hd; cbn [fold_left fst snd].
  - rewrite app_nil_r. reflexivity.
  - assert (Hnew : existsb (fun m' => String.eqb (fst m') k) acc = false).
    { clear IH. induction acc as [|[k' x'] acc IHacc]; [reflexivity|].
      cbn [List.app distinct fst] in Hd. apply andb_prop in Hd. destruct Hd as [Hk Hd].
      cbn [existsb fst]. rewrite (IHacc Hd), orb_false_r.
      apply negb_true_iff in Hk. rewrite existsb_app in Hk.
      apply orb_false_elim in Hk. destruct Hk as [_ Hk]. cbn [existsb fst] in Hk.
      apply orb_false_elim in Hk. destruct Hk as [Hk _].
      rewrite String.eqb_sym. exact Hk. }
    rewrite (defineProperty_new k x acc Hnew), IH.
    + rewrite <- app_assoc. reflexivity.
    + rewrite <- app_assoc. exact Hd.
Qed.

Lemma named_only (l : list (string * A)) :
  forallb named l = true -> indexed l = [] /\ List.filter named l = l.
Proof.
  induction l as [|m l IH]; cbn [forallb indexed List.filter]; [split; reflexivity|].
  intros H. apply andb_prop in H. destruct H as [Hm Hl]. destruct (IH Hl) as [Hi Hf].
  rewrite Hm, Hf. unfold named in Hm. destruct (arrayIndex (fst m)); [discriminate|].
  split; [exact Hi | reflexivity].
Qed.

Lemma insertByIndex_above (lo n : Z) (m : string * A) (l : list (Z * (string * A))) :
  lo < n -> Forall (fun e => lo < fst e) l ->
  Forall (fun e => lo < fst e) (insertByIndex n m l).
Proof.
  intros Hn. induction 1 as [|[n' m'] l Hn' Hl IH]; cbn [insertByIndex].
  - constructor; [exact Hn | constructor].
  - destruct (n <? n').
    + constructor; [exact Hn|]. constructor; assumption.
    + constructor; assumption.
Qed.

Lemma ascending_indexed (l : list (string * A)) :
  forall lo,
    ascending lo l = true ->
    Forall (fun e => lo < fst e) (indexed l)
    /\ List.map snd (indexed l) ++ List.filter named l = l.
Proof.
  induction l as [|m l IH]; intros lo; cbn [ascending indexed List.filter].
  - intros _. split; [constructor | reflexivity].
  - unfold named at 2. destruct (arrayIndex (fst m)) as [n|] eqn:En.
    + intros H. apply andb_prop in H. destruct H as [Hlo Hl].
      apply Z.ltb_lt in Hlo. destruct (IH n Hl) as [Habove Hsame].
      assert (Hins : insertByIndex n m (indexed l) = (n, m) :: indexed l).
      { destruct (indexed l) as [|[n' m'] rest] eqn:E; [reflexivity|].
        cbn [insertByIndex]. inversion Habove as [|? ? Hn' _]; subst. cbn [fst] in Hn'.
        replace (n <? n') with true by (symmetry; apply Z.ltb_lt; exact Hn').
        reflexivity. }
      rewrite Hins. split.
      * constructor; [exact Hlo|].
        eapply List.Forall_impl; [|exact Habove]. cbn. intros e He. lia.
      * cbn [List.map snd List.app]. rewrite Hsame. reflexivity.
    + intros Hl. destruct (named_only l Hl) as [Hi Hf]. rewrite Hi, Hf.
      split; [constructor | reflexivity].
Qed.

(** Parsing the members of an object that is already in enumeration order
    gives the same properties, in the same order. *)
Lemma ownProperties_enumerated (l : list (string * A)) :
  enumerated l = true -> ownProperties l = l.
Proof.
  unfold enumerated. intros H. apply andb_prop in H. destruct H as [Hd Ha].
  unfold ownProperties, created. cbv zeta.
  rewrite (created_distinct l [] Hd). cbn [List.app].
  apply (ascending_indexed l (-1) Ha).
Qed.

End Enumerated.

Lemma enumerated_map {A A'} (g : string * A -> A') (l : list (string * A)) :
  enumerated (List.map (fun m => (fst m, g m)) l) = enumerated l.
Proof.
  assert (Hex : forall (k : string) (l : list (string * A)),
            existsb (fun m' : string * A' => String.eqb (fst m') k)
                    (List.map (fun m => (fst m, g m)) l)
            = existsb (fun m' : string * A => String.eqb (fst m') k) l).
  { intros k l0. induction l0 as [|m l0 IH]; [reflexivity|].
    cbn [List.map existsb fst]. rewrite IH. reflexivity. }
  assert (Hall : forall l : list (string * A),
            forallb named (List.map (fun m => (fst m, g m)) l) = forallb named l).
  { intros l0. induction l0 as [|m l0 IH]; [reflexivity|].
    cbn [List.map forallb]. rewrite IH. reflexivity. }
  unfold enumerated. f_equal.
  - induction l as [|m l IH]; [reflexivity|]. cbn [List.map distinct fst].
    rewrite IH, Hex. reflexivity.
  - generalize (-1). induction l as [|m l IH]; intros lo; [reflexivity|].
    cbn [List.map ascending fst]. destruct (arrayIndex (fst m)) as [n|].
    + rewrite IH. reflexivity.
    + apply Hall.
Qed.

(** ** Round trips *)

Section RoundTrip.
Variable Date_new : Value -> option Z.
Variable BigInt_new : Value -> Outcome Z.
Variable options : JsonSerializerOptions.

(** The default replacer and reviver are in use, and the engine's [BigInt]
    reads the decimal numerals [BigInt.prototype.toString] writes. *)
Hypothesis Hreplacer : replacer options = None.
Hypothesis Hreviver : reviver options = None.
Hypothesis Hbigint : forall n : Z, BigInt_new (VStr (stdpp.pretty.pretty n)) = Ok n.

Abbreviation rev := (defaultReviver Date_new BigInt_new options).

(** The reviver does not take the object for an encoded BigInt or Date. *)
Definition untagged (props : list (string * Value)) : bool :=
  match lookupProp "__type" props with
  | Some tag =>
      negb ((notFalse (handleBigInt options) && isString "bigint" tag)
            || (notFalse (handleDates options) && isString "date" tag))
  | None => true
  end.

(** Payloads the serializer can carry unchanged: null, booleans, safe
    integers (the only numbers a [VNum] stands for exactly; fractions, -0,
    NaN and the infinities are not modelled), strings the reviver does not
    take for dates, BigInts when their handling is on, arrays, and objects
    the reviver does not take for encoded values.  An object lists its
    properties as the engine enumerates them. *)
Fixpoint faithful (v : Value) : bool :=
  match v with
  | VNull | VBool _ => true
  | VNum n => isSafeInteger n
  | VStr s => negb (notFalse (handleDates options) && isISODateString Date_new s)
  | VBigInt _ => notFalse (handleBigInt options)
  | VArr items => forallb faithful items
  | VObj props =>
      forallb (fun q => faithful (snd q)) props && untagged props && enumerated props
  | VUndefined | VDate _ => false
  end.

(** The document written for a payload. *)
Fixpoint encode (v : Value) : Doc :=
  match v with
  | VBool b => JBool b
  | VNum n => JNum n
  | VStr s => JStr s
  | VBigInt n => JObj [("__type", JStr "bigint"); ("value", JStr (stdpp.pretty.pretty n))]%string
  | VArr items => JArr (List.map encode items)
  | VObj props => JObj (List.map (fun q => (fst q, encode (snd q))) props)
  | _ => JNull
  end.

(** Nesting depth of what is written. *)
Fixpoint height (v : Value) : nat :=
  match v with
  | VArr items => Datatypes.S (list_max (List.map height items))
  | VObj props => Datatypes.S (list_max (List.map (fun q => height (snd q)) props))
  | VBigInt _ => 1
  | _ => 0
  end.

Lemma serialize_encode (v : Value) :
  forall stack key,
    faithful v = true -> (height v < stack)%nat ->
    serializeProperty stack (defaultReplacer options) key v = Ok (Some (encode v)).
Proof.
  induction v as [| | b | n | s | n | t | items IH | props IH] using Value_nested_ind;
    intros [|stack] key Hf Hh; try discriminate Hf; try lia; try reflexivity.
  - (* BigInt *)
    cbn [faithful] in Hf. cbn [height] in Hh.
    destruct stack as [|stack]; [lia|].
    cbn [serializeProperty toJSON defaultReplacer]. rewrite Hf. reflexivity.
  - cbn [serializeProperty toJSON defaultReplacer encode].
    assert (Hitems : forall index,
              serializeElements (serializeProperty stack (defaultReplacer options)) index items
              = Ok (List.map encode items)).
    { cbn [faithful] in Hf. cbn [height] in Hh.
      induction IH as [|x items Hx _ IHitems]; intros index; [reflexivity|].
      cbn [forallb] in Hf. apply andb_prop in Hf. destruct Hf as [Hfx Hfrest].
      cbn [List.map] in Hh. cbn [serializeElements].
      rewrite Hx; [|exact Hfx|].
      - rewrite IHitems; [reflexivity | exact Hfrest |].
        unfold list_max in Hh |- *. cbn [fold_right] in Hh. lia.
      - unfold list_max in Hh |- *. cbn [fold_right] in Hh. lia. }
    rewrite Hitems. reflexivity.
  - cbn [serializeProperty toJSON defaultReplacer encode].
    assert (Hprops :
              serializeMembers (serializeProperty stack (defaultReplacer options)) props
              = Ok (List.map (fun q => (fst q, encode (snd q))) props)).
    { cbn [faithful] in Hf. apply andb_prop in Hf. destruct Hf as [Hf _].
      apply andb_prop in Hf. destruct Hf as [Hf _].
      cbn [height] in Hh.
      induction IH as [|[k x] props Hx _ IHprops]; [reflexivity|].
      cbn [forallb snd] in Hf. apply andb_prop in Hf. destruct Hf as [Hfx Hfrest].
      cbn [List.map snd] in Hh. cbn [serializeMembers].
      cbn [snd] in Hx. rewrite Hx; [|exact Hfx|].
      - rewrite IHprops; [reflexivity | exact Hfrest |].
        unfold list_max in Hh |- *. cbn [fold_right] in Hh. lia.
      - unfold list_max in Hh |- *. cbn [fold_right] in Hh. lia. }
    rewrite Hprops. reflexivity.
Qed.

Lemma faithful_defined (v : Value) : faithful v = true -> v <> VUndefined.
Proof. intros H ->. discriminate H. Qed.

Lemma internalize_encode (v : Value) :
  forall name, faithful v = true -> internalize rev name (encode v) = Ok v.
Proof.
  induction v as [| | b | n | s | n | t | items IH | props IH] using Value_nested_ind;
    intros name Hf; try discriminate Hf; try reflexivity.
  - (* string *)
    cbn [faithful] in Hf. apply negb_true_iff in Hf.
    cbn [encode internalize]. unfold defaultReviver. rewrite Hf. reflexivity.
  - (* BigInt *)
    cbn [faithful] in Hf. cbn [encode]. rewrite internalize_object.
    rewrite ownProperties_enumerated by reflexivity.
    cbn [reviveMembers List.map fst snd collect internalize].
    assert (Htype : rev "__type" (VStr "bigint") = Ok (VStr "bigint")).
    { unfold defaultReviver. cbn [isString]. unfold isISODateString.
      replace (isoDateRegex "bigint") with false by (vm_compute; reflexivity).
      rewrite andb_false_r. reflexivity. }
    assert (Hvalue : rev "value" (VStr (stdpp.pretty.pretty n))
                     = Ok (VStr (stdpp.pretty.pretty n))).
    { unfold defaultReviver, isISODateString. rewrite numeral_not_iso.
      rewrite andb_false_r. reflexivity. }
    rewrite Htype, Hvalue. unfold defaultReviver.
    cbn [lookupProp String.eqb Ascii.eqb Bool.eqb Backoff.orDefault isString].
    rewrite Hf. cbn [andb]. rewrite Hbigint. reflexivity.
  - (* array *)
    cbn [encode]. rewrite internalize_array.
    assert (Hitems : forall index,
              reviveElements (internalize rev) index (List.map encode items) = Ok items).
    { cbn [faithful] in Hf.
      induction IH as [|x items Hx _ IHitems]; intros index; [reflexivity|].
      cbn [forallb] in Hf. apply andb_prop in Hf. destruct Hf as [Hfx Hfrest].
      cbn [List.map reviveElements]. rewrite Hx by exact Hfx.
      rewrite IHitems by exact Hfrest. reflexivity. }
    rewrite Hitems. reflexivity.
  - (* object *)
    cbn [encode]. rewrite internalize_object.
    cbn [faithful] in Hf. apply andb_prop in Hf. destruct Hf as [Hf Henum].
    apply andb_prop in Hf. destruct Hf as [Hf Htag].
    unfold reviveMembers. rewrite List.map_map. cbn [fst snd].
    rewrite ownProperties_enumerated
      by (rewrite (enumerated_map (fun q => internalize rev (fst q) (encode (snd q))));
          exact Henum).
    assert (Hprops : collect (List.map (fun q => (fst q, internalize rev (fst q)
                                                           (encode (snd q)))) props)
                     = Ok props).
    { clear Htag Henum. induction IH as [|[k x] props Hx _ IHprops]; [reflexivity|].
      cbn [forallb snd] in Hf. apply andb_prop in Hf. destruct Hf as [Hfx Hfrest].
      cbn [List.map collect fst snd]. cbn [snd] in Hx. rewrite Hx by exact Hfx.
      rewrite IHprops by exact Hfrest.
      pose proof (faithful_defined x Hfx) as Hdef.
      destruct x; try reflexivity. congruence. }
    rewrite Hprops. unfold defaultReviver. unfold untagged in Htag.
    destruct (lookupProp "__type" props) as [tag|]; [|reflexivity].
    apply negb_true_iff, orb_false_elim in Htag. destruct Htag as [Hb Hd].
    rewrite Hb, Hd. reflexivity.
Qed.

(** X23.  With the default replacer and reviver and an engine whose
    [BigInt] reads what [BigInt.prototype.toString] writes, every payload
    made of null, booleans, safe integers, strings, BigInts (their handling
    being on), arrays and objects comes back from deserialize(serialize(x))
    equal to x, property order included, provided the reviver has nothing
    to revive in it by mistake: no string is an ISO date string (when date
    handling is on), and no object has a "__type" property equal to
    "bigint" or "date" (when the handling of that type is on).  BigInts are
    written as {"__type":"bigint","value":"<decimal>"}, everything else as
    it is.  Numbers other than safe integers are outside the statement. *)
Theorem faithful_roundtrip (x : Value) (stack : nat) :
  faithful x = true -> (height x < stack)%nat ->
  serialize stack options x = Ok (Some (encode x))
  /\ deserialize Date_new BigInt_new options (encode x) = Ok x.
Proof.
  intros Hf Hh. split.
  - unfold serialize, stringify. rewrite Hreplacer. cbn [Backoff.orDefault].
    rewrite serialize_encode by assumption. reflexivity.
  - unfold deserialize. rewrite Hreviver. cbn [Backoff.orDefault].
    rewrite internalize_encode by assumption. reflexivity.
Qed.

End RoundTrip.

(** The reference [BigInt] reads every decimal numeral. *)
Lemma pretty_N_char_value (x : N) :
  (x < 10)%N -> Z.of_nat (nat_of_ascii (pretty_N_char x) - 48) = Z.of_N x.
Proof.
  intros Hx.
  assert (H : (x = 0 \/ x = 1 \/ x = 2 \/ x = 3 \/ x = 4 \/ x = 5 \/ x = 6 \/ x = 7
               \/ x = 8 \/ x = 9)%N) by lia.
  repeat (destruct H as [-> | H]; [reflexivity|]). subst x. reflexivity.
Qed.

Lemma numeral_pretty_N_go (x : N) :
  forall (s : string),
    numeral (list_ascii_of_string (pretty_N_go x s)) 0
    = numeral (list_ascii_of_string s) (Z.of_N x).
Proof.
  induction (N.lt_wf_0 x) as [x _ IH]; intros s.
  destruct (N.eq_dec x 0) as [->|Hx].
  - rewrite pretty_N_go_0. reflexivity.
  - rewrite pretty_N_go_step by lia. rewrite IH by (apply N.div_lt; lia).
    cbn [list_ascii_of_string numeral].
    rewrite pretty_N_char_value by (apply N.mod_lt; lia).
    f_equal. rewrite (N.div_mod x 10) at 3 by lia. lia.
Qed.

Lemma referenceBigInt_pretty (n : Z) :
  referenceBigInt (VStr (stdpp.pretty.pretty n)) = Ok n.
Proof.
  destruct n as [|p|p]; [reflexivity| |].
  - pose proof (pretty_digits (Z.pos p) ltac:(lia)) as Hd.
    assert (Hnum : numeral (list_ascii_of_string (stdpp.pretty.pretty (Z.pos p))) 0 = Z.pos p).
    { unfold stdpp.pretty.pretty, pretty_Z, stdpp.pretty.pretty, pretty_positive,
        stdpp.pretty.pretty, pretty_N.
      destruct (decide (N.pos p = 0%N)); [discriminate|].
      rewrite numeral_pretty_N_go. reflexivity. }
    unfold referenceBigInt.
    destruct (list_ascii_of_string (stdpp.pretty.pretty (Z.pos p))) as [|c l] eqn:E.
    + cbn in Hnum. discriminate.
    + cbn [forallb] in Hd. apply andb_prop in Hd. destruct Hd as [Hc Hl].
      assert (Hnd : c <> "-"%char) by (intros ->; discriminate Hc).
      assert (Hgo : (if forallb isDigit (c :: l) then Ok (numeral (c :: l) 0)
                     else Throw (mkError "SyntaxError" "Cannot convert to a BigInt" None))
                    = Ok (Z.pos p)).
      { cbn [forallb]. rewrite Hc, Hl, Hnum. reflexivity. }
      destruct c as [[] [] [] [] [] [] [] []]; try exact Hgo; try congruence;
        destruct l; exact Hgo.
  - pose proof (pretty_digits (Z.pos p) ltac:(lia)) as Hd.
    assert (Hnum : numeral (list_ascii_of_string (stdpp.pretty.pretty (Z.pos p))) 0 = Z.pos p).
    { unfold stdpp.pretty.pretty, pretty_Z, stdpp.pretty.pretty, pretty_positive,
        stdpp.pretty.pretty, pretty_N.
      destruct (decide (N.pos p = 0%N)); [discriminate|].
      rewrite numeral_pretty_N_go. reflexivity. }
    unfold referenceBigInt.
    change (stdpp.pretty.pretty (Z.neg p))
      with (String "-"%char (stdpp.pretty.pretty (Z.pos p))).
    cbn [list_ascii_of_string].
    destruct (list_ascii_of_string (stdpp.pretty.pretty (Z.pos p))) as [|c l] eqn:E.
    + cbn in Hnum. discriminate.
    + rewrite Hd, Hnum. reflexivity.
Qed.

Lemma faithful_roundtrip_witness :
  let x := VObj [("7", VBool true);
                 ("amount", VBigInt 9007199254740993);
                 ("tags", VArr [VStr "a"; VNull; VNum (-3)]);
                 ("__type", VStr "order")]%string in
  serialize 8 defaultOptions x
  = Ok (Some (JObj [("7", JBool true);
                    ("amount", JObj [("__type", JStr "bigint");
                                     ("value", JStr "9007199254740993")]);
                    ("tags", JArr [JStr "a"; JNull; JNum (-3)]);
                    ("__type", JStr "order")]%string))
  /\ deserialize referenceDate referenceBigInt defaultOptions
       (encode (VObj [("7", VBool true);
                      ("amount", VBigInt 9007199254740993);
                      ("tags", VArr [VStr "a"; VNull; VNum (-3)]);
                      ("__type", VStr "order")]%string))
     = Ok x.
Proof.
  intros x.
  destruct (faithful_roundtrip referenceDate referenceBigInt defaultOptions
              eq_refl eq_refl referenceBigInt_pretty x 8) as [Hs Hd].
  - vm_compute. reflexivity.
  - vm_compute. lia.
  - split; [rewrite Hs; vm_compute; reflexivity | exact Hd].
Defined.

(** ** Dates *)

Lemma chars_app (a b : string) :
  list_ascii_of_string (String.append a b)
  = (list_ascii_of_string a ++ list_ascii_of_string b)%list.
Proof.
  induction a as [|c a IH]; [reflexivity|].
  simpl. rewrite IH. reflexivity.
Qed.

Lemma digit_char (n : Z) : isDigit (ascii_of_nat (48 + Z.to_nat (n mod 10))) = true.
Proof.
  pose proof (Z.mod_pos_bound n 10 ltac:(lia)) as Hb.
  assert (H : (Z.to_nat (n mod 10) < 10)%nat) by lia.
  destruct (Z.to_nat (n mod 10)) as [|[|[|[|[|[|[|[|[|[|k]]]]]]]]]]; try reflexivity. lia.
Qed.

(** [pad width n] is [width] digits. *)
Lemma padDigits_chars (width : nat) :
  forall (n : Z) (acc : string),
    exists ds, List.length ds = width /\ forallb isDigit ds = true
               /\ list_ascii_of_string (padDigits width n acc)
                  = ds ++ list_ascii_of_string acc.
Proof.
  induction width as [|k IH]; intros n acc.
  - exists []. repeat split.
  - cbn [padDigits].
    destruct (IH (n / 10) (String (ascii_of_nat (48 + Z.to_nat (n mod 10))) acc))
      as (ds & Hlen & Hd & Hc).
    exists (ds ++ [ascii_of_nat (48 + Z.to_nat (n mod 10))]). split; [|split].
    + rewrite List.length_app. cbn [List.length]. lia.
    + rewrite forallb_app, Hd. cbn [forallb]. rewrite digit_char. reflexivity.
    + rewrite Hc. cbn [list_ascii_of_string]. rewrite <- app_assoc. reflexivity.
Qed.

Lemma pad_chars (width : nat) (n : Z) :
  exists ds, List.length ds = width /\ forallb isDigit ds = true
             /\ list_ascii_of_string (pad width n) = ds.
Proof.
  destruct (padDigits_chars width n EmptyString) as (ds & Hlen & Hd & Hc).
  exists ds. repeat split; try assumption. unfold pad. rewrite Hc. apply app_nil_r.
Qed.

Lemma digits_app (ds rest : list ascii) :
  forallb isDigit ds = true -> digits (List.length ds) (ds ++ rest) = Some rest.
Proof.
  induction ds as [|c ds IH]; intros Hd; [reflexivity|].
  cbn [forallb] in Hd. apply andb_prop in Hd. destruct Hd as [Hc Hd].
  cbn [List.length List.app digits]. rewrite Hc. apply IH. exact Hd.
Qed.

(** The strings [toISOString] writes for years 0000..9999 match the
    pattern of [isISODateString]; the others, which start with a sign, do
    not. *)
Lemma toISOString_regex (t : Z) :
  isoDateRegex (toISOString t)
  = (0 <=? getUTCFullYear t) && (getUTCFullYear t <=? 9999).
Proof.
  unfold getUTCFullYear, toISOString.
  destruct (civilFromDays (t / msPerDay)) as [[y m] d]. cbn [fst].
  destruct ((0 <=? y) && (y <=? 9999)) eqn:Hrange.
  - destruct (pad_chars 4 y) as (Y & HY & HYd & HYc).
    destruct (pad_chars 2 m) as (Mo & HM & HMd & HMc).
    destruct (pad_chars 2 d) as (D & HD & HDd & HDc).
    destruct (pad_chars 2 (t mod msPerDay / 3600000)) as (Hh & HH & HHd & HHc).
    destruct (pad_chars 2 (t mod msPerDay / 60000 mod 60)) as (Mi & HI & HId & HIc).
    destruct (pad_chars 2 (t mod msPerDay / 1000 mod 60)) as (Se & HS & HSd & HSc).
    destruct (pad_chars 3 (t mod msPerDay mod 1000)) as (Ms & HL & HLd & HLc).
    unfold isoDateRegex, sequence.
    rewrite !chars_app, HYc, HMc, HDc, HHc, HIc, HSc, HLc.
    cbn [list_ascii_of_string List.app fold_left].
    rewrite <- HY at 1. rewrite (digits_app Y _ HYd). cbn [lit Ascii.eqb Bool.eqb].
    rewrite <- HM at 1. rewrite (digits_app Mo _ HMd). cbn [lit Ascii.eqb Bool.eqb].
    rewrite <- HD at 1. rewrite (digits_app D _ HDd). cbn [lit Ascii.eqb Bool.eqb].
    rewrite <- HH at 1. rewrite (digits_app Hh _ HHd). cbn [lit Ascii.eqb Bool.eqb].
    rewrite <- HI at 1. rewrite (digits_app Mi _ HId). cbn [lit Ascii.eqb Bool.eqb].
    rewrite <- HS at 1. rewrite (digits_app Se _ HSd). cbn [lit Ascii.eqb Bool.eqb].
    rewrite <- HL at 1. rewrite (digits_app Ms _ HLd). cbn [lit Ascii.eqb Bool.eqb].
    reflexivity.
  - unfold isoDateRegex, sequence.
    destruct (y <? 0); rewrite !chars_app; reflexivity.
Qed.

Section Dates.
Variable Date_new : Value -> option Z.
Variable BigInt_new : Value -> Outcome Z.
Variable options : JsonSerializerOptions.

(** X24.  A Date survives deserialize(serialize(d)), with the default
    replacer and reviver and date handling on, exactly when its UTC year
    has four digits (0000 to 9999) and the engine reads back the ISO string
    it wrote: the serializer writes the plain string of
    [Date.prototype.toISOString], and the reviver turns it into a Date only
    because it matches the pattern ^\d{4}-... of [isISODateString].  For a
    year outside that range the string carries a sign and six digits, does
    not match, and comes back as a string; an invalid Date is written as
    null and comes back as null. *)
Theorem date_roundtrip (t : Z) (stack : nat) :
  replacer options = None -> reviver options = None ->
  notFalse (handleDates options) = true ->
  serialize (Datatypes.S stack) options (VDate (Some t)) = Ok (Some (JStr (toISOString t)))
  /\ (0 <= getUTCFullYear t <= 9999 -> Date_new (VStr (toISOString t)) = Some t ->
      deserialize Date_new BigInt_new options (JStr (toISOString t)) = Ok (VDate (Some t)))
  /\ (~ 0 <= getUTCFullYear t <= 9999 ->
      deserialize Date_new BigInt_new options (JStr (toISOString t))
      = Ok (VStr (toISOString t)))
  /\ serialize (Datatypes.S stack) options (VDate None) = Ok (Some JNull)
  /\ deserialize Date_new BigInt_new options JNull = Ok VNull.
Proof.
  intros Hrep Hrev Hdates.
  assert (Hser : forall v d,
            serializeProperty (Datatypes.S stack) (defaultReplacer options) EmptyString v
            = Ok d -> serialize (Datatypes.S stack) options v = Ok d).
  { intros v d H. unfold serialize, stringify. rewrite Hrep. cbn [Backoff.orDefault].
    rewrite H. reflexivity. }
  assert (Hde : forall doc v,
            internalize (defaultReviver Date_new BigInt_new options) EmptyString doc = Ok v ->
            deserialize Date_new BigInt_new options doc = Ok v).
  { intros doc v H. unfold deserialize. rewrite Hrev. cbn [Backoff.orDefault].
    rewrite H. reflexivity. }
  split; [apply Hser; reflexivity|]. split; [|split; [|split]].
  - intros Hy Hparse. apply Hde. cbn [internalize]. unfold defaultReviver.
    rewrite Hdates. unfold isISODateString. rewrite toISOString_regex, Hparse.
    replace ((0 <=? getUTCFullYear t) && (getUTCFullYear t <=? 9999)) with true
      by (symmetry; apply andb_true_intro; split; apply Z.leb_le; lia).
    reflexivity.
  - intros Hy. apply Hde. cbn [internalize]. unfold defaultReviver.
    unfold isISODateString. rewrite toISOString_regex.
    replace ((0 <=? getUTCFullYear t) && (getUTCFullYear t <=? 9999)) with false.
    + rewrite andb_false_r. reflexivity.
    + symmetry. apply andb_false_iff.
      destruct (Z.leb_spec 0 (getUTCFullYear t)); [|left; reflexivity].
      right. apply Z.leb_gt. lia.
  - apply Hser. reflexivity.
  - apply Hde. reflexivity.
Qed.

End Dates.

Lemma date_roundtrip_witness :
  deserialize referenceDate referenceBigInt defaultOptions
              (JStr (toISOString 1705314600000)) = Ok (VDate (Some 1705314600000))
  /\ toISOString 253402300800000 = "+010000-01-01T00:00:00.000Z"%string
  /\ deserialize referenceDate referenceBigInt defaultOptions
                 (JStr (toISOString 253402300800000))
     = Ok (VStr (toISOString 253402300800000)).
Proof.
  destruct (date_roundtrip referenceDate referenceBigInt defaultOptions 1705314600000 7
              eq_refl eq_refl eq_refl) as (_ & Hin & _).
  destruct (date_roundtrip referenceDate referenceBigInt defaultOptions 253402300800000 7
              eq_refl eq_refl eq_refl) as (_ & _ & Hout & _).
  split; [|split; [vm_compute; reflexivity|]].
  - apply Hin; [vm_compute; split; discriminate | vm_compute; reflexivity].
  - apply Hout. vm_compute. intros [_ H]. apply H. reflexivity.
Defined.

End JsonLaws.

(* ===================================================================== *)
(** * Further properties of errors and identifiers *)
(* ===================================================================== *)

Module IdLaws.
Import Js Runtime Retry Errors Ids JsonLaws.

(** ** Wrapped errors *)



(** ** UUIDs *)

Lemma toInt32_small (x : Q) :
  (0 <= x)%Q -> (x < 16)%Q -> toInt32 x = Qfloor x /\ 0 <= Qfloor x <= 15.
Proof.
  intros H0 H16.
  assert (Hlo : 0 <= Qfloor x).
  { change 0 with (Qfloor 0). apply Qfloor_resp_le. exact H0. }
  assert (Hhi : Qfloor x < 16).
  { rewrite Zlt_Qlt. eapply Qle_lt_trans; [apply Qfloor_le | exact H16]. }
  split; [|lia]. unfold toInt32.
  replace (Qle_bool 0 x) with true by (symmetry; apply Qle_bool_iff; exact H0).
  cbv zeta. rewrite Z.mod_small by lia.
  replace (Qfloor x <? 2 ^ 31) with true by (symmetry; apply Z.ltb_lt; lia).
  reflexivity.
Qed.

Definition isVariant (c : ascii) : bool :=
  existsb (Ascii.eqb c) (list_ascii_of_string "89abAB").

Lemma sixteen (d : Z) :
  0 <= d <= 15 ->
  d = 0 \/ d = 1 \/ d = 2 \/ d = 3 \/ d = 4 \/ d = 5 \/ d = 6 \/ d = 7 \/ d = 8
  \/ d = 9 \/ d = 10 \/ d = 11 \/ d = 12 \/ d = 13 \/ d = 14 \/ d = 15.
Proof. lia. Qed.

Lemma uuidDigit_x (r : Q) :
  (0 <= r)%Q -> (r < 1)%Q ->
  exists h, uuidDigit "x" r = String h EmptyString /\ isHex h = true.
Proof.
  intros H0 H1.
  destruct (toInt32_small (r * 16)%Q) as [Heq Hd]; [nra | nra |].
  unfold uuidDigit. cbv zeta. rewrite Heq.
  change (Ascii.eqb "x" "x") with true. cbv iota.
  destruct (sixteen _ Hd) as
    [H|[H|[H|[H|[H|[H|[H|[H|[H|[H|[H|[H|[H|[H|[H|H]]]]]]]]]]]]]]];
    rewrite H; eexists; split; reflexivity.
Qed.

Lemma uuidDigit_y (r : Q) :
  (0 <= r)%Q -> (r < 1)%Q ->
  exists h, uuidDigit "y" r = String h EmptyString /\ isVariant h = true.
Proof.
  intros H0 H1.
  destruct (toInt32_small (r * 16)%Q) as [Heq Hd]; [nra | nra |].
  unfold uuidDigit. cbv zeta. rewrite Heq.
  change (Ascii.eqb "y" "x") with false. cbv iota.
  destruct (sixteen _ Hd) as
    [H|[H|[H|[H|[H|[H|[H|[H|[H|[H|[H|[H|[H|[H|[H|H]]]]]]]]]]]]]]];
    rewrite H; eexists; split; reflexivity.
Qed.

(** What the replacement leaves at the place of the template character
    [c]. *)
Definition fits (c o : ascii) : Prop :=
  if Ascii.eqb c "x" then isHex o = true
  else if Ascii.eqb c "y" then isVariant o = true
  else o = c.

Definition placeholders (template : list ascii) : nat :=
  List.length (List.filter (fun c => Ascii.eqb c "x" || Ascii.eqb c "y") template).

Lemma replaceXY_fits (rng : nat -> Q) (template : list ascii) :
  (forall i, 0 <= rng i /\ rng i < 1)%Q ->
  forall idx,
    Forall2 fits template (list_ascii_of_string (fst (replaceXY template rng idx)))
    /\ snd (replaceXY template rng idx) = (idx + placeholders template)%nat.
Proof.
  intros Hrng. induction template as [|c rest IH]; intros idx.
  - cbn. split; [constructor | lia].
  - cbn [replaceXY]. unfold placeholders. cbn [List.filter]. unfold fits at 1.
    destruct (Ascii.eqb c "x") eqn:Hx; cbn [orb].
    + destruct (IH (Datatypes.S idx)) as [Hfit Hidx].
      destruct (replaceXY rest rng (Datatypes.S idx)) as [s i]. cbn [fst snd] in *.
      apply Ascii.eqb_eq in Hx. subst c.
      destruct (uuidDigit_x (rng idx)) as (h & Hh & Hhex); [apply Hrng | apply Hrng |].
      rewrite Hh. cbn [String.append list_ascii_of_string List.length]. split.
      * constructor; [|exact Hfit]. unfold fits. cbn. exact Hhex.
      * unfold placeholders in Hidx. lia.
    + destruct (Ascii.eqb c "y") eqn:Hy.
      * destruct (IH (Datatypes.S idx)) as [Hfit Hidx].
        destruct (replaceXY rest rng (Datatypes.S idx)) as [s i]. cbn [fst snd] in *.
        apply Ascii.eqb_eq in Hy. subst c.
        destruct (uuidDigit_y (rng idx)) as (h & Hh & Hvar); [apply Hrng | apply Hrng |].
        rewrite Hh. cbn [String.append list_ascii_of_string List.length]. split.
        -- constructor; [|exact Hfit]. unfold fits. cbn. exact Hvar.
        -- unfold placeholders in Hidx. lia.
      * destruct (IH idx) as [Hfit Hidx].
        destruct (replaceXY rest rng idx) as [s i]. cbn [fst snd] in *.
        cbn [list_ascii_of_string]. split.
        -- constructor; [|exact Hfit]. unfold fits. rewrite Hx, Hy. reflexivity.
        -- unfold placeholders in Hidx. lia.
Qed.

Lemma fits_valid (s : string) :
  Forall2 fits (list_ascii_of_string "xxxxxxxx-xxxx-4xxx-yxxx-xxxxxxxxxxxx")
          (list_ascii_of_string s) ->
  isValidUUID s = true.
Proof.
  unfold isValidUUID. remember (list_ascii_of_string s) as l eqn:Hl. clear Hl s.
  cbn [list_ascii_of_string]. intros H.
  repeat match goal with
         | H : Forall2 fits (_ :: _) _ |- _ =>
             let o := fresh "o" in
             let rest := fresh "rest" in
             let Ho := fresh "Ho" in
             let Hr := fresh "Hr" in
             apply Forall2_cons_inv_l in H;
             destruct H as (o & rest & Ho & Hr & ->);
             cbv [fits Ascii.eqb Bool.eqb] in Ho
         end.
  match goal with
  | H : Forall2 fits [] _ |- _ => apply Forall2_nil_inv_l in H; subst
  end.
  unfold Json.sequence.
  repeat (cbn [fold_left hexs Json.lit variant Ascii.eqb Bool.eqb];
          match goal with
          | H : isHex ?o = true |- context [isHex ?o] => rewrite H; clear H
          | H : isVariant ?o = true |- context [existsb (Ascii.eqb ?o) _] =>
              change (existsb (Ascii.eqb o) (list_ascii_of_string "89abAB"))
                with (isVariant o); rewrite H; clear H
          end).
  reflexivity.
Qed.

(** X26.  Without [crypto.randomUUID], [generateUUID] takes 31 draws of
    [Math.random()] and returns a string of 36 characters that [isValidUUID]
    accepts, whatever the draws are. *)
Theorem generateUUID_valid {S} (w : World S) :
  (forall i, 0 <= rng w i /\ rng w i < 1)%Q ->
  exists id w',
    generateUUID None w = (Ok id, w')
    /\ isValidUUID id = true
    /\ String.length id = 36%nat
    /\ rngIdx w' = (rngIdx w + 31)%nat
    /\ clock w' = clock w /\ trace w' = trace w /\ user w' = user w.
Proof.
  intros Hrng. unfold generateUUID.
  destruct (replaceXY_fits (rng w)
              (list_ascii_of_string "xxxxxxxx-xxxx-4xxx-yxxx-xxxxxxxxxxxx") Hrng (rngIdx w))
    as [Hfit Hidx].
  destruct (replaceXY (list_ascii_of_string "xxxxxxxx-xxxx-4xxx-yxxx-xxxxxxxxxxxx")
                      (rng w) (rngIdx w)) as [s i].
  cbn [fst snd] in *. exists s. eexists. split; [reflexivity|].
  split; [apply fits_valid; exact Hfit|]. split.
  - apply Forall2_length in Hfit.
    assert (Hlen : forall x : string,
               String.length x = List.length (list_ascii_of_string x)).
    { intros x. induction x as [|c x IH]; [reflexivity|]. cbn. rewrite IH. reflexivity. }
    rewrite Hlen, <- Hfit. reflexivity.
  - cbn [rngIdx clock trace user]. repeat split. rewrite Hidx. reflexivity.
Qed.

(** A world whose draws are 0, 1/7, ..., 6/7, 0, ... *)
Definition sevenths : World unit := mkWorld 1000 (fun i => (Z.of_nat (i mod 7) # 7)) 0 [] tt.

Lemma generateUUID_valid_witness :
  fst (generateUUID None sevenths) = Ok "02469bd0-2469-4bd0-a469-bd02469bd024"%string
  /\ isValidUUID "02469bd0-2469-4bd0-a469-bd02469bd024" = true.
Proof.
  assert (Hrng : (forall i, 0 <= rng sevenths i /\ rng sevenths i < 1)%Q).
  { intros i. cbn [rng sevenths]. unfold Qle, Qlt. cbn [Qnum Qden].
    pose proof (Nat.mod_upper_bound i 7 ltac:(discriminate)). lia. }
  destruct (generateUUID_valid sevenths Hrng) as (id & w' & Hrun & Hvalid & _).
  assert (Hid : fst (generateUUID None sevenths)
                = Ok "02469bd0-2469-4bd0-a469-bd02469bd024"%string)
    by (vm_compute; reflexivity).
  split; [exact Hid|]. rewrite Hrun in Hid. cbn [fst] in Hid.
  injection Hid as <-. exact Hvalid.
Defined.

(** ** Message identifiers *)

Lemma numeral_sep (d1 d2 r1 r2 : list ascii) :
  forallb Json.isDigit d1 = true -> forallb Json.isDigit d2 = true ->
  (d1 ++ "-"%char :: r1 = d2 ++ "-"%char :: r2)%list -> d1 = d2 /\ r1 = r2.
Proof.
  revert d2. induction d1 as [|c d1 IH]; intros [|c2 d2] H1 H2 Heq;
    cbn [List.app forallb] in *.
  - injection Heq as ->. split; reflexivity.
  - injection Heq as <- _. discriminate H2.
  - injection Heq as -> _. discriminate H1.
  - injection Heq as -> Heq.
    apply andb_prop in H1. apply andb_prop in H2.
    destruct (IH d2 (proj2 H1) (proj2 H2) Heq) as [-> ->]. split; reflexivity.
Qed.

Lemma chars_inj (a b : string) : list_ascii_of_string a = list_ascii_of_string b -> a = b.
Proof.
  intros H. rewrite <- (string_of_list_ascii_of_string a), H.
  apply string_of_list_ascii_of_string.
Qed.

(** The text [`${timestamp}-${sequence}-${random}`]. *)
Definition messageId (timestamp sequence : Z) (suffix : string) : string :=
  String.append (pretty timestamp)
    (String.append "-" (String.append (pretty sequence) (String.append "-" suffix))).

Lemma messageId_inj (t1 t2 s1 s2 : Z) (x1 x2 : string) :
  0 <= t1 -> 0 <= t2 -> 0 <= s1 -> 0 <= s2 ->
  messageId t1 s1 x1 = messageId t2 s2 x2 -> t1 = t2 /\ s1 = s2 /\ x1 = x2.
Proof.
  intros Ht1 Ht2 Hs1 Hs2 Heq. apply (f_equal list_ascii_of_string) in Heq.
  unfold messageId in Heq. rewrite !chars_app in Heq.
  cbn [list_ascii_of_string List.app] in Heq.
  apply numeral_sep in Heq; try (apply pretty_digits; assumption).
  destruct Heq as [Ht Heq].
  apply numeral_sep in Heq; try (apply pretty_digits; assumption).
  destruct Heq as [Hs Hx].
  apply chars_inj in Ht, Hs, Hx.
  split; [|split]; [apply (inj pretty); exact Ht | apply (inj pretty); exact Hs | exact Hx].
Qed.

(** The identifiers one generator returns when it is called in the worlds
    [ws], one after the other: between two calls the clock may move and
    other code may draw random numbers. *)
Fixpoint generated {S} (g : MessageIdGenerator) (ws : list (World S))
  : list (Outcome string) :=
  match ws with
  | [] => []
  | w :: rest => fst (fst (generate g w)) :: generated (snd (fst (generate g w))) rest
  end.

Lemma generate_spec {S} (g : MessageIdGenerator) (w : World S) :
  fst (fst (generate g w))
  = Ok (messageId (clock w) (sequence g) (Memory.randomSuffix (rng w (rngIdx w))))
  /\ snd (fst (generate g w)) = mkMessageIdGenerator (increment (sequence g)).
Proof. split; reflexivity. Qed.

Lemma generated_later {S} (ws : list (World S)) :
  forall (g : MessageIdGenerator) (x : Outcome string),
    Forall (fun w => 0 <= clock w) ws -> In x (generated g ws) ->
    exists t s sfx, x = Ok (messageId t s sfx) /\ 0 <= t /\ sequence g <= s.
Proof.
  induction ws as [|w ws IH]; intros g x Hws Hin; [destruct Hin|].
  inversion Hws as [|? ? Hw Hws']; subst.
  cbn [generated] in Hin. destruct (generate_spec g w) as [Hid Hnext].
  rewrite Hid, Hnext in Hin. destruct Hin as [<-|Hin].
  - do 3 eexists. split; [reflexivity|]. split; [exact Hw | lia].
  - destruct (IH _ x Hws' Hin) as (t & s & sfx & Hx & Ht & Hs).
    exists t, s, sfx. split; [exact Hx|]. split; [exact Ht|].
    cbn [sequence] in Hs. unfold increment in Hs.
    destruct (sequence g <? 2 ^ 53); lia.
Qed.

(** X27.  A generator made by createIdGenerator('message') never returns
    the same identifier twice in its first 2^53 + 1 calls, even when calls
    fall into the same millisecond and draw the same random number: every
    call writes the next value of the sequence counter into its identifier.
    (Past 2^53 the counter, a double, stops moving.) *)
Theorem message_ids_distinct {S} (ws : list (World S)) :
  Forall (fun w => 0 <= clock w) ws ->
  Z.of_nat (List.length ws) <= 2 ^ 53 + 1 ->
  List.NoDup (generated createMessageIdGenerator ws).
Proof.
  intros Hws Hlen.
  assert (Hgen : forall g : MessageIdGenerator,
            0 <= sequence g ->
            sequence g + Z.of_nat (List.length ws) <= 2 ^ 53 + 1 ->
            List.NoDup (generated g ws)).
  { clear Hlen. induction ws as [|w ws IH]; intros g Hg Hlen; [constructor|].
    inversion Hws as [|? ? Hw Hws']; subst.
    cbn [generated]. destruct (generate_spec g w) as [Hid Hnext].
    rewrite Hid, Hnext. cbn [List.length] in Hlen.
    destruct ws as [|w2 ws2]; [constructor; [intros []|constructor]|].
    assert (Hlt : sequence g < 2 ^ 53) by (cbn [List.length] in Hlen; lia).
    assert (Hinc : increment (sequence g) = sequence g + 1).
    { unfold increment. replace (sequence g <? 2 ^ 53) with true; [reflexivity|].
      symmetry. apply Z.ltb_lt. exact Hlt. }
    rewrite Hinc. constructor.
    - intros Hin.
      destruct (generated_later _ _ _ Hws' Hin) as (t & s & sfx & Hx & Ht & Hs).
      injection Hx as Hx. cbn [sequence] in Hs.
      assert (Hs0 : 0 <= s) by lia.
      destruct (messageId_inj _ _ _ _ _ _ Hw Ht Hg Hs0 Hx) as (_ & Hseq & _).
      lia.
    - apply (IH Hws'); cbn [sequence]; lia. }
  apply Hgen; [reflexivity | exact Hlen].
Qed.

Lemma message_ids_distinct_witness :
  generated createMessageIdGenerator [sevenths; sevenths; sevenths]
  = [Ok "1000-0-"%string; Ok "1000-1-"%string; Ok "1000-2-"%string]
  /\ List.NoDup (generated createMessageIdGenerator [sevenths; sevenths; sevenths]).
Proof.
  split; [vm_compute; reflexivity|].
  apply message_ids_distinct.
  - repeat constructor; discriminate.
  - vm_compute. discriminate.
Defined.

End IdLaws.
